(** * Feature generation for survey light curves: [tools/generate_features.py]

    A shallow embedding of the two functions of the module,
    [drop_close_bright_stars] and [generate_features], and the properties
    of the bright-star filter, the light-curve loop, the frequency grid and
    the period-search configuration check.

    Numbers.  Python floats are binary64.  Magnitudes, separations, radii
    and times are only ever compared with each other in the code modelled
    here, and every finite binary64 value is a rational, so they are
    embedded in [Q]; infinities and NaN are left out.  The frequency grid
    does arithmetic: it is computed with the primitive binary64 floats of the
    kernel, from the baseline rounded to binary64.

    Collaborators that live outside this module (the Kowalski query client,
    [astropy]'s separation, [scope.utils], [lcstats], [periodsearch],
    [alertstats], [external_xmatch], [cesium], the parquet writer) are
    parameters of the development. *)

From Stdlib Require Import QArith Qabs Qround Lqa.
From Stdlib Require Uint63 PrimFloat FloatOps SpecFloat FloatAxioms.
From stdpp Require Import gmap strings list pretty.

Set Default Proof Using "Type*".

(** ** Python exceptions and the two effect layers *)

Inductive exn : Type :=
  | KeyError
  | ValueError
  | IndexError
  | TypeError
  | ZeroDivisionError
  | OverflowError
  | ServiceError.

Global Instance exn_eq_dec : EqDecision exn.
Proof. solve_decision. Defined.

(** A call either returns a value or raises. *)
Inductive result (A : Type) : Type :=
  | Ok (a : A)
  | Raise (e : exn).
Global Arguments Ok {A} a.
Global Arguments Raise {A} e.

Definition rbind {A B} (r : result A) (f : A → result B) : result B :=
  match r with
  | Ok a => f a
  | Raise e => Raise e
  end.

(** Statements that mutate local state and may raise: the state reached so
    far survives the exception, which is what a [try]/[except] around them
    observes. *)
Definition prog (S A : Type) : Type := S → S * result A.

Definition pret {S A} (a : A) : prog S A := λ s, (s, Ok a).
Definition pbind {S A B} (c : prog S A) (f : A → prog S B) : prog S B := λ s,
  match c s with
  | (s', Ok a) => f a s'
  | (s', Raise e) => (s', Raise e)
  end.

Notation "'let?' x := c 'in' k" := (rbind c (λ x, k))
  (at level 10, x pattern, c at level 100, k at level 200, only parsing).
Notation "'let*' x := c 'in' k" := (pbind c (λ x, k))
  (at level 10, x pattern, c at level 100, k at level 200, only parsing).
Notation "c ;; k" := (pbind c (λ _, k))
  (at level 100, k at level 200, right associativity, only parsing).

Definition lift {S A} (r : result A) : prog S A := λ s, (s, r).
Definition modify {S} (f : S → S) : prog S unit := λ s, (f s, Ok tt).

(** a block with locals of its own, run inside a larger program *)
Definition run_local {S T A} (c : prog S A) (s0 : S) : prog T S := λ t,
  match c s0 with
  | (s, Ok _) => (t, Ok s)
  | (_, Raise e) => (t, Raise e)
  end.

(** [try: body except ex: handler] *)
Definition try_except {S} (body : prog S unit) (ex : exn) (handler : prog S unit)
    : prog S unit := λ s,
  match body s with
  | (s', Raise e) => if decide (e = ex) then handler s' else (s', Raise e)
  | r => r
  end.

(** [for x in l: body x] *)
Fixpoint for_each {S A} (l : list A) (body : A → prog S unit) : prog S unit :=
  match l with
  | [] => pret ()
  | x :: l' => body x ;; for_each l' body
  end.

(** [for idx, x in enumerate(l)] over a value threaded through the loop *)
Fixpoint for_enumerate {A St} (body : St → nat → A → result St) (idx : nat)
    (l : list A) (s : St) : result St :=
  match l with
  | [] => Ok s
  | x :: l' => let? s' := body s idx x in for_enumerate body (S idx) l' s'
  end.

(** [[f(x) for x in l]] where [f] may raise *)
Fixpoint map_result {A B} (f : A → result B) (l : list A) : result (list B) :=
  match l with
  | [] => Ok []
  | x :: l' => let? y := f x in let? ys := map_result f l' in Ok (y :: ys)
  end.

(** ** Python dictionaries

    A [dict] keeps its keys in insertion order and the code slices the key
    list, so a dictionary is the list of its items; no key occurs twice. *)

Abbreviation pydict K V := (list (K * V)) (only parsing).

Section pydict.
Context {K V : Type} `{EqDecision K}.

Definition keys (d : pydict K V) : list K := d.*1.

Definition pydict_wf (d : pydict K V) : Prop := NoDup (keys d).

(** [d.get(k)] *)
Fixpoint dget (d : pydict K V) (k : K) : option V :=
  match d with
  | [] => None
  | (k', v) :: d' => if decide (k' = k) then Some v else dget d' k
  end.

(** [d[k]] *)
Definition getitem (d : pydict K V) (k : K) : result V :=
  match dget d k with
  | Some v => Ok v
  | None => Raise KeyError
  end.

(** the dictionary left by [del d[k]] *)
Fixpoint remove (d : pydict K V) (k : K) : pydict K V :=
  match d with
  | [] => []
  | (k', v) :: d' => if decide (k' = k) then d' else (k', v) :: remove d' k
  end.

(** [d.pop(k)]: the dictionary without [k]; raises when [k] is absent *)
Definition pop (d : pydict K V) (k : K) : result (pydict K V) :=
  match dget d k with
  | Some _ => Ok (remove d k)
  | None => Raise KeyError
  end.

(** [d[k] = f(d[k])], the in-place update of an existing row *)
Fixpoint adjust (f : V → V) (d : pydict K V) (k : K) : pydict K V :=
  match d with
  | [] => []
  | (k', v) :: d' =>
      if decide (k' = k) then (k', f v) :: d' else (k', v) :: adjust f d' k
  end.
End pydict.

(** List helpers for [l[i]], [l[lo:hi]] and [np.argmin]. *)

Definition index {A} (l : list A) (i : nat) : result A :=
  match l !! i with
  | Some x => Ok x
  | None => Raise IndexError
  end.

(** [l[lo:hi]] for [0 <= lo]; the batches are never sliced with a negative
    bound, since a non-positive [limit] gives no iteration *)
Definition slice {A} (l : list A) (lo hi : Z) : list A :=
  take (Z.to_nat (hi - lo)) (drop (Z.to_nat lo) l).

(** [np.arange(n)]: the integers from 0 up to [n - 1], none when [n <= 0] *)
Fixpoint arange_from (len : nat) (k : Z) : list Z :=
  match len with
  | O => []
  | S len' => k :: arange_from len' (k + 1)
  end.

Definition arange (n : Z) : list Z := arange_from (Z.to_nat n) 0.

Definition Qltb (x y : Q) : bool := negb (Qle_bool y x).

(** [np.argmin]: the first position of a smallest element. *)
Fixpoint argmin (l : list Q) : nat :=
  match l with
  | [] => 0
  | x :: l' =>
      match l' with
      | [] => 0
      | _ :: _ =>
          let j := argmin l' in
          if Qle_bool x (nth j l' 0%Q) then 0%nat else S j
      end
  end.

(** [i] is the first position of a smallest element [s] of [l]. *)
Definition closest (l : list Q) (i : nat) (s : Q) : Prop :=
  l !! i = Some s ∧
  ∀ j x, l !! j = Some x → (s <= x)%Q ∧ (j < i → (s < x)%Q).

Global Instance Qlt_dec (x y : Q) : Decision (x < y)%Q.
Proof.
  destruct (Qlt_le_dec x y) as [Hlt | Hle]; [left; exact Hlt | right].
  apply Qle_not_lt, Hle.
Defined.

(** ** Data model *)

(** Sky position, [[ra, dec]] in degrees. *)
Definition coord : Type := Q * Q.

(** The code adds 180 to every right ascension before it builds a
    [SkyCoord]. *)
Definition shift180 (c : coord) : coord := ((c.1 + 180)%Q, c.2).

(** Scalar or histogram stored in a feature row. *)
Inductive fval : Type :=
  | FNum (q : Q)
  | FInt (z : Z)
  | FHist (h : list (list Q)).

(** A source dictionary: what the id query returned
    ([radec_geojson.coordinates]) and the feature columns added later.  The
    same object is the source's row in [feature_dict]. *)
Record Source : Type := mkSource {
  radec_geojson : coord;
  columns : gmap string fval
}.

(** A Gaia match as projected by the cone search.  [bp_rp] (and any other
    projected key) may be missing from the record. *)
Record GaiaRec : Type := mkGaia {
  phot_g_mean_mag : option Q;
  bp_rp : option Q;
  coordinates : coord
}.

(** What the run asked of the outside world, in order. *)
Inductive event : Type :=
  | EvGetIds (field ccd quad : Z)
  | EvConeSearch (catalog : string) (n_objects : nat)
  | EvGetLightcurves (n_ids : nat)
  | EvFindPeriods (algorithm : string)
  | EvAlertStats
  | EvExternalXmatch
  | EvWriteMeta
  | EvWriteParquet (n_rows : nat).

Definition trace : Type := list event.

(** A call to a collaborator: it is recorded, then it returns or raises. *)
Definition call {A} (ev : event) (r : result A) : prog trace A :=
  λ tr, (tr ++ [ev], r).

(** ** [drop_close_bright_stars] *)

Section drop_close_bright_stars.
(** [SkyCoord.separation], in arcseconds: [separation a b] is
    [a.separation(b)]. *)
Variable separation : coord → coord → Q.
(** [scope.utils.TychoBVfromGaia] and [scope.utils.exclude_radius] *)
Variable TychoBVfromGaia : Q → Q → Q * Q.
Variable exclude_radius : Q → Q → Q.
(** [kowalski_instance.query(query)['data'][catalog]] for a cone search of
    the given radius around each [(id, [ra + 180, dec])] of the batch *)
Variable kowalski_instance : string → Q → list (Z * coord) → result (gmap string (list GaiaRec)).

Variable catalog : string.
Variable query_radius_arcsec : Q.
Variable xmatch_radius_arcsec : Q.
Variable limit : Z.

(** lines 96-100 *)
Definition n_iterations_of (n_sources : Z) : result Z :=
  if decide (limit = 0)%Z then Raise ZeroDivisionError
  else if decide (n_sources `mod` limit ≠ 0)%Z then Ok (n_sources `div` limit + 1)%Z
  else Ok (n_sources `div` limit)%Z.

(** lines 107-113, 116, 123: the [radec] dictionary of one batch *)
Definition id_slice_of (id_dct : pydict Z Source) (i : Z) : list Z :=
  slice (keys id_dct) (i * limit)%Z (Z.min (Z.of_nat (length id_dct)) ((i + 1) * limit))%Z.

Definition radec_of (id_dct : pydict Z Source) (id_slice : list Z)
    : result (list (Z * coord)) :=
  map_result (λ x, let? val := getitem id_dct x in
                   Ok (x, shift180 (radec_geojson val))) id_slice.

(** lines 105-147: one query per batch, merged with [dict.update] *)
Fixpoint query_batches (id_dct : pydict Z Source) (iterations : list Z)
    (gaia_results_dct : gmap string (list GaiaRec))
    : prog trace (gmap string (list GaiaRec)) :=
  match iterations with
  | [] => pret gaia_results_dct
  | i :: rest =>
      let id_slice := id_slice_of id_dct i in
      let* radec := lift (radec_of id_dct id_slice) in
      let* gaia_results := call (EvConeSearch catalog (length id_slice))
                                (kowalski_instance catalog query_radius_arcsec radec) in
      query_batches id_dct rest (gaia_results ∪ gaia_results_dct)
  end.

(** lines 202-207 *)
Definition excl_radius_of (source : GaiaRec) : Q :=
  match phot_g_mean_mag source, bp_rp source with
  | Some g, Some c => let '(B, V) := TychoBVfromGaia g c in exclude_radius B V
  | _, _ => 0%Q
  end.

(** lines 201-213: [Ok true] when the loop reaches [id_dct_keep.pop(id)] *)
Fixpoint scan_candidates (xmatch_coord : coord) (Coords : list coord)
    (idx : nat) (single_result : list GaiaRec) : result bool :=
  match single_result with
  | [] => Ok false
  | source :: rest =>
      let excl_radius := excl_radius_of source in
      if Qltb 0%Q excl_radius then
        let? c := index Coords idx in
        let sep := separation xmatch_coord c in
        if Qltb sep excl_radius then Ok true
        else scan_candidates xmatch_coord Coords (S idx) rest
      else scan_candidates xmatch_coord Coords (S idx) rest
  end.

(** lines 180-186: the closest match, popped when it is within the
    cross-match radius.  [xmatch_source] starts as the empty dictionary
    ([None]); a popped record has its [coordinates] key, so
    [len(xmatch_source) > 0] holds exactly when something was popped. *)
Definition pop_self_match (coord0 : coord) (single_result : list GaiaRec)
    : result (option GaiaRec * list GaiaRec * list coord) :=
  let coords := coordinates <$> single_result in
  let Coords := shift180 <$> coords in
  let all_separations := (λ c, separation c coord0) <$> Coords in
  let drop_source := argmin all_separations in
  let? closest := index all_separations drop_source in
  if Qltb closest xmatch_radius_arcsec then
    let? xmatch_source := index single_result drop_source in
    Ok (Some xmatch_source, delete drop_source single_result, delete drop_source Coords)
  else Ok (None, single_result, Coords).

(** lines 188-198 *)
Definition reference_coord (coord0 : coord) (xmatch_source : option GaiaRec) : coord :=
  match xmatch_source with
  | Some x => shift180 (coordinates x)
  | None => coord0
  end.

(** lines 161-213 for one id: the candidate list as the loop leaves it and
    whether the id was popped from [id_dct_keep] *)
Definition check_source (val : Source) (single_result : list GaiaRec)
    : result (list GaiaRec * bool) :=
  let '(ra_geojson, dec_geojson) := radec_geojson val in
  if decide (0 < length single_result)%nat then
    let coord0 := ((ra_geojson + 180)%Q, dec_geojson) in
    let? (xmatch_source, single_result, Coords) := pop_self_match coord0 single_result in
    let xmatch_coord := reference_coord coord0 xmatch_source in
    let? dropped := scan_candidates xmatch_coord Coords 0 single_result in
    Ok (single_result, dropped)
  else Ok (single_result, false).

(** lines 152-213 *)
Fixpoint filter_loop (id_dct : pydict Z Source) (ids : list Z)
    (gaia_results_dct : gmap string (list GaiaRec))
    (id_dct_keep : pydict Z Source) : result (pydict Z Source) :=
  match ids with
  | [] => Ok id_dct_keep
  | id :: ids' =>
      let? val := getitem id_dct id in
      let? single_result :=
        from_option Ok (Raise KeyError) (gaia_results_dct !! pretty id) in
      let? (single_result, dropped) := check_source val single_result in
      let gaia_results_dct := <[pretty id := single_result]> gaia_results_dct in
      let? id_dct_keep :=
        (if dropped : bool then pop id_dct_keep id else Ok id_dct_keep) in
      filter_loop id_dct ids' gaia_results_dct id_dct_keep
  end.

(** lines 93-147: everything before the per-id loop *)
Definition query_phase (id_dct : pydict Z Source)
    : prog trace (gmap string (list GaiaRec)) :=
  let n_sources := Z.of_nat (length id_dct) in
  let* n_iterations := lift (n_iterations_of n_sources) in
  query_batches id_dct (seqZ 0%Z n_iterations) ∅.

Definition drop_close_bright_stars (id_dct : pydict Z Source)
    : prog trace (pydict Z Source) :=
  let ids := keys id_dct in
  let id_dct_keep := id_dct in
  let* gaia_results_dct := query_phase id_dct in
  lift (filter_loop id_dct ids gaia_results_dct id_dct_keep).

(** *** Vocabulary for the properties of the filter *)

(** the positions the code hands to [SkyCoord] *)
Definition candidate_coord (x : GaiaRec) : coord := shift180 (coordinates x).
Definition source_coord (val : Source) : coord := shift180 (radec_geojson val).

(** separation of every candidate from the source, in catalog order *)
Definition separations (val : Source) (single_result : list GaiaRec) : list Q :=
  (λ x, separation (candidate_coord x) (source_coord val)) <$> single_result.

(** the test of lines 208-210 on one remaining candidate *)
Definition too_close (xmatch_coord : coord) (source : GaiaRec) : Prop :=
  (0 < excl_radius_of source)%Q ∧
  (separation xmatch_coord (candidate_coord source) < excl_radius_of source)%Q.

Global Instance too_close_dec xmatch_coord source :
  Decision (too_close xmatch_coord source).
Proof. unfold too_close. apply _. Defined.

(** what the per-id loop decides for a source and its candidates *)
Definition contaminated (val : Source) (single_result : list GaiaRec) : bool :=
  match check_source val single_result with
  | Ok (_, dropped) => dropped
  | Raise _ => false
  end.

(** the decision for an item of [id_dct] given the merged query results *)
Definition dropped_by (gaia_results_dct : gmap string (list GaiaRec))
    (kv : Z * Source) : Prop :=
  ∃ single_result, gaia_results_dct !! pretty kv.1 = Some single_result ∧
                   contaminated kv.2 single_result = true.

Global Instance dropped_by_dec res kv : Decision (dropped_by res kv).
Proof.
  unfold dropped_by. destruct (res !! pretty kv.1) as [sr|].
  - destruct (contaminated kv.2 sr) eqn:E.
    + left. eauto.
    + right. intros (sr' & [= <-] & ?). congruence.
  - right. intros (sr' & [=] & ?).
Defined.

Definition survivors (gaia_results_dct : gmap string (list GaiaRec))
    (id_dct : pydict Z Source) : pydict Z Source :=
  filter (λ kv, ¬ dropped_by gaia_results_dct kv) id_dct.

(** a catalog that answers each position on its own: the response to a
    batch has, under [str(id)], the stars around that id's position *)
Definition cone_response (cone : coord → list GaiaRec) (radec : list (Z * coord))
    : gmap string (list GaiaRec) :=
  list_to_map ((λ '(id, pos), (pretty id, cone pos)) <$> radec).
End drop_close_bright_stars.

(** ** Numbers of the frequency grid

    Lines 422-431 compute in binary64: [baseline] is a numpy float, integer
    operands are converted as numpy converts an [int64], and every operation
    rounds to nearest, ties to even.  The primitive floats of the kernel are
    these numbers. *)

(** the conversion of an integer operand *)
Definition f64_of_int (z : Z) : PrimFloat.float :=
  match z with
  | Z0 => PrimFloat.of_uint63 (Uint63.of_Z 0)
  | Zpos _ => PrimFloat.of_uint63 (Uint63.of_Z z)
  | Zneg p => PrimFloat.opp (PrimFloat.of_uint63 (Uint63.of_Z (Zpos p)))
  end.

(** [int(np.ceil(x))], which raises on an infinity or a NaN *)
Definition f64_ceil_int (x : PrimFloat.float) : result Z :=
  match FloatOps.Prim2SF x with
  | SpecFloat.S754_zero _ => Ok 0%Z
  | SpecFloat.S754_finite s m e =>
      let signed := if s then Zneg m else Zpos m in
      match e with
      | Zneg p => Ok (- ((- signed) `div` Z.pow_pos 2 p))%Z
      | _ => Ok (signed * 2 ^ e)%Z
      end
  | SpecFloat.S754_infinity _ => Raise OverflowError
  | SpecFloat.S754_nan => Raise ValueError
  end.

(** The binary64 number nearest to a rational, ties to even: the quotient
    of numerator and denominator rounded once.  The loop keeps [baseline] as
    the exact difference [max(tt) - min(tt)] of two times; the code holds
    that difference rounded, and this is the rounding. *)
Definition f64_of_Q (q : Q) : PrimFloat.float :=
  match Qnum q with
  | Z0 => PrimFloat.zero
  | Zpos n =>
      FloatOps.SF2Prim
        (SpecFloat.SFdiv FloatOps.prec FloatOps.emax
           (SpecFloat.S754_finite false n 0) (SpecFloat.S754_finite false (Qden q) 0))
  | Zneg n =>
      FloatOps.SF2Prim
        (SpecFloat.SFdiv FloatOps.prec FloatOps.emax
           (SpecFloat.S754_finite true n 0) (SpecFloat.S754_finite false (Qden q) 0))
  end.

Record FrequencyGrid : Type := mkGrid {
  fmin : PrimFloat.float;
  fmax : PrimFloat.float;
  df : PrimFloat.float;
  nf : Z;
  freqs : list PrimFloat.float
}.

(** lines 424-431 *)
Definition frequency_grid (baseline : PrimFloat.float) (samples_per_peak : Z)
    (doLongPeriod : bool) : result FrequencyGrid :=
  let '(fmin, fmax) :=
    if doLongPeriod then (PrimFloat.div (f64_of_int 2) baseline, f64_of_int 48)
    else (PrimFloat.div (f64_of_int 2) baseline, f64_of_int 480) in
  let df :=
    PrimFloat.div (f64_of_int 1)
                  (PrimFloat.mul (f64_of_int samples_per_peak) baseline) in
  let? nf := f64_ceil_int (PrimFloat.div (PrimFloat.sub fmax fmin) df) in
  let freqs :=
    (λ k, PrimFloat.add fmin (PrimFloat.mul df (f64_of_int k))) <$> arange nf in
  Ok (mkGrid fmin fmax df nf freqs).


(** ** [generate_features] *)

(** One epoch of a raw light curve and one record of
    [get_lightcurves_via_ids]. *)
Record Epoch : Type := mkEpoch {
  hjd : Q;
  mag : Q;
  magerr : Q;
  catflags : Z
}.

Record LightCurve : Type := mkLC {
  lc_id : Z;
  lc_data : list Epoch;
  lc_filter : Z
}.

(** Times, magnitudes and errors of one source, as three columns. *)
Definition tme_columns : Type := list Q * list Q * list Q.

(** The table handed to the caller: the rows of
    [DataFrame.from_dict(feature_dict, orient='index')] and [attrs]. *)
Record DataFrame : Type := mkDF {
  rows : pydict Z Source;
  attrs : gmap string string
}.

(** Keyword arguments of [generate_features]. *)
Record Args : Type := mkArgs {
  source_catalog : string;
  alerts_catalog : string;
  gaia_catalog : string;
  bright_star_query_radius_arcsec : Q;
  xmatch_radius_arcsec : Q;
  limit : Z;
  period_algorithms : list string;
  period_batch_size : Z;
  doCPU : bool;
  doGPU : bool;
  samples_per_peak : Z;
  doLongPeriod : bool;
  doRemoveTerrestrial : bool;
  doParallel : bool;
  Ncore : Z;
  field : Z;
  ccd : Z;
  quad : Z;
  min_n_lc_points : Z;
  min_cadence_minutes : Q;
  dirname : string;
  filename : string;
  doCesium : bool;
  doNotSave : bool;
  stop_early : bool;
  doQuadrantFile : bool;
  quadrant_file : string;
  quadrant_index : Z
}.

(** The collaborators of the module. *)
Record World : Type := mkWorld {
  (** [astropy] and [scope.utils] *)
  separation : coord → coord → Q;
  TychoBVfromGaia : Q → Q → Q * Q;
  exclude_radius : Q → Q → Q;
  removeHighCadence : list Q → list Q → list Q → Q → result tme_columns;
  write_parquet : DataFrame → string → result unit;
  (** Kowalski instances: [gloria] answers cone searches, [melman] serves
      ids and light curves *)
  gloria : string → Q → list (Z * coord) → result (gmap string (list GaiaRec));
  (** second component of [get_ids_loop(get_field_ids, ...)] *)
  get_ids_loop : string → Z → Z → Z → Z → bool → result (list (pydict Z Source));
  get_lightcurves_via_ids : list Z → string → Z → result (list LightCurve);
  (** [tools.featureGeneration] *)
  calc_basic_stats : list Q → list Q → list Q → result (list fval);
  calc_fourier_stats : list Q → list Q → list Q → Q → result (list fval);
  compute_dmdt : list Q → list Q → result (list (list Q));
  find_periods : string → list tme_columns → list PrimFloat.float → Args
                 → option (list (Q * Q)) → result (list Q * list Q * list Q);
  get_ztf_alert_stats : pydict Z Source → Q → Z → result (pydict Z (gmap string fval));
  xmatch : pydict Z Source → Q → Z → result (pydict Z Source);
  (** [cesium]: [time_series.TimeSeries] and [featurize_single_ts] with the
      configured feature list *)
  cesium_TimeSeries : list Q → list Q → list Q → result tme_columns;
  featurize_single_ts : tme_columns → result (gmap string fval);
  (** the slurm quadrant file, the metadata file, the version and the two
      readings of the clock *)
  read_quadrant_file : string → string → Z → result (Z * Z * Z);
  write_meta : string → Z * Z * Z → nat → result unit;
  code_version : string;
  start_dt : string;
  end_dt : string
}.

(** [period_dict], [significance_dict] and [pdot_dict] *)
Record PeriodDicts : Type := mkPeriods {
  period_dict : gmap string (list Q);
  significance_dict : gmap string (list Q);
  pdot_dict : gmap string (list Q)
}.

(** Locals of the light-curve loop (lines 304-310). *)
Record LoopState : Type := mkLoop {
  feature_dict : pydict Z Source;
  baseline : Q;
  keep_id_list : list Z;
  tme_collection : list tme_columns
}.

Definition with_feature_dict (d : pydict Z Source) (st : LoopState) : LoopState :=
  mkLoop d (baseline st) (keep_id_list st) (tme_collection st).

(** [max(l)] and [min(l)] of the builtins; both raise on an empty
    sequence. *)
Definition Qmax_list (l : list Q) : result Q :=
  match l with
  | [] => Raise ValueError
  | x :: l' => Ok (foldl (λ acc y, if Qltb acc y then y else acc) x l')
  end.

Definition Qmin_list (l : list Q) : result Q :=
  match l with
  | [] => Raise ValueError
  | x :: l' => Ok (foldl (λ acc y, if Qltb y acc then y else acc) x l')
  end.

(** [a, b, ... = xs] with [n] targets *)
Definition unpack {A} (n : nat) (xs : list A) : result (list A) :=
  if decide (length xs = n) then Ok xs else Raise ValueError.

(** lines 323-324: [t, m, e = np.array(tme).transpose()].  Every row of
    [tme] has three scalars, so the array is [N x 3] and its transpose has
    three rows, unless [tme] is empty: then the array has shape [(0,)] and
    the unpacking finds no value. *)
Definition unpack_columns (tme : list (Q * Q * Q)) : result tme_columns :=
  match tme with
  | [] => Raise ValueError
  | _ :: _ => Ok ((λ r, r.1.1) <$> tme, (λ r, r.1.2) <$> tme, (λ r, r.2) <$> tme)
  end.

(** [d[_id][name] = v] *)
Definition set_column (d : pydict Z Source) (_id : Z) (name : string) (v : fval)
    : result (pydict Z Source) :=
  match dget d _id with
  | Some _ =>
      Ok (adjust (λ row, mkSource (radec_geojson row) (<[name := v]> (columns row))) d _id)
  | None => Raise KeyError
  end.

(** a run of such assignments, in order *)
Fixpoint set_columns (d : pydict Z Source) (_id : Z) (kvs : list (string * fval))
    : result (pydict Z Source) :=
  match kvs with
  | [] => Ok d
  | (name, v) :: kvs' => let? d' := set_column d _id name v in set_columns d' _id kvs'
  end.

(** [d[_id].update(feats)] *)
Definition update_columns (d : pydict Z Source) (_id : Z) (feats : gmap string fval)
    : result (pydict Z Source) :=
  match dget d _id with
  | Some _ =>
      Ok (adjust (λ row, mkSource (radec_geojson row) (feats ∪ columns row)) d _id)
  | None => Raise KeyError
  end.

Definition basic_stat_names : list string :=
  ["n"; "median"; "wmean"; "chi2red"; "roms"; "wstd"; "norm_peak_to_peak_amp";
   "norm_excess_var"; "median_abs_dev"; "iqr"; "i60r"; "i70r"; "i80r"; "i90r";
   "skew"; "smallkurt"; "inv_vonneumannratio"; "welch_i"; "stetson_j";
   "stetson_k"; "ad"; "sw"]%string.

Definition fourier_stat_names : list string :=
  ["f1_power"; "f1_BIC"; "f1_a"; "f1_b"; "f1_amp"; "f1_phi0"; "f1_relamp1";
   "f1_relphi1"; "f1_relamp2"; "f1_relphi2"; "f1_relamp3"; "f1_relphi3";
   "f1_relamp4"; "f1_relphi4"]%string.

(** lines 435-443 *)
Definition terrestrial_freqs : list (Q * Q) :=
  [(3 # 100, 4 # 100); (395 # 100, 405 # 100); (295 # 100, 305 # 100);
   (195 # 100, 205 # 100); (95 # 100, 105 # 100); (48 # 100, 52 # 100);
   (32 # 100, 34 # 100)]%Q.

Section generate_features.
Variable w : World.
Variable a : Args.

(** *** The light-curve loop, lines 311-420 *)

Section light_curve.
(** [feature_gen_source_list], and the region after lines 258-267 *)
Variable feature_gen_source_list : pydict Z Source.
Variables field' ccd' quad' : Z.

Definition on_feature_dict (f : pydict Z Source → result (pydict Z Source))
    : prog LoopState unit := λ st,
  match f (feature_dict st) with
  | Ok d => (with_feature_dict d st, Ok tt)
  | Raise e => (st, Raise e)
  end.

(** [feature_dict.pop(_id)] *)
Definition pop_row (_id : Z) : prog LoopState unit :=
  on_feature_dict (λ d, pop d _id).

(** lines 333-417: a source with enough points *)
Definition accept_source (_id flt : Z) (tt' mm ee : list Q) : prog LoopState unit :=
  modify (λ st, mkLoop (feature_dict st) (baseline st)
                       (keep_id_list st ++ [_id]) (tme_collection st)) ;;
  let* cesium_TS :=
    lift (if doCesium a
          then let? ts := cesium_TimeSeries w tt' mm ee in Ok (Some ts)
          else Ok None) in
  let* hi := lift (Qmax_list tt') in
  let* lo := lift (Qmin_list tt') in
  let new_baseline := (hi - lo)%Q in
  modify (λ st, mkLoop (feature_dict st)
                       (if Qltb (baseline st) new_baseline then new_baseline
                        else baseline st)
                       (keep_id_list st) (tme_collection st ++ [(tt', mm, ee)])) ;;
  let* src := lift (getitem feature_gen_source_list _id) in
  on_feature_dict (λ d, set_column d _id "ra" (FNum ((radec_geojson src).1 + 180)%Q)) ;;
  let* src := lift (getitem feature_gen_source_list _id) in
  on_feature_dict (λ d, set_columns d _id
    [("dec", FNum (radec_geojson src).2); ("field", FInt field');
     ("ccd", FInt ccd'); ("quad", FInt quad'); ("filter", FInt flt)]%string) ;;
  let* stats := lift (let? r := calc_basic_stats w tt' mm ee in unpack 22 r) in
  on_feature_dict (λ d, set_columns d _id (zip basic_stat_names stats)) ;;
  match cesium_TS with
  | Some ts =>
      let* cesium_features_dict := lift (featurize_single_ts w ts) in
      on_feature_dict (λ d, update_columns d _id cesium_features_dict)
  | None => pret ()
  end.

(** lines 323-417: the body of the [try] *)
Definition try_body (_id flt : Z) (tme : list (Q * Q * Q)) : prog LoopState unit :=
  let* (t, m, e) := lift (unpack_columns tme) in
  let* (tt', mm, ee) := lift (removeHighCadence w t m e (min_cadence_minutes a)) in
  if decide (Z.of_nat (length tt') < min_n_lc_points a)%Z then pop_row _id
  else accept_source _id flt tt' mm ee.

(** lines 318 and 321 *)
Definition lc_unflagged_of (lc : LightCurve) : list Epoch :=
  filter (λ x, catflags x = 0%Z) (lc_data lc).

Definition tme_of (lc : LightCurve) : list (Q * Q * Q) :=
  (λ x, (hjd x, mag x, magerr x)) <$> lc_unflagged_of lc.

(** lines 317-420: one iteration *)
Definition process_lc (lc : LightCurve) : prog LoopState unit :=
  let _id := lc_id lc in
  let flt := lc_filter lc in
  let tme := tme_of lc in
  try_except (try_body _id flt tme) ValueError (pop_row _id).

Definition lc_loop (lcs : list LightCurve) : prog LoopState unit :=
  for_each lcs process_lc.
End light_curve.

(** *** After the loop, lines 422-578

    [baseline] enters the grid as the binary64 number the code holds, the
    rounded difference of line 338. *)

Definition lookup_key {V} (m : gmap string V) (k : string) : result V :=
  from_option Ok (Raise KeyError) (m !! k).

(** lines 454-476 *)
Fixpoint run_period_algorithms (algorithms : list string)
    (tme_collection : list tme_columns) (freqs : list PrimFloat.float)
    (freqs_to_remove : option (list (Q * Q))) (pd : PeriodDicts)
    : prog trace PeriodDicts :=
  match algorithms with
  | [] => pret pd
  | algorithm :: rest =>
      let* (periods, significances, pdots) :=
        call (EvFindPeriods algorithm)
             (find_periods w algorithm tme_collection freqs a freqs_to_remove) in
      run_period_algorithms rest tme_collection freqs freqs_to_remove
        (mkPeriods (<[algorithm := periods]> (period_dict pd))
                   (<[algorithm := significances]> (significance_dict pd))
                   (<[algorithm := pdots]> (pdot_dict pd)))
  end.

(** lines 448-483: the algorithm list used from here on and the three
    dictionaries *)
Definition period_stage (tme_collection : list tme_columns)
    (freqs : list PrimFloat.float)
    (freqs_to_remove : option (list (Q * Q)))
    : prog trace (list string * PeriodDicts) :=
  if doCPU a || doGPU a then
    if doCPU a && doGPU a then lift (Raise KeyError)
    else
      let* pd := run_period_algorithms (period_algorithms a) tme_collection freqs
                   freqs_to_remove (mkPeriods ∅ ∅ ∅) in
      pret (period_algorithms a, pd)
  else
    let ones := replicate (length tme_collection) 1%Q in
    pret (["Ones"%string],
          mkPeriods {["Ones"%string := ones]} {["Ones"%string := ones]}
                    {["Ones"%string := ones]}).

(** lines 496-536 *)
Definition fourier_row (algorithm : string) (pd : PeriodDicts)
    (tme_collection : list tme_columns) (d : pydict Z Source) (idx : nat) (_id : Z)
    : result (pydict Z Source) :=
  let? periods := lookup_key (period_dict pd) algorithm in
  let? period := index periods idx in
  let? significances := lookup_key (significance_dict pd) algorithm in
  let? significance := index significances idx in
  let? pdots := lookup_key (pdot_dict pd) algorithm in
  let? pdot := index pdots idx in
  let? (tt', mm, ee) := index tme_collection idx in
  let? stats := (let? r := calc_fourier_stats w tt' mm ee period in unpack 14 r) in
  let? d := set_columns d _id
              (zip ((λ name, name +:+ "_" +:+ algorithm) <$> fourier_stat_names) stats) in
  set_columns d _id
    [("period_" +:+ algorithm, FNum period);
     ("significance_" +:+ algorithm, FNum significance);
     ("pdot_" +:+ algorithm, FNum pdot)].

(** lines 486-536 *)
Fixpoint fourier_stage (algorithms : list string) (pd : PeriodDicts)
    (keep_id_list : list Z) (tme_collection : list tme_columns)
    (d : pydict Z Source) : result (pydict Z Source) :=
  match algorithms with
  | [] => Ok d
  | algorithm :: rest =>
      let? d := for_enumerate (fourier_row algorithm pd tme_collection) 0
                  keep_id_list d in
      fourier_stage rest pd keep_id_list tme_collection d
  end.

(** lines 540-549 *)
Definition dmdt_row (tme_collection : list tme_columns) (d : pydict Z Source)
    (idx : nat) (_id : Z) : result (pydict Z Source) :=
  let? (tt', mm, _) := index tme_collection idx in
  let? dmdt := compute_dmdt w tt' mm in
  set_column d _id "dmdt" (FHist dmdt).

(** lines 558-562 *)
Fixpoint alert_stage (alert_stats_dct : pydict Z (gmap string fval))
    (ids : list Z) (d : pydict Z Source) : result (pydict Z Source) :=
  match ids with
  | [] => Ok d
  | _id :: rest =>
      let? row := getitem alert_stats_dct _id in
      let? n := lookup_key row "n_ztf_alerts" in
      let? d := set_column d _id "n_ztf_alerts" n in
      let? row := getitem alert_stats_dct _id in
      let? braai := lookup_key row "mean_ztf_alert_braai" in
      let? d := set_column d _id "mean_ztf_alert_braai" braai in
      alert_stage alert_stats_dct rest d
  end.

(** lines 423-578: the branch taken when [baseline > 0]; it returns the
    rows of the data frame.  The cast of the [_id] columns to [Int64]
    changes no row and is left out. *)
Definition features_stage (st : LoopState) : prog trace (pydict Z Source) :=
  let* grid := lift (frequency_grid (f64_of_Q (baseline st)) (samples_per_peak a)
                                    (doLongPeriod a)) in
  let freqs_to_remove :=
    if doRemoveTerrestrial a then Some terrestrial_freqs else None in
  let* (algorithms, pd) :=
    period_stage (tme_collection st) (freqs grid) freqs_to_remove in
  let* feature_dict :=
    lift (fourier_stage algorithms pd (keep_id_list st) (tme_collection st)
                        (feature_dict st)) in
  let* feature_dict :=
    lift (for_enumerate (dmdt_row (tme_collection st)) 0 (keep_id_list st)
                        feature_dict) in
  let* alert_stats_dct :=
    call EvAlertStats
         (get_ztf_alert_stats w feature_dict (xmatch_radius_arcsec a) (limit a)) in
  let* feature_dict :=
    lift (alert_stage alert_stats_dct (keys feature_dict) feature_dict) in
  call EvExternalXmatch (xmatch w feature_dict (xmatch_radius_arcsec a) (limit a)).

(** lines 590-595 *)
Definition metadata : gmap string string :=
  list_to_map
    [("scope_code_version", code_version w);
     ("feature_generation_start_dateTime_utc", start_dt w);
     ("feature_generation_end_dateTime_utc", end_dt w);
     ("ZTF_source_catalog", source_catalog a);
     ("ZTF_alerts_catalog", alerts_catalog a);
     ("Gaia_catalog", gaia_catalog a)]%string.

(** lines 598-637 *)
Definition save (region : Z * Z * Z) (feature_df : DataFrame) : prog trace unit :=
  if doNotSave a then pret ()
  else
    let '(field, ccd, quad) := region in
    let filename :=
      filename a +:+ "_field_" +:+ pretty field +:+ "_ccd_" +:+ pretty ccd
        +:+ "_quad_" +:+ pretty quad +:+ ".parquet" in
    let source_count := length (rows feature_df) in
    call EvWriteMeta (write_meta w (dirname a) region source_count) ;;
    call (EvWriteParquet source_count)
         (write_parquet w feature_df
            (dirname a +:+ "/field_" +:+ pretty field +:+ "/" +:+ filename)).

(** lines 258-294 and 297-302: region, ids, bright-star filter, light
    curves *)
Definition region_of : result (Z * Z * Z) :=
  if doQuadrantFile a
  then read_quadrant_file w (dirname a) (quadrant_file a) (quadrant_index a)
  else Ok (field a, ccd a, quad a).

Definition fetch_stage (region : Z * Z * Z)
    : prog trace (pydict Z Source * list LightCurve) :=
  let '(field, ccd, quad) := region in
  let* lst := call (EvGetIds field ccd quad)
                   (get_ids_loop w (source_catalog a) (limit a) field ccd quad
                      (stop_early a)) in
  let* lst0 := lift (index lst 0) in
  let* feature_gen_source_list :=
    drop_close_bright_stars (separation w) (TychoBVfromGaia w) (exclude_radius w)
      (gloria w) (gaia_catalog a) (bright_star_query_radius_arcsec a)
      (xmatch_radius_arcsec a) (limit a) lst0 in
  let* lcs := call (EvGetLightcurves (length feature_gen_source_list))
                   (get_lightcurves_via_ids w (keys feature_gen_source_list)
                      (source_catalog a) (limit a)) in
  pret (feature_gen_source_list, lcs).

(** lines 304-310 *)
Definition initial_state (feature_gen_source_list : pydict Z Source) : LoopState :=
  mkLoop feature_gen_source_list 0%Q [] [].

(** lines 422-639 *)
Definition finish (region : Z * Z * Z) (st : LoopState) : prog trace DataFrame :=
  let* feature_df_rows :=
    (if Qltb 0%Q (baseline st) then features_stage st else pret []) in
  let feature_df := mkDF feature_df_rows metadata in
  save region feature_df ;;
  pret feature_df.

Definition generate_features : prog trace DataFrame :=
  let* region := lift region_of in
  let* (feature_gen_source_list, lcs) := fetch_stage region in
  let* st := run_local (lc_loop feature_gen_source_list region.1.1 region.1.2 region.2 lcs)
                       (initial_state feature_gen_source_list) in
  finish region st.
End generate_features.

(** *** The records of the light-curve service, lines 311-420

    A record of [get_lightcurves_via_ids] holds its epochs as dictionaries.
    The subscripts of lines 318 and 321 raise [KeyError] on a missing field,
    and they stand before the [try]. *)
Record RawLightCurve : Type := mkRaw {
  raw_id : Z;
  raw_data : list (gmap string Q);
  raw_filter : Z
}.

(** line 318: [[x for x in lc['data'] if x['catflags'] == 0]] *)
Fixpoint raw_unflagged (data : list (gmap string Q))
    : result (list (gmap string Q)) :=
  match data with
  | [] => Ok []
  | x :: rest =>
      let? flags := lookup_key x "catflags" in
      let? rest' := raw_unflagged rest in
      Ok (if Qeq_bool flags 0 then x :: rest' else rest')
  end.

(** line 321: [[[x['hjd'], x['mag'], x['magerr']] for x in lc_unflagged]] *)
Definition raw_tme (lc_unflagged : list (gmap string Q))
    : result (list (Q * Q * Q)) :=
  map_result (λ x, let? t := lookup_key x "hjd" in
                   let? m := lookup_key x "mag" in
                   let? e := lookup_key x "magerr" in
                   Ok (t, m, e)) lc_unflagged.

(** lines 317-420: one iteration on a record *)
Definition process_record (w : World) (a : Args)
    (feature_gen_source_list : pydict Z Source) (field' ccd' quad' : Z)
    (lc : RawLightCurve) : prog LoopState unit :=
  let _id := raw_id lc in
  let* lc_unflagged := lift (raw_unflagged (raw_data lc)) in
  let flt := raw_filter lc in
  let* tme := lift (raw_tme lc_unflagged) in
  try_except (try_body w a feature_gen_source_list field' ccd' quad' _id flt tme)
             ValueError (pop_row _id).

Definition record_loop (w : World) (a : Args)
    (feature_gen_source_list : pydict Z Source) (field' ccd' quad' : Z)
    (lcs : list RawLightCurve) : prog LoopState unit :=
  for_each lcs (process_record w a feature_gen_source_list field' ccd' quad').

(** the dictionary of an epoch that carries its four fields, and the
    record of a light curve made of such epochs *)
Definition epoch_dict (x : Epoch) : gmap string Q :=
  {[ "hjd"%string := hjd x; "mag"%string := mag x; "magerr"%string := magerr x;
     "catflags"%string := inject_Z (catflags x) ]}.

Definition record_of (lc : LightCurve) : RawLightCurve :=
  mkRaw (lc_id lc) (epoch_dict <$> lc_data lc) (lc_filter lc).

(** ** Vocabulary for the properties of the light-curve loop *)

(** the series of [lc] is empty, or does not unpack into three columns *)
Definition malformed (lc : LightCurve) : Prop :=
  lc_data lc = [] ∨ lc_unflagged_of lc = [] ∨
  unpack_columns (tme_of lc) = Raise ValueError.

(** the series of [lc] unpacks, and cadence collapsing leaves fewer than
    [min_n_lc_points] points *)
Definition too_short (w : World) (a : Args) (lc : LightCurve) : Prop :=
  ∃ t m e tt' mm ee,
    unpack_columns (tme_of lc) = Ok (t, m, e) ∧
    removeHighCadence w t m e (min_cadence_minutes a) = Ok (tt', mm, ee) ∧
    (Z.of_nat (length tt') < min_n_lc_points a)%Z.

(** the state the loop leaves when it rejects [lc]: the row is gone and
    nothing else has changed *)
Definition reject (lc : LightCurve) (st : LoopState) : LoopState :=
  with_feature_dict (remove (feature_dict st) (lc_id lc)) st.

(** no epoch is left once the flagged ones are taken out *)
Definition empty_series (lc : RawLightCurve) : Prop :=
  raw_unflagged (raw_data lc) = Ok [].

(** an epoch lacks [catflags], or an unflagged epoch lacks one of [hjd],
    [mag] and [magerr] *)
Definition unparsable (lc : RawLightCurve) : Prop :=
  (∃ x, x ∈ raw_data lc ∧ x !! "catflags"%string = None) ∨
  (∃ x flags, x ∈ raw_data lc ∧ x !! "catflags"%string = Some flags ∧
     Qeq_bool flags 0 = true ∧
     (x !! "hjd"%string = None ∨ x !! "mag"%string = None ∨
      x !! "magerr"%string = None)).

(** what a piece of the loop body working on source [_id] may do to the
    locals: rows are only ever removed, and only [_id] joins
    [keep_id_list] *)
Definition touches_only (_id : Z) (st st' : LoopState) : Prop :=
  keys (feature_dict st') ⊆ keys (feature_dict st) ∧
  (pydict_wf (feature_dict st) → pydict_wf (feature_dict st')) ∧
  (∀ x, x ∈ keep_id_list st' → x ∈ keep_id_list st ∨ x = _id).

Definition frames {A} (_id : Z) (c : prog LoopState A) : Prop :=
  ∀ st st' r, c st = (st', r) → touches_only _id st st'.

(** the dictionary keeps its rows, whatever is written into them *)
Definition keeps_rows (f : pydict Z Source → result (pydict Z Source)) : Prop :=
  ∀ d d', f d = Ok d' → keys d' = keys d.

(** ** Vocabulary for the locals of the loop *)

(** a piece of the loop body relates the locals before and after by [R] *)
Definition respects {A} (R : LoopState → LoopState → Prop)
    (c : prog LoopState A) : Prop :=
  ∀ st st' r, c st = (st', r) → R st st'.

(** only [feature_dict] may differ *)
Definition same_lists (st st' : LoopState) : Prop :=
  baseline st' = baseline st ∧ keep_id_list st' = keep_id_list st ∧
  tme_collection st' = tme_collection st.

(** what one iteration does to [baseline], [keep_id_list] and
    [tme_collection]: nothing; or the id is appended and an exception
    follows before line 343; or the id and the series are appended and the
    baseline is raised to the span of the series if that is larger *)
Definition iteration_locals (_id : Z) (st st' : LoopState) : Prop :=
  same_lists st st' ∨
  (keep_id_list st' = keep_id_list st ++ [_id] ∧
   tme_collection st' = tme_collection st ∧ baseline st' = baseline st) ∨
  (∃ series span,
     keep_id_list st' = keep_id_list st ++ [_id] ∧
     tme_collection st' = tme_collection st ++ [series] ∧
     baseline st' = if Qltb (baseline st) span then span else baseline st).

(** the row after the assignments [kvs], made in order *)
Definition write_columns (kvs : list (string * fval)) (row : Source) : Source :=
  foldl (λ r kv, mkSource (radec_geojson r) (<[kv.1 := kv.2]> (columns r))) row kvs.

(** lines 346-417 of [accept_source]: the assignments into the row *)
Definition record_columns (w : World) (a : Args)
    (feature_gen_source_list : pydict Z Source) (field' ccd' quad' : Z)
    (_id flt : Z) (tt' mm ee : list Q) (cesium_TS : option tme_columns)
    : prog LoopState unit :=
  let* src := lift (getitem feature_gen_source_list _id) in
  on_feature_dict (λ d, set_column d _id "ra" (FNum ((radec_geojson src).1 + 180)%Q)) ;;
  let* src := lift (getitem feature_gen_source_list _id) in
  on_feature_dict (λ d, set_columns d _id
    [("dec", FNum (radec_geojson src).2); ("field", FInt field');
     ("ccd", FInt ccd'); ("quad", FInt quad'); ("filter", FInt flt)]%string) ;;
  let* stats := lift (let? r := calc_basic_stats w tt' mm ee in unpack 22 r) in
  on_feature_dict (λ d, set_columns d _id (zip basic_stat_names stats)) ;;
  match cesium_TS with
  | Some ts =>
      let* cesium_features_dict := lift (featurize_single_ts w ts) in
      on_feature_dict (λ d, update_columns d _id cesium_features_dict)
  | None => pret ()
  end.


(** the series of [lc] unpacks, and cadence collapsing leaves [series] with
    at least [min_n_lc_points] points *)
Definition passes (w : World) (a : Args) (lc : LightCurve) (series : tme_columns)
    : Prop :=
  ∃ t m e,
    unpack_columns (tme_of lc) = Ok (t, m, e) ∧
    removeHighCadence w t m e (min_cadence_minutes a) = Ok series ∧
    (min_n_lc_points a ≤ Z.of_nat (length series.1.1))%Z.

(** what a run of the loop over light curves with the ids [ids] does to
    [baseline], [keep_id_list] and [tme_collection] *)
Definition loop_locals (ids : list Z) (st st' : LoopState) : Prop :=
  ∃ kept series,
    keep_id_list st' = keep_id_list st ++ kept ∧
    tme_collection st' = tme_collection st ++ series ∧
    kept `sublist_of` ids ∧
    (length series ≤ length kept)%nat ∧
    (baseline st <= baseline st')%Q ∧
    ((baseline st < baseline st')%Q → series ≠ []).

(** row [_id] of [d] has the value [v] in column [name] *)
Definition has_column (d : pydict Z Source) (_id : Z) (name : string) (v : fval)
    : Prop :=
  ∃ row, dget d _id = Some row ∧ columns row !! name = Some v.

(** the rows of all sources but [_id] are as they were *)
Definition other_rows (_id : Z) (st st' : LoopState) : Prop :=
  ∀ _id', _id' ≠ _id → dget (feature_dict st') _id' = dget (feature_dict st) _id'.

(** ** Vocabulary for traces *)

(** a program only appends to the trace, and only events that satisfy [P] *)
Definition emits {A} (P : event → Prop) (c : prog trace A) : Prop :=
  ∀ tr tr' r, c tr = (tr', r) → ∃ evs, tr' = tr ++ evs ∧ Forall P evs.

(** the two writes of lines 598-633 *)
Definition is_write (ev : event) : Prop :=
  ev = EvWriteMeta ∨ ∃ n, ev = EvWriteParquet n.

(** entries of a merged result dictionary are answers of the catalog
    [cone] for sources of [id_dct] *)
Definition answers_for (cone : coord → list GaiaRec) (id_dct : pydict Z Source)
    (res : gmap string (list GaiaRec)) : Prop :=
  ∀ k v, res !! k = Some v →
    ∃ id val, k = pretty id ∧ dget id_dct id = Some val ∧
              v = cone (source_coord val).

(** ** A small sky *)

Module Demo.
(** Stand-ins for the collaborators.  All positions below share their
    right ascension; on a meridian the great-circle separation is the
    difference of the declinations, here in arcseconds. *)
Definition separation (p q : coord) : Q :=
  (3600 * (Qabs (p.1 - q.1) + Qabs (p.2 - q.2)))%Q.

(** a colour term added to [G], and a radius of ten arcseconds per
    magnitude brighter than 13 *)
Definition TychoBVfromGaia (G bp_rp : Q) : Q * Q := ((G + bp_rp)%Q, G).
Definition exclude_radius (B V : Q) : Q :=
  if Qltb B 13 then (10 * (13 - B))%Q else 0%Q.

(** a source at [(10, 20)] and stars on its meridian *)
Definition src : Source := mkSource (10, 20)%Q ∅.
Definition star_on_source : GaiaRec := mkGaia (Some 12%Q) None (10, 20)%Q.
Definition bright_star_on_source : GaiaRec :=
  mkGaia (Some 8%Q) (Some 1%Q) (10, 20)%Q.
(** half an arcsecond north of the source *)
Definition self_detection : GaiaRec :=
  mkGaia (Some 12%Q) (Some 1%Q) (10, 20 + (1 # 7200))%Q.
(** twenty arcseconds north of the source, magnitude 8 *)
Definition bright_neighbour : GaiaRec :=
  mkGaia (Some 8%Q) (Some 1%Q) (10, 20 + (20 # 3600))%Q.

Definition check (single_result : list GaiaRec) : result (list GaiaRec * bool) :=
  check_source separation TychoBVfromGaia exclude_radius 2%Q src single_result.

(** the catalog around each position: a bright neighbour for positions
    north of declination 30, the source's own detection elsewhere *)
Definition cone (pos : coord) : list GaiaRec :=
  if Qltb 30 pos.2
  then [mkGaia (Some 8%Q) (Some 1%Q) ((pos.1 - 180)%Q, (pos.2 + (20 # 3600))%Q)]
  else [mkGaia (Some 12%Q) (Some 1%Q) ((pos.1 - 180)%Q, pos.2)].

Definition gloria (catalog : string) (radius : Q) (radec : list (Z * coord))
    : result (gmap string (list GaiaRec)) :=
  Ok (cone_response cone radec).

(** a region of the sky without bright stars *)
Definition empty_sky (catalog : string) (radius : Q) (radec : list (Z * coord))
    : result (gmap string (list GaiaRec)) :=
  Ok (cone_response (λ _, []) radec).

(** a service that loses every id *)
Definition forgetful (catalog : string) (radius : Q) (radec : list (Z * coord))
    : result (gmap string (list GaiaRec)) :=
  Ok ∅.

Definition id_dct : pydict Z Source :=
  [(1%Z, src); (2%Z, mkSource (10, 40)%Q ∅); (3%Z, mkSource (11, 20)%Q ∅)].

(** what [empty_sky] answers for the three sources *)
Definition empty_answers : gmap string (list GaiaRec) :=
  list_to_map [("1", []); ("2", []); ("3", [])]%string.

Definition drop (kowalski_instance : string → Q → list (Z * coord)
                                     → result (gmap string (list GaiaRec)))
    (limit : Z) (d : pydict Z Source) : prog trace (pydict Z Source) :=
  drop_close_bright_stars separation TychoBVfromGaia exclude_radius
    kowalski_instance "gaia" 300%Q 2%Q limit d.
End Demo.

(** ** A small run of the pipeline *)

Module DemoRun.
(** light curves: times 0, 5 and 10 for source 1; a single epoch, and a
    series whose only epoch is flagged, for source 3 *)
Definition epoch (t : Q) (flags : Z) : Epoch := mkEpoch t 15%Q (1 # 10)%Q flags.
Definition lc_good : LightCurve := mkLC 1 [epoch 0 0; epoch 5 0; epoch 10 0] 2.
Definition lc_short : LightCurve := mkLC 3 [epoch 0 0] 2.
Definition lc_flagged : LightCurve := mkLC 3 [epoch 0 32768] 2.

Definition alert_row : gmap string fval :=
  <["n_ztf_alerts"%string := FInt 0]>
    {["mean_ztf_alert_braai"%string := FNum 0%Q]}.

(** collaborators that always answer; the id query returns the three
    sources of the small sky and the light-curve service returns [lcs] *)
Definition world (lcs : list LightCurve) : World :=
  mkWorld
    Demo.separation Demo.TychoBVfromGaia Demo.exclude_radius
    (λ t m e _, Ok (t, m, e))
    (λ _ _, Ok tt)
    Demo.gloria
    (λ _ _ _ _ _ _, Ok [Demo.id_dct])
    (λ _ _ _, Ok lcs)
    (λ _ _ _, Ok (replicate 22 (FNum 0%Q)))
    (λ _ _ _ _, Ok (replicate 14 (FNum 0%Q)))
    (λ _ _, Ok [])
    (λ _ tmes _ _ _, Ok (replicate (length tmes) 1%Q,
                         replicate (length tmes) 1%Q,
                         replicate (length tmes) 0%Q))
    (λ d _ _, Ok ((λ kv, (kv.1, alert_row)) <$> d))
    (λ d _ _, Ok d)
    (λ t m e, Ok (t, m, e))
    (λ _, Ok ∅)
    (λ _ _ _, Ok (296, 1, 1)%Z)
    (λ _ _ _, Ok tt)
    "0.1" "2023-01-01 00:00:00" "2023-01-01 00:00:01".

(** defaults of the command line, with [min_n_lc_points = 2] and batches of
    two ids *)
Definition args (doCPU doGPU : bool) : Args :=
  mkArgs "ZTF_sources" "ZTF_alerts" "gaia" 300%Q 2%Q 2%Z ["LS"%string] 1%Z
         doCPU doGPU 10%Z false false false 8%Z 296%Z 1%Z 1%Z 2%Z 30%Q
         "generated_features" "gen_features" false false false false
         "slurm.dat" 0%Z.

Definition region : Z * Z * Z := (296, 1, 1)%Z.

(** the two sources the bright-star filter keeps *)
Definition fgsl : pydict Z Source :=
  [(1%Z, Demo.src); (3%Z, mkSource (11, 20)%Q ∅)].

(** the trace up to the end of the light-curve retrieval *)
Definition fetched : trace :=
  [EvGetIds 296 1 1; EvConeSearch "gaia" 2; EvConeSearch "gaia" 1;
   EvGetLightcurves 2].

Definition loop_end (lcs : list LightCurve) (a : Args) : LoopState :=
  (lc_loop (world lcs) a fgsl 296 1 1 lcs (initial_state fgsl)).1.

(** the trace and the table of the run *)
Definition finished (lcs : list LightCurve) (a : Args) : trace :=
  (finish (world lcs) a region (loop_end lcs a) fetched).1.

Definition table (lcs : list LightCurve) (a : Args) : DataFrame :=
  match (finish (world lcs) a region (loop_end lcs a) fetched).2 with
  | Ok df => df
  | Raise _ => mkDF [] ∅
  end.
End DemoRun.

(** ** Variations of the small run *)

Module DemoEdge.
(** the world of the small run with another answer of the id query and
    another outcome of [calc_basic_stats] *)
Definition world (ids : list (pydict Z Source)) (stats : result (list fval))
    (lcs : list LightCurve) : World :=
  let w := DemoRun.world lcs in
  mkWorld (separation w) (TychoBVfromGaia w) (exclude_radius w)
    (removeHighCadence w) (write_parquet w) (gloria w)
    (λ _ _ _ _ _ _, Ok ids) (get_lightcurves_via_ids w)
    (λ _ _ _, stats) (calc_fourier_stats w) (compute_dmdt w) (find_periods w)
    (get_ztf_alert_stats w) (xmatch w) (cesium_TimeSeries w)
    (featurize_single_ts w) (read_quadrant_file w) (write_meta w)
    (code_version w) (start_dt w) (end_dt w).

(** a light curve of source 1 that spans a hundredth of a day, for a grid
    of 28 frequencies *)
Definition lc_brief : LightCurve :=
  mkLC 1 [DemoRun.epoch 0 0; DemoRun.epoch (1 # 200) 0; DemoRun.epoch (1 # 100) 0] 2.

(** a catalog with two entries on the position of the first source, the
    second of magnitude 8 *)
Definition crowded (catalog : string) (radius : Q) (radec : list (Z * coord))
    : result (gmap string (list GaiaRec)) :=
  Ok (cone_response (λ _, [Demo.star_on_source; Demo.bright_star_on_source]) radec).

(** a record of source 3 whose only epoch has no [mag] *)
Definition record_no_mag : RawLightCurve :=
  mkRaw 3 [{[ "hjd"%string := 0%Q; "magerr"%string := (1 # 10)%Q;
              "catflags"%string := 0%Q ]}] 2.


(** a cone-search service that fails on a batch of one id *)
Definition flaky (catalog : string) (radius : Q) (radec : list (Z * coord))
    : result (gmap string (list GaiaRec)) :=
  if decide (length radec = 1%nat) then Raise ServiceError
  else Ok (cone_response Demo.cone radec).

(** the locals when the loop over [lcs] ends *)
Definition loop_end (w : World) (a : Args) (lcs : list LightCurve) : LoopState :=
  (lc_loop w a DemoRun.fgsl 296 1 1 lcs (initial_state DemoRun.fgsl)).1.

(** the rows the feature stage returns from there, none if it raises *)
Definition feature_rows (w : World) (a : Args) (lcs : list LightCurve)
    : pydict Z Source :=
  match (features_stage w a (loop_end w a lcs) DemoRun.fetched).2 with
  | Ok rows => rows
  | Raise _ => []
  end.

(** [d] after the alert stage with the statistics of the small run *)
Definition with_alerts (d : pydict Z Source) : pydict Z Source :=
  match alert_stage ((λ kv, (kv.1, DemoRun.alert_row)) <$> d) (keys d) d with
  | Ok d' => d'
  | Raise _ => []
  end.
End DemoEdge.

(** * Properties *)

(** ** Comparisons, [arange] and [argmin] *)



Lemma Qltb_lt (x y : Q) : Qltb x y = true ↔ (x < y)%Q.
Proof.
  unfold Qltb. rewrite negb_true_iff, <- not_true_iff_false, Qle_bool_iff.
  split; [apply Qnot_le_lt | apply Qlt_not_le].
Qed.

Lemma Qltb_ge (x y : Q) : Qltb x y = false ↔ (y <= x)%Q.
Proof.
  unfold Qltb. rewrite negb_false_iff. apply Qle_bool_iff.
Qed.

Lemma argmin_closest (l : list Q) : l ≠ [] → ∃ s, closest l (argmin l) s.
Proof.
  induction l as [|x l IH]; [done|]. intros _.
  destruct l as [|y l].
  { exists x. split; [done|]. intros [|j] z Hj; simplify_eq/=.
    split; [apply Qle_refl | lia]. }
  destruct IH as (s & Hs & Hmin); [done|].
  change (argmin (x :: y :: l)) with
    (let j := argmin (y :: l) in
     if Qle_bool x (nth j (y :: l) 0%Q) then 0%nat else S j).
  cbv zeta.
  rewrite (nth_lookup_Some _ _ _ _ Hs).
  destruct (Qle_bool x s) eqn:Hxs.
  - apply Qle_bool_iff in Hxs. exists x. split; [done|].
    intros [|j] z Hj; simplify_eq/=.
    + split; [apply Qle_refl | lia].
    + split; [|lia]. destruct (Hmin _ _ Hj) as [Hle _]. by eapply Qle_trans.
  - assert (s < x)%Q as Hlt.
    { apply Qnot_le_lt. intros Hle. apply Qle_bool_iff in Hle. congruence. }
    exists s. split; [done|].
    intros [|j] z Hj; simplify_eq/=.
    + split; [by apply Qlt_le_weak | done].
    + destruct (Hmin _ _ Hj) as [Hle Hfirst]. split; [done|].
      intros ?. apply Hfirst. lia.
Qed.

Lemma closest_unique (l : list Q) i s j s' :
  closest l i s → closest l j s' → i = j ∧ s = s'.
Proof.
  intros [Hi Hmi] [Hj Hmj].
  destruct (lt_eq_lt_dec i j) as [[Hlt | ->] | Hlt].
  - destruct (Hmj _ _ Hi) as [_ H1]. destruct (Hmi _ _ Hj) as [H2 _].
    specialize (H1 Hlt). exfalso. by eapply Qlt_not_le.
  - split; congruence.
  - destruct (Hmi _ _ Hj) as [_ H1]. destruct (Hmj _ _ Hi) as [H2 _].
    specialize (H1 Hlt). exfalso. by eapply Qlt_not_le.
Qed.

Lemma closest_argmin (l : list Q) i s : closest l i s → argmin l = i.
Proof.
  intros Hc. destruct (argmin_closest l) as [s' Hs'].
  { intros ->. by destruct Hc as [? _]. }
  by destruct (closest_unique _ _ _ _ _ Hs' Hc).
Qed.

(** ** Dictionaries *)

Section pydict_facts.
Context {K V : Type} `{EqDecision K}.
Implicit Types (d : pydict K V) (k : K) (v : V).

Lemma dget_Some_elem d k v : dget d k = Some v → (k, v) ∈ d.
Proof.
  induction d as [|[k' v'] d IH]; simpl; [done|].
  case_decide; intros ?; simplify_eq; [left | right; auto].
Qed.

Lemma dget_None d k : dget d k = None ↔ k ∉ keys d.
Proof.
  unfold keys. induction d as [|[k' v'] d IH]; simpl.
  - split; [intros _; apply not_elem_of_nil | done].
  - rewrite not_elem_of_cons. case_decide; subst.
    + split; [done | by intros [? _]].
    + rewrite IH. split; [by split; [apply not_eq_sym|] | by intros [_ ?]].
Qed.

Lemma dget_is_Some d k : is_Some (dget d k) ↔ k ∈ keys d.
Proof.
  rewrite <- not_eq_None_Some, dget_None.
  destruct (decide (k ∈ keys d)); naive_solver.
Qed.

Lemma dget_elem d k v : pydict_wf d → (k, v) ∈ d → dget d k = Some v.
Proof.
  unfold pydict_wf, keys. induction d as [|[k' v'] d IH]; simpl.
  - intros _ ?%elem_of_nil. done.
  - rewrite NoDup_cons. intros [Hk Hd] [?|Hin]%elem_of_cons; simplify_eq.
    + by rewrite decide_True.
    + rewrite decide_False; [auto|]. intros ->. apply Hk.
      apply list_elem_of_fmap. by exists (k, v).
Qed.

Lemma filter_all {A} (P : A → Prop) `{∀ x, Decision (P x)} (l : list A) :
  Forall P l → filter P l = l.
Proof.
  induction 1 as [|x l Hx Hl IH]; [done|].
  rewrite filter_cons, decide_True by done. by f_equal.
Qed.

Lemma remove_filter d k :
  pydict_wf d → remove d k = filter (λ kv, kv.1 ≠ k) d.
Proof.
  unfold pydict_wf, keys. induction d as [|[k' v'] d IH]; simpl; [done|].
  rewrite NoDup_cons. intros [Hk Hd].
  rewrite filter_cons. simpl. case_decide; subst.
  - rewrite decide_False by naive_solver.
    symmetry. apply filter_all. apply Forall_forall.
    intros [k2 v2] Hin Heq. simpl in Heq. subst. apply Hk.
    apply list_elem_of_fmap. by exists (k, v2).
  - rewrite decide_True by done. f_equal. auto.
Qed.

Lemma dget_remove_ne d k k' : k ≠ k' → dget (remove d k') k = dget d k.
Proof.
  intros Hne. induction d as [|[k2 v2] d IH]; simpl; [done|].
  destruct (decide (k2 = k')) as [->|]; simpl.
  - by rewrite decide_False.
  - case_decide; [done | apply IH].
Qed.

Lemma keys_remove_subseteq d k : keys (remove d k) ⊆ keys d.
Proof.
  unfold keys. induction d as [|[k2 v2] d IH]; simpl; [done|].
  case_decide; simpl.
  - intros x Hx. by right.
  - intros x [->|Hx]%elem_of_cons; [left | right; by apply IH].
Qed.

Lemma dget_remove_wf d k : pydict_wf d → dget (remove d k) k = None.
Proof.
  intros Hwf. rewrite remove_filter by done. apply dget_None.
  unfold keys. rewrite list_elem_of_fmap. intros ([k' v'] & -> & Hin).
  apply list_elem_of_filter in Hin as [Hne _]. done.
Qed.

Lemma keys_adjust (f : V → V) d k : keys (adjust f d k) = keys d.
Proof.
  unfold keys. induction d as [|[k2 v2] d IH]; simpl; [done|].
  case_decide; simpl; [done | by f_equal].
Qed.

Lemma pop_Ok d k d' : pop d k = Ok d' → d' = remove d k ∧ k ∈ keys d.
Proof.
  unfold pop. destruct (dget d k) eqn:E; [|done].
  intros [= <-]. split; [done|]. apply dget_is_Some. eauto.
Qed.

Lemma pop_elem d k : k ∈ keys d → pop d k = Ok (remove d k).
Proof. intros [v Hv]%dget_is_Some. unfold pop. by rewrite Hv. Qed.

Lemma getitem_Ok d k v : getitem d k = Ok v ↔ dget d k = Some v.
Proof. unfold getitem. destruct (dget d k); naive_solver. Qed.

Lemma filter_wf (P : K * V → Prop) `{∀ x, Decision (P x)} d :
  pydict_wf d → pydict_wf (filter P d).
Proof.
  unfold pydict_wf, keys. induction d as [|[k v] d IH]; [done|].
  rewrite fmap_cons, NoDup_cons. intros [Hk Hd].
  rewrite filter_cons. case_decide; [|auto].
  rewrite fmap_cons, NoDup_cons. split; [|auto].
  rewrite list_elem_of_fmap. intros ([k' v'] & Heq & Hin). simpl in Heq. subst.
  apply list_elem_of_filter in Hin as [_ Hin]. apply Hk.
  apply list_elem_of_fmap. by exists (k', v').
Qed.
End pydict_facts.

(** ** The bright-star filter, one source at a time *)

Section check_source_facts.
Context (separation : coord → coord → Q)
        (TychoBVfromGaia : Q → Q → Q * Q) (exclude_radius : Q → Q → Q)
        (xmatch_radius_arcsec : Q).

Local Abbreviation excl_radius_of := (excl_radius_of TychoBVfromGaia exclude_radius).
Local Abbreviation scan_candidates :=
  (scan_candidates separation TychoBVfromGaia exclude_radius).
Local Abbreviation pop_self_match := (pop_self_match separation xmatch_radius_arcsec).
Local Abbreviation check_source :=
  (check_source separation TychoBVfromGaia exclude_radius xmatch_radius_arcsec).
Local Abbreviation too_close := (too_close separation TychoBVfromGaia exclude_radius).
Local Abbreviation separations := (separations separation).
Local Abbreviation contaminated :=
  (contaminated separation TychoBVfromGaia exclude_radius xmatch_radius_arcsec).

Lemma source_coord_eq (val : Source) :
  source_coord val = (((radec_geojson val).1 + 180)%Q, (radec_geojson val).2).
Proof. done. Qed.

(** The scan never indexes [Coords] out of range and stops at the first
    candidate that passes the test of lines 208-210. *)
Lemma scan_candidates_spec xmatch_coord (before : list coord) (single_result : list GaiaRec) :
  scan_candidates xmatch_coord (before ++ (candidate_coord <$> single_result))
                  (length before) single_result
  = Ok (bool_decide (Exists (too_close xmatch_coord) single_result)).
Proof.
  revert before. induction single_result as [|source rest IH]; intros before.
  { done. }
  assert (scan_candidates xmatch_coord
            (before ++ (candidate_coord <$> source :: rest))
            (S (length before)) rest
          = Ok (bool_decide (Exists (too_close xmatch_coord) rest))) as Hrest.
  { specialize (IH (before ++ [candidate_coord source])).
    rewrite length_app, Nat.add_1_r, <- app_assoc in IH. exact IH. }
  remember (bool_decide (Exists (too_close xmatch_coord) (source :: rest))) as b eqn:Hb.
  simpl. destruct (Qltb 0 (excl_radius_of source)) eqn:Hpos.
  - unfold index. rewrite lookup_app_r, Nat.sub_diag by lia. simpl.
    destruct (Qltb (separation xmatch_coord (candidate_coord source))
                   (excl_radius_of source)) eqn:Hsep.
    + subst b. rewrite bool_decide_eq_true_2; [done|]. left.
      split; by apply Qltb_lt.
    + etrans; [exact Hrest|]. subst b. f_equal. apply bool_decide_ext.
      rewrite Exists_cons. split; [auto|]. intros [[_ Hlt]|]; [|done].
      apply Qltb_lt in Hlt. congruence.
  - etrans; [exact Hrest|]. subst b. f_equal. apply bool_decide_ext.
    rewrite Exists_cons. split; [auto|]. intros [[Hlt _]|]; [|done].
    apply Qltb_lt in Hlt. congruence.
Qed.

Lemma separations_eq coord0 (single_result : list GaiaRec) :
  (λ c, separation c coord0) <$> (shift180 <$> (coordinates <$> single_result))
  = (λ x, separation (candidate_coord x) coord0) <$> single_result.
Proof. by rewrite <- !list_fmap_compose. Qed.

(** Lines 180-186 never raise on a non-empty candidate list: the closest
    candidate exists, and it is popped exactly when it is nearer than the
    cross-match radius. *)
Lemma pop_self_match_spec coord0 (single_result : list GaiaRec) i s :
  closest ((λ x, separation (candidate_coord x) coord0) <$> single_result) i s →
  ∃ c, single_result !! i = Some c ∧
    pop_self_match coord0 single_result =
      Ok (if Qltb s xmatch_radius_arcsec
          then (Some c, delete i single_result,
                candidate_coord <$> delete i single_result)
          else (None, single_result, candidate_coord <$> single_result)).
Proof.
  intros Hc. pose proof (closest_argmin _ _ _ Hc) as Harg.
  destruct Hc as [Hi _]. rewrite list_lookup_fmap in Hi.
  destruct (single_result !! i) as [c|] eqn:Hci; [|done].
  exists c. split; [done|]. unfold pop_self_match.
  rewrite separations_eq, Harg. unfold index.
  rewrite list_lookup_fmap, Hci. simpl in *. simplify_eq.
  destruct (Qltb _ xmatch_radius_arcsec); simpl.
  - rewrite <- !list_fmap_delete. by rewrite <- list_fmap_compose.
  - by rewrite <- list_fmap_compose.
Qed.

(** What one pass of lines 161-213 computes: nothing for an empty
    candidate list; otherwise the self-match is set aside and the source
    is dropped exactly when a remaining candidate is too close to the
    reference position. *)
Lemma check_source_spec (val : Source) (single_result : list GaiaRec) :
  match single_result with
  | [] => check_source val single_result = Ok ([], false)
  | _ :: _ =>
      ∃ xmatch_source remaining,
        pop_self_match (source_coord val) single_result
          = Ok (xmatch_source, remaining, candidate_coord <$> remaining) ∧
        check_source val single_result =
          Ok (remaining,
              bool_decide (Exists (too_close (reference_coord (source_coord val)
                                                              xmatch_source))
                                  remaining))
  end.
Proof.
  unfold check_source. destruct (radec_geojson val) as [ra dec] eqn:Hradec.
  destruct single_result as [|c0 rest]; [done|].
  rewrite decide_True by (simpl; lia).
  assert (source_coord val = ((ra + 180)%Q, dec)) as Hsc.
  { rewrite source_coord_eq, Hradec. done. }
  rewrite <- Hsc.
  destruct (argmin_closest
              ((λ x, separation (candidate_coord x) (source_coord val)) <$> c0 :: rest))
    as [s Hs]; [done|].
  destruct (pop_self_match_spec _ _ _ _ Hs) as (c & Hc & Hpop).
  rewrite Hpop.
  destruct (Qltb s xmatch_radius_arcsec); cbn [rbind].
  - eexists (Some c), _. split; [done|].
    pose proof (scan_candidates_spec
                  (reference_coord (source_coord val) (Some c)) []) as Hscan.
    cbn [app length] in Hscan. by rewrite Hscan.
  - exists None, (c0 :: rest). split; [done|].
    pose proof (scan_candidates_spec
                  (reference_coord (source_coord val) None) []) as Hscan.
    cbn [app length] in Hscan. by rewrite Hscan.
Qed.

Lemma check_source_total (val : Source) (single_result : list GaiaRec) :
  ∃ remaining, check_source val single_result
               = Ok (remaining, contaminated val single_result).
Proof.
  unfold contaminated.
  pose proof (check_source_spec val single_result) as Hspec.
  destruct single_result as [|c0 rest].
  - rewrite Hspec. eauto.
  - destruct Hspec as (xs & remaining & _ & ->). eauto.
Qed.

Lemma contaminated_nil (val : Source) : contaminated val [] = false.
Proof.
  unfold contaminated. by rewrite (check_source_spec val []).
Qed.
End check_source_facts.

(** ** The per-id loop of the bright-star filter *)

Lemma filter_ext_in {A} (P1 P2 : A → Prop)
    `{!∀ x, Decision (P1 x), !∀ x, Decision (P2 x)} (l : list A) :
  (∀ x, x ∈ l → P1 x ↔ P2 x) → filter P1 l = filter P2 l.
Proof.
  induction l as [|x l IH]; intros Hext; [done|].
  rewrite !filter_cons.
  assert (filter P1 l = filter P2 l) as ->.
  { apply IH. intros y Hy. apply Hext. by right. }
  apply decide_ext. apply Hext. by left.
Qed.

Section filter_loop_facts.
Context (separation : coord → coord → Q)
        (TychoBVfromGaia : Q → Q → Q * Q) (exclude_radius : Q → Q → Q)
        (xmatch_radius_arcsec : Q).

Local Abbreviation check_source :=
  (check_source separation TychoBVfromGaia exclude_radius xmatch_radius_arcsec).
Local Abbreviation contaminated :=
  (contaminated separation TychoBVfromGaia exclude_radius xmatch_radius_arcsec).
Local Abbreviation dropped :=
  (dropped_by separation TychoBVfromGaia exclude_radius xmatch_radius_arcsec).
Local Abbreviation floop :=
  (filter_loop separation TychoBVfromGaia exclude_radius xmatch_radius_arcsec).

Implicit Types (id_dct keep : pydict Z Source) (ids : list Z)
               (res : gmap string (list GaiaRec)).

Lemma dropped_by_insert_ne res id single_result (kv : Z * Source) :
  kv.1 ≠ id →
  dropped (<[pretty id := single_result]> res) kv ↔ dropped res kv.
Proof.
  intros Hne. unfold dropped_by.
  rewrite lookup_insert_ne; [done|]. intros Heq. by apply (inj pretty) in Heq.
Qed.

(** The loop returns [id_dct_keep] without the ids it visited and found
    contaminated, provided every visited id has an entry in the query
    results. *)
Lemma filter_loop_spec id_dct ids res keep :
  NoDup ids →
  pydict_wf keep →
  (∀ kv, kv ∈ keep → dget id_dct kv.1 = Some kv.2) →
  (∀ id, id ∈ ids → is_Some (res !! pretty id) ∧ id ∈ keys keep) →
  floop id_dct ids res keep
  = Ok (filter (λ kv, ¬ (kv.1 ∈ ids ∧ dropped res kv)) keep).
Proof.
  revert res keep. induction ids as [|id ids IH]; intros res keep Hnd Hwf Hsub Hids.
  { simpl. f_equal. symmetry. apply filter_all, Forall_forall.
    intros kv _ [?%elem_of_nil _]. done. }
  apply NoDup_cons in Hnd as [Hid Hnd].
  destruct (Hids id) as [[sr Hsr] Hkeep]; [by left|].
  apply dget_is_Some in Hkeep as Hval. destruct Hval as [val Hval].
  pose proof (Hsub _ (dget_Some_elem _ _ _ Hval)) as Hval'. simpl in Hval'.
  destruct (check_source_total separation TychoBVfromGaia exclude_radius
              xmatch_radius_arcsec val sr) as [rem Hcheck].
  cbn [filter_loop]. unfold getitem. rewrite Hval', Hsr.
  cbn [rbind from_option]. rewrite Hcheck. cbn [rbind].
  set (b := contaminated val sr) in *.
  assert (∀ kv, kv ∈ keep → kv.1 = id → dropped res kv ↔ b = true) as Hb.
  { intros [k v] Hin Heq. simpl in Heq. subst k.
    assert (v = val) as ->.
    { apply Hsub in Hin. simpl in Hin. congruence. }
    unfold dropped_by. simpl. rewrite Hsr. split.
    - by intros (? & [= <-] & ?).
    - intros ?. eauto. }
  destruct b eqn:Eb.
  - rewrite pop_elem by done. cbn [rbind].
    rewrite IH; [| done | | |].
    + f_equal. rewrite remove_filter by done. rewrite list_filter_filter.
      apply filter_ext_in. intros kv Hin. rewrite elem_of_cons. split.
      * intros [Hnot Hne] [[?|Hin'] Hdrop]; [done|].
        apply Hnot. split; [done|]. by apply dropped_by_insert_ne.
      * intros Hnot. assert (kv.1 ≠ id) as Hne.
        { intros Heq. apply Hnot. split; [by left|]. by apply Hb. }
        split; [|done]. intros [Hin' Hdrop]. apply Hnot. split; [by right|].
        by apply dropped_by_insert_ne in Hdrop.
    + rewrite remove_filter by done. by apply filter_wf.
    + intros kv Hin. apply Hsub. rewrite remove_filter in Hin by done.
      by apply list_elem_of_filter in Hin as [_ ?].
    + intros id' Hid'. destruct (Hids id') as [Hres Hk]; [by right|].
      assert (id' ≠ id) as Hne by (intros ->; done).
      split.
      * rewrite lookup_insert_ne; [done|]. intros Heq.
        by apply (inj pretty) in Heq.
      * apply dget_is_Some. rewrite dget_remove_ne by done.
        by apply dget_is_Some.
  - cbn [rbind]. rewrite IH; [| done | done | done |].
    + f_equal. apply filter_ext_in. intros kv Hin. rewrite elem_of_cons. split.
      * intros Hnot [[Heq|Hin'] Hdrop].
        -- apply Hb in Hdrop; done.
        -- apply Hnot. split; [done|]. apply dropped_by_insert_ne; [|done].
           intros Heq. apply Hb in Hdrop; done.
      * intros Hnot [Hin' Hdrop]. apply Hnot. split; [by right|].
        apply dropped_by_insert_ne in Hdrop; [done|].
        intros Heq. by rewrite Heq in Hin'.
    + intros id' Hid'. destruct (Hids id') as [Hres Hk]; [by right|].
      assert (id' ≠ id) as Hne by (intros ->; done).
      split; [|done].
      rewrite lookup_insert_ne; [done|]. intros Heq.
      by apply (inj pretty) in Heq.
Qed.

(** A successful loop found an entry for every id it visited. *)
Lemma filter_loop_Ok_results id_dct ids res keep keep' :
  floop id_dct ids res keep = Ok keep' →
  ∀ id, id ∈ ids → is_Some (res !! pretty id).
Proof.
  revert res keep. induction ids as [|id0 ids IH]; intros res keep Hrun id Hin.
  { by apply elem_of_nil in Hin. }
  cbn [filter_loop] in Hrun.
  destruct (getitem id_dct id0) as [val|]; [|done]. cbn [rbind] in Hrun.
  destruct (res !! pretty id0) as [sr|] eqn:Hsr; [|done].
  cbn [rbind from_option] in Hrun.
  destruct (check_source val sr) as [[rem b]|]; [|done]. cbn [rbind] in Hrun.
  destruct (if b then pop keep id0 else Ok keep) as [keep1|]; [|done].
  cbn [rbind] in Hrun.
  apply elem_of_cons in Hin as [->|Hin]; [eauto|].
  specialize (IH _ _ Hrun _ Hin).
  destruct (decide (id = id0)) as [->|Hne]; [eauto|].
  rewrite lookup_insert_ne in IH; [done|]. intros Heq.
  apply (inj pretty) in Heq. done.
Qed.

(** An id without an entry in the query results makes the loop raise
    [KeyError]. *)
Lemma filter_loop_missing id_dct ids res keep id :
  id ∈ ids → res !! pretty id = None →
  floop id_dct ids res keep = Raise KeyError.
Proof.
  revert res keep. induction ids as [|id0 ids IH]; intros res keep Hin Hnone.
  { by apply elem_of_nil in Hin. }
  cbn [filter_loop]. unfold getitem.
  destruct (dget id_dct id0) as [val|]; [|done]. cbn [rbind].
  destruct (res !! pretty id0) as [sr|] eqn:Hsr; [|done].
  cbn [rbind from_option].
  destruct (check_source_total separation TychoBVfromGaia exclude_radius
              xmatch_radius_arcsec val sr) as [rem ->].
  cbn [rbind].
  assert (id ≠ id0) as Hne by (intros ->; congruence).
  apply elem_of_cons in Hin as [?|Hin]; [done|].
  assert (<[pretty id0:=rem]> res !! pretty id = None) as Hnone'.
  { rewrite lookup_insert_ne; [done|]. intros Heq.
    apply (inj pretty) in Heq. done. }
  destruct (contaminated val sr).
  - unfold pop. destruct (dget keep id0); [|done]. cbn [rbind]. by apply IH.
  - cbn [rbind]. by apply IH.
Qed.
End filter_loop_facts.

(** ** Batching of the cone searches *)

Lemma slice_subseteq {A} (l : list A) (lo hi : Z) : slice l lo hi ⊆ l.
Proof.
  unfold slice. etrans; [apply subseteq_take | apply subseteq_drop].
Qed.

(** The element at position [p] lies in batch [p // limit]. *)
Lemma slice_cover {A} (l : list A) (limit : Z) (p : nat) (x : A) :
  (0 < limit)%Z → l !! p = Some x →
  x ∈ slice l (Z.of_nat p `div` limit * limit)
              (Z.min (Z.of_nat (length l)) ((Z.of_nat p `div` limit + 1) * limit)).
Proof.
  intros Hlim Hp. pose proof (lookup_lt_Some _ _ _ Hp) as Hlen.
  set (i := (Z.of_nat p `div` limit)%Z).
  assert (i * limit <= Z.of_nat p < (i + 1) * limit)%Z as [Hlo Hhi].
  { pose proof (Z.div_mod (Z.of_nat p) limit ltac:(lia)) as Hdm.
    pose proof (Z.mod_pos_bound (Z.of_nat p) limit Hlim). unfold i. lia. }
  assert (0 <= i)%Z as Hi by (apply Z.div_pos; lia).
  unfold slice. apply elem_of_take.
  exists (p - Z.to_nat (i * limit))%nat. split.
  - rewrite lookup_drop. rewrite <- Hp. f_equal. lia.
  - lia.
Qed.

Section query_facts.
Context (kowalski_instance : string → Q → list (Z * coord)
                             → result (gmap string (list GaiaRec)))
        (catalog : string) (query_radius_arcsec : Q) (limit : Z).

Local Abbreviation id_slice := (id_slice_of limit).
Local Abbreviation batches :=
  (query_batches kowalski_instance catalog query_radius_arcsec limit).
Local Abbreviation qphase :=
  (query_phase kowalski_instance catalog query_radius_arcsec limit).

Implicit Types (id_dct : pydict Z Source) (res : gmap string (list GaiaRec)).

(** Every id of [id_dct] is in one of the batches when [limit] is
    positive. *)
Lemma batches_cover id_dct n_iterations id :
  (0 < limit)%Z →
  n_iterations_of limit (Z.of_nat (length id_dct)) = Ok n_iterations →
  id ∈ keys id_dct →
  ∃ i, i ∈ seqZ 0 n_iterations ∧ id ∈ id_slice id_dct i.
Proof.
  intros Hlim Hn [p Hp]%list_elem_of_lookup_1.
  pose proof (lookup_lt_Some _ _ _ Hp) as Hlen.
  unfold keys in Hlen. rewrite length_fmap in Hlen.
  exists (Z.of_nat p `div` limit)%Z. split.
  - apply elem_of_seqZ. split; [apply Z.div_pos; lia|].
    unfold n_iterations_of in Hn. rewrite decide_False in Hn by lia.
    pose proof (Z.div_mod (Z.of_nat (length id_dct)) limit ltac:(lia)) as Hdm.
    pose proof (Z.mod_pos_bound (Z.of_nat (length id_dct)) limit Hlim) as Hmod.
    assert (Z.of_nat p `div` limit <= Z.of_nat (length id_dct) `div` limit)%Z
      as Hle by (apply Z.div_le_mono; lia).
    case_decide; simplify_eq; [lia|].
    assert (Z.of_nat (length id_dct) `mod` limit = 0)%Z as Hz.
    { destruct (decide (Z.of_nat (length id_dct) `mod` limit = 0)%Z); [done|].
      exfalso. auto. }
    simpl. apply Z.div_lt_upper_bound; lia.
  - unfold id_slice_of.
    pose proof (slice_cover (keys id_dct) limit p id Hlim Hp) as Hc.
    unfold keys in Hc at 2. rewrite length_fmap in Hc. exact Hc.
Qed.

Lemma id_slice_subseteq id_dct i : id_slice id_dct i ⊆ keys id_dct.
Proof. apply slice_subseteq. Qed.

(** The [radec] dictionary of a batch pairs each id with its shifted
    position. *)
Lemma radec_of_spec id_dct (ids : list Z) :
  ids ⊆ keys id_dct →
  ∃ radec, radec_of id_dct ids = Ok radec ∧
    Forall2 (λ x r, ∃ val, dget id_dct x = Some val ∧ r = (x, source_coord val))
            ids radec.
Proof.
  unfold radec_of. induction ids as [|x ids IH]; intros Hsub.
  { exists []. split; [done | constructor]. }
  destruct IH as (radec & Hr & Hall).
  { intros y Hy. apply Hsub. by right. }
  assert (x ∈ keys id_dct) as [val Hval]%dget_is_Some by (apply Hsub; by left).
  exists ((x, source_coord val) :: radec). split.
  - cbn [map_result]. unfold getitem at 1. rewrite Hval. cbn [rbind].
    rewrite Hr. done.
  - constructor; eauto.
Qed.

(** The query phase only adds cone searches to the trace. *)
Lemma query_batches_trace id_dct (iterations : list Z) res tr tr' r :
  batches id_dct iterations res tr = (tr', r) →
  ∃ evs, tr' = tr ++ evs ∧ Forall (λ ev, ∃ n, ev = EvConeSearch catalog n) evs.
Proof.
  revert res tr. induction iterations as [|i its IH]; intros res tr.
  { intros [= <- _]. exists []. by rewrite app_nil_r. }
  cbn [query_batches]. unfold pbind at 1. unfold lift at 1.
  destruct (radec_of id_dct (id_slice id_dct i)) as [radec|].
  2:{ intros [= <- _]. exists []. by rewrite app_nil_r. }
  unfold pbind at 1. unfold call at 1.
  destruct (kowalski_instance catalog query_radius_arcsec radec) as [answer|].
  - intros (evs & -> & Hevs)%IH. eexists (_ :: evs).
    rewrite <- app_assoc. split; [done|]. constructor; eauto.
  - intros [= <- _]. eexists [_]. split; [done|]. constructor; eauto.
Qed.

Lemma query_phase_trace id_dct tr tr' r :
  qphase id_dct tr = (tr', r) →
  ∃ evs, tr' = tr ++ evs ∧ Forall (λ ev, ∃ n, ev = EvConeSearch catalog n) evs.
Proof.
  unfold query_phase, pbind, lift.
  destruct (n_iterations_of limit _) as [n|].
  - apply query_batches_trace.
  - intros [= <- _]. exists []. by rewrite app_nil_r.
Qed.

Section deterministic_catalog.
(** The catalog answers every position on its own and always the same
    way. *)
Variable cone : coord → list GaiaRec.
Hypothesis kowalski_cone : ∀ radec,
  kowalski_instance catalog query_radius_arcsec radec = Ok (cone_response cone radec).

Lemma cone_response_answers id_dct (ids : list Z) radec :
  Forall2 (λ x r, ∃ val, dget id_dct x = Some val ∧ r = (x, source_coord val))
          ids radec →
  answers_for cone id_dct (cone_response cone radec) ∧
  ∀ x, x ∈ ids → is_Some (cone_response cone radec !! pretty x).
Proof.
  unfold cone_response.
  induction 1 as [|x r ids radec (val & Hval & ->) Hall [IH1 IH2]].
  { split; [intros k v Hkv; by destruct (lookup_empty_Some (M:=gmap string) k v)|].
    intros x ?%elem_of_nil. done. }
  rewrite fmap_cons. cbn [list_to_map foldr uncurry]. split.
  - intros k v. destruct (decide (k = pretty x)) as [->|Hne].
    + rewrite lookup_insert_eq. intros [= <-]. eauto.
    + rewrite lookup_insert_ne by done. apply IH1.
  - intros y [->|Hy]%elem_of_cons.
    + rewrite lookup_insert_eq. eauto.
    + destruct (decide (pretty x = pretty y)) as [->|Hne].
      * rewrite lookup_insert_eq. eauto.
      * rewrite lookup_insert_ne by done. auto.
Qed.

Lemma query_batches_spec id_dct (iterations : list Z) res tr :
  answers_for cone id_dct res →
  ∃ res' tr',
    batches id_dct iterations res tr = (tr', Ok res') ∧
    answers_for cone id_dct res' ∧
    (∀ k, is_Some (res !! k) → is_Some (res' !! k)) ∧
    (∀ i id, i ∈ iterations → id ∈ id_slice id_dct i →
             is_Some (res' !! pretty id)).
Proof.
  revert res tr. induction iterations as [|i its IH]; intros res tr Hres.
  { exists res, tr. split_and!; [done | done | done |].
    intros i id ?%elem_of_nil. done. }
  destruct (radec_of_spec id_dct (id_slice id_dct i)) as (radec & Hradec & Hall).
  { apply id_slice_subseteq. }
  destruct (cone_response_answers _ _ _ Hall) as [Hans Hpres].
  destruct (IH (cone_response cone radec ∪ res) (tr ++ [EvConeSearch catalog
                  (length (id_slice id_dct i))])) as (res' & tr' & Hrun & Hans' & Hmono & Hcov).
  { intros k v [Hk | [_ Hk]]%lookup_union_Some_raw; [by apply Hans | by apply Hres]. }
  exists res', tr'. split_and!; [| done | |].
  - cbn [query_batches]. unfold pbind at 1. unfold lift at 1.
    rewrite Hradec. unfold pbind at 1. unfold call at 1.
    rewrite kowalski_cone. exact Hrun.
  - intros k Hk. apply Hmono. apply lookup_union_is_Some. by right.
  - intros i' id [->|Hi']%elem_of_cons Hid; [|by eapply Hcov].
    apply Hmono. apply lookup_union_is_Some. left. by apply Hpres.
Qed.

(** With a positive [limit] the query phase returns, for every source,
    the catalog's answer at its position. *)
Lemma query_phase_spec id_dct tr :
  (0 < limit)%Z → pydict_wf id_dct →
  ∃ res tr',
    qphase id_dct tr = (tr', Ok res) ∧
    ∀ kv, kv ∈ id_dct → res !! pretty kv.1 = Some (cone (source_coord kv.2)).
Proof.
  intros Hlim Hwf. unfold query_phase.
  destruct (n_iterations_of limit (Z.of_nat (length id_dct))) as [n|] eqn:Hn.
  2:{ unfold n_iterations_of in Hn. rewrite decide_False in Hn by lia.
      by case_decide. }
  destruct (query_batches_spec id_dct (seqZ 0 n) ∅ tr)
    as (res & tr' & Hrun & Hans & _ & Hcov).
  { intros k v. by rewrite lookup_empty. }
  exists res, tr'. split.
  - unfold pbind, lift. exact Hrun.
  - intros [id val] Hin. simpl.
    assert (id ∈ keys id_dct) as Hkey.
    { apply list_elem_of_fmap. by exists (id, val). }
    destruct (batches_cover id_dct n id Hlim Hn Hkey) as (i & Hi & Hslice).
    destruct (Hcov i id Hi Hslice) as [v Hv]. rewrite Hv.
    destruct (Hans _ _ Hv) as (id' & val' & Heq & Hval' & ->).
    apply (inj pretty) in Heq. subst id'.
    rewrite (dget_elem _ _ _ Hwf Hin) in Hval'. congruence.
Qed.
End deterministic_catalog.
End query_facts.

(** ** The filter as a whole *)

Section drop_facts.
Context (separation : coord → coord → Q)
        (TychoBVfromGaia : Q → Q → Q * Q) (exclude_radius : Q → Q → Q)
        (kowalski_instance : string → Q → list (Z * coord)
                             → result (gmap string (list GaiaRec)))
        (catalog : string) (query_radius_arcsec xmatch_radius_arcsec : Q)
        (limit : Z).

Local Abbreviation qphase :=
  (query_phase kowalski_instance catalog query_radius_arcsec limit).
Local Abbreviation floop :=
  (filter_loop separation TychoBVfromGaia exclude_radius xmatch_radius_arcsec).
Local Abbreviation drop :=
  (drop_close_bright_stars separation TychoBVfromGaia exclude_radius
     kowalski_instance catalog query_radius_arcsec xmatch_radius_arcsec limit).
Local Abbreviation kept :=
  (survivors separation TychoBVfromGaia exclude_radius xmatch_radius_arcsec).

Implicit Types (id_dct keep : pydict Z Source) (res : gmap string (list GaiaRec)).

Lemma drop_unfold id_dct tr :
  drop id_dct tr =
    match qphase id_dct tr with
    | (tr', Ok res) => (tr', floop id_dct (keys id_dct) res id_dct)
    | (tr', Raise e) => (tr', Raise e)
    end.
Proof.
  unfold drop_close_bright_stars, pbind, lift.
  by destruct (qphase id_dct tr) as [tr' [res|e]].
Qed.

Lemma floop_survivors id_dct res :
  pydict_wf id_dct →
  (∀ id, id ∈ keys id_dct → is_Some (res !! pretty id)) →
  floop id_dct (keys id_dct) res id_dct = Ok (kept res id_dct).
Proof.
  intros Hwf Hres. rewrite filter_loop_spec; [| done | done | |].
  - f_equal. unfold survivors. apply filter_ext_in. intros kv Hin.
    assert (kv.1 ∈ keys id_dct) as Hk by (apply list_elem_of_fmap; by exists kv).
    split; [intros Hn Hd; apply Hn; by split | intros Hn [_ Hd]; by apply Hn].
  - intros [k v] Hin. by apply dget_elem.
  - intros id Hid. split; [auto | done].
Qed.

(** When every id got an answer, the filter returns the sources the
    per-id test does not reject, in their original order. *)
Lemma drop_close_bright_stars_spec id_dct tr tr' res :
  pydict_wf id_dct →
  qphase id_dct tr = (tr', Ok res) →
  (∀ id, id ∈ keys id_dct → is_Some (res !! pretty id)) →
  drop id_dct tr = (tr', Ok (kept res id_dct)).
Proof.
  intros Hwf Hq Hres. rewrite drop_unfold, Hq. by rewrite floop_survivors.
Qed.

Lemma drop_close_bright_stars_Ok id_dct tr tr' keep :
  pydict_wf id_dct →
  drop id_dct tr = (tr', Ok keep) →
  ∃ res, qphase id_dct tr = (tr', Ok res) ∧
         (∀ id, id ∈ keys id_dct → is_Some (res !! pretty id)) ∧
         keep = kept res id_dct.
Proof.
  intros Hwf. rewrite drop_unfold.
  destruct (qphase id_dct tr) as [tr1 [res|e]]; [|done].
  intros [= -> Hloop]. exists res. split; [done|].
  pose proof (filter_loop_Ok_results _ _ _ _ _ _ _ _ _ Hloop) as Hres.
  split; [done|]. rewrite floop_survivors in Hloop by done. congruence.
Qed.

Lemma kept_elem res id_dct kv :
  kv ∈ kept res id_dct ↔
  kv ∈ id_dct ∧
  ¬ dropped_by separation TychoBVfromGaia exclude_radius xmatch_radius_arcsec res kv.
Proof.
  unfold survivors. rewrite list_elem_of_filter. split; intros [? ?]; by split.
Qed.

Lemma drop_close_bright_stars_trace id_dct tr tr' r :
  drop id_dct tr = (tr', r) →
  ∃ evs, tr' = tr ++ evs ∧ Forall (λ ev, ∃ n, ev = EvConeSearch catalog n) evs.
Proof.
  rewrite drop_unfold.
  destruct (qphase id_dct tr) as [tr1 [res|e]] eqn:Hq; intros [= <- _];
    by eapply query_phase_trace.
Qed.
End drop_facts.

(** ** Examples on the small sky *)

Example demo_check_1 :
  Demo.check [Demo.self_detection] = Ok ([], false).
Proof. vm_compute. reflexivity. Qed.

Example demo_check_2 :
  Demo.check [Demo.bright_neighbour; Demo.self_detection]
  = Ok ([Demo.bright_neighbour], true).
Proof. vm_compute. reflexivity. Qed.

Example demo_drop_1 :
  Demo.drop Demo.gloria 2 Demo.id_dct []
  = ([EvConeSearch "gaia" 2; EvConeSearch "gaia" 1],
     Ok [(1%Z, Demo.src); (3%Z, mkSource (11, 20)%Q ∅)]).
Proof. vm_compute. reflexivity. Qed.

(** ** Claims about [drop_close_bright_stars] *)

Section drop_claims.
Context (separation : coord → coord → Q)
        (TychoBVfromGaia : Q → Q → Q * Q) (exclude_radius : Q → Q → Q)
        (kowalski_instance : string → Q → list (Z * coord)
                             → result (gmap string (list GaiaRec)))
        (catalog : string) (query_radius_arcsec xmatch_radius_arcsec : Q)
        (limit : Z).

Local Abbreviation qphase :=
  (query_phase kowalski_instance catalog query_radius_arcsec limit).
Local Abbreviation check :=
  (check_source separation TychoBVfromGaia exclude_radius xmatch_radius_arcsec).
Local Abbreviation pop_match := (pop_self_match separation xmatch_radius_arcsec).
Local Abbreviation close_to := (too_close separation TychoBVfromGaia exclude_radius).
Local Abbreviation drop :=
  (drop_close_bright_stars separation TychoBVfromGaia exclude_radius
     kowalski_instance catalog query_radius_arcsec xmatch_radius_arcsec limit).
Local Abbreviation kept :=
  (survivors separation TychoBVfromGaia exclude_radius xmatch_radius_arcsec).
Local Abbreviation rejected :=
  (contaminated separation TychoBVfromGaia exclude_radius xmatch_radius_arcsec).

Implicit Types (id_dct keep : pydict Z Source) (res : gmap string (list GaiaRec))
               (val : Source) (single_result : list GaiaRec).

(** A source that the per-id test does not reject is in every dictionary
    the filter returns. *)
Lemma not_rejected_kept id_dct tr tr' keep res id val single_result :
  pydict_wf id_dct →
  qphase id_dct tr = (tr', Ok res) →
  (id, val) ∈ id_dct →
  res !! pretty id = Some single_result →
  rejected val single_result = false →
  ∀ tr'', drop id_dct tr = (tr'', Ok keep) → (id, val) ∈ keep.
Proof.
  intros Hwf Hq Hin Hres Hrej tr'' Hdrop.
  destruct (drop_close_bright_stars_Ok _ _ _ _ _ _ _ _ _ _ _ _ Hwf Hdrop)
    as (res' & Hq' & _ & ->).
  assert (res' = res) as -> by congruence.
  apply kept_elem. split; [done|].
  intros (sr & Hsr & Hc). simpl in *. congruence.
Qed.

(** C9.  A source for which the bright-star query returned no candidate
    is never dropped: its pass through the loop does nothing, it is in
    whatever dictionary [drop_close_bright_stars] returns, and the function
    does return when every id got an answer. *)
Theorem zero_candidates_kept id_dct tr tr' res id val :
  pydict_wf id_dct →
  qphase id_dct tr = (tr', Ok res) →
  (id, val) ∈ id_dct →
  res !! pretty id = Some [] →
  check val [] = Ok ([], false) ∧
  (∀ tr'' keep, drop id_dct tr = (tr'', Ok keep) → (id, val) ∈ keep) ∧
  ((∀ id', id' ∈ keys id_dct → is_Some (res !! pretty id')) →
   ∃ keep, drop id_dct tr = (tr', Ok keep) ∧ (id, val) ∈ keep).
Proof.
  intros Hwf Hq Hin Hres.
  pose proof (contaminated_nil separation TychoBVfromGaia exclude_radius
                xmatch_radius_arcsec val) as Hnil.
  split_and!.
  - apply (check_source_spec _ _ _ _ val []).
  - intros tr'' keep Hdrop. by eapply not_rejected_kept.
  - intros Hall. exists (kept res id_dct).
    pose proof (drop_close_bright_stars_spec separation TychoBVfromGaia
                  exclude_radius kowalski_instance catalog query_radius_arcsec
                  xmatch_radius_arcsec limit id_dct tr tr' res Hwf Hq Hall) as Hd.
    split; [done|]. by eapply not_rejected_kept.
Qed.

(** C5, as the code has it.  An id of [id_dct] that the merged query
    results do not contain is not treated as a source without candidates:
    the lookup raises [KeyError] and [drop_close_bright_stars] returns no
    dictionary. *)
Theorem missing_answer_raises id_dct tr tr' res id :
  qphase id_dct tr = (tr', Ok res) →
  id ∈ keys id_dct →
  res !! pretty id = None →
  drop id_dct tr = (tr', Raise KeyError).
Proof.
  intros Hq Hin Hnone. rewrite drop_unfold, Hq. f_equal.
  by eapply filter_loop_missing.
Qed.

(** The returned dictionary lacks a source exactly when the per-id test
    rejected it. *)
Lemma dropped_iff_rejected id_dct tr tr' res id val single_result tr'' keep :
  pydict_wf id_dct →
  qphase id_dct tr = (tr', Ok res) →
  (id, val) ∈ id_dct →
  res !! pretty id = Some single_result →
  drop id_dct tr = (tr'', Ok keep) →
  id ∉ keys keep ↔ rejected val single_result = true.
Proof.
  intros Hwf Hq Hin Hres Hdrop.
  destruct (drop_close_bright_stars_Ok _ _ _ _ _ _ _ _ _ _ _ _ Hwf Hdrop)
    as (res' & Hq' & _ & ->).
  assert (res' = res) as -> by congruence.
  split.
  - intros Hout. destruct (rejected val single_result) eqn:Hrej; [done|].
    exfalso. apply Hout. apply list_elem_of_fmap. exists (id, val). split; [done|].
    apply kept_elem. split; [done|].
    intros (sr & Hsr & Hc). simpl in *. congruence.
  - intros Hrej (kv & Hid & Hkv)%list_elem_of_fmap.
    apply kept_elem in Hkv as [Hkv Hnot]. destruct kv as [id' val']. simpl in Hid.
    subst id'.
    assert (val' = val) as ->.
    { pose proof (dget_elem _ _ _ Hwf Hkv) as H1.
      pose proof (dget_elem _ _ _ Hwf Hin) as H2. congruence. }
    apply Hnot. exists single_result. by split.
Qed.

(** C1, as the code has it.  The dictionary [drop_close_bright_stars]
    returns lacks a source exactly when, once the self-match has been set
    aside, one of the remaining candidates has a positive exclusion radius
    and lies nearer to the reference position than that radius; the
    separation has no lower bound.  This is also what the flag of the per-id
    pass says. *)
Theorem dropped_iff_too_close id_dct tr tr' res id val single_result tr'' keep :
  pydict_wf id_dct →
  qphase id_dct tr = (tr', Ok res) →
  (id, val) ∈ id_dct →
  res !! pretty id = Some single_result →
  drop id_dct tr = (tr'', Ok keep) →
  ∃ xmatch_source remaining dropped,
    check val single_result = Ok (remaining, dropped) ∧
    (single_result = [] ∧ remaining = [] ∧ xmatch_source = None ∨
     pop_match (source_coord val) single_result
       = Ok (xmatch_source, remaining, candidate_coord <$> remaining)) ∧
    (id ∉ keys keep ↔ dropped = true) ∧
    (id ∉ keys keep ↔
     ∃ source, source ∈ remaining ∧
       (0 < excl_radius_of TychoBVfromGaia exclude_radius source)%Q ∧
       (separation (reference_coord (source_coord val) xmatch_source)
                   (candidate_coord source)
        < excl_radius_of TychoBVfromGaia exclude_radius source)%Q).
Proof.
  intros Hwf Hq Hin Hres Hdrop.
  pose proof (dropped_iff_rejected _ _ _ _ _ _ _ _ _ Hwf Hq Hin Hres Hdrop) as Hdict.
  destruct (check_source_total separation TychoBVfromGaia exclude_radius
              xmatch_radius_arcsec val single_result) as [remaining Hcheck].
  pose proof (check_source_spec separation TychoBVfromGaia exclude_radius
                xmatch_radius_arcsec val single_result) as Hspec.
  destruct single_result as [|c0 rest].
  - rewrite Hspec in Hcheck. injection Hcheck as <- Hrej.
    exists None, [], false. rewrite <- Hrej in Hdict.
    split_and!; [done | by left | done |].
    rewrite Hdict. split; [done|]. intros (? & ?%elem_of_nil & _). done.
  - destruct Hspec as (xs & rem & Hpop & Hc). rewrite Hc in Hcheck.
    injection Hcheck as <- Hrej.
    exists xs, rem, (rejected val (c0 :: rest)).
    split_and!; [by rewrite Hc, Hrej | by right | done |].
    rewrite Hdict, <- Hrej, bool_decide_eq_true, Exists_exists. done.
Qed.

(** C6.  The closest candidate is the self-match exactly when it is nearer
    than [xmatch_radius_arcsec]: it is then removed and the remaining
    candidates are tested against its catalog position; otherwise all
    candidates are tested against the source position.  A source whose only
    candidate is a self-match has nothing left to test and is kept. *)
Theorem self_match_policy val single_result i s :
  closest (separations separation val single_result) i s →
  ((s < xmatch_radius_arcsec)%Q →
     ∃ c, single_result !! i = Some c ∧
       pop_match (source_coord val) single_result
         = Ok (Some c, delete i single_result,
               candidate_coord <$> delete i single_result) ∧
       check val single_result
         = Ok (delete i single_result,
               bool_decide (Exists (close_to (candidate_coord c))
                                   (delete i single_result)))) ∧
  ((xmatch_radius_arcsec <= s)%Q →
     pop_match (source_coord val) single_result
       = Ok (None, single_result, candidate_coord <$> single_result) ∧
     check val single_result
       = Ok (single_result,
             bool_decide (Exists (close_to (source_coord val)) single_result))) ∧
  ((s < xmatch_radius_arcsec)%Q → length single_result = 1%nat →
     check val single_result = Ok ([], false) ∧
     ∀ id_dct tr tr' res id keep tr'',
       pydict_wf id_dct → qphase id_dct tr = (tr', Ok res) →
       (id, val) ∈ id_dct → res !! pretty id = Some single_result →
       drop id_dct tr = (tr'', Ok keep) → (id, val) ∈ keep).
Proof.
  intros Hc.
  destruct (pop_self_match_spec separation xmatch_radius_arcsec
              (source_coord val) single_result i s Hc) as (c & Hci & Hpop).
  pose proof (check_source_spec separation TychoBVfromGaia exclude_radius
                xmatch_radius_arcsec val single_result) as Hspec.
  destruct single_result as [|c0 rest]; [done|].
  destruct Hspec as (xs & rem & Hpop' & Hcheck).
  rewrite Hpop in Hpop'.
  assert ((s < xmatch_radius_arcsec)%Q →
          check val (c0 :: rest)
          = Ok (delete i (c0 :: rest),
                bool_decide (Exists (close_to (candidate_coord c))
                                    (delete i (c0 :: rest))))) as Hbelow.
  { intros Hlt. apply Qltb_lt in Hlt. rewrite Hlt in Hpop'. rewrite Hcheck.
    by simplify_eq. }
  split_and!.
  - intros Hlt. exists c. split_and!; [done | | by apply Hbelow].
    apply Qltb_lt in Hlt. by rewrite Hpop, Hlt.
  - intros Hge. apply Qltb_ge in Hge. rewrite Hge in Hpop, Hpop'.
    split; [done|]. rewrite Hcheck. by simplify_eq.
  - intros Hlt Hlen. destruct rest; [|done]. destruct i as [|i]; [|done].
    assert (check val [c0] = Ok ([], false)) as Hkept.
    { rewrite (Hbelow Hlt). done. }
    split; [done|].
    intros id_dct tr tr' res id keep tr'' Hwf Hq Hin Hres Hdrop.
    eapply not_rejected_kept; [done.. | | done].
    unfold contaminated. by rewrite Hkept.
Qed.
End drop_claims.

Section idempotence.
Context (separation : coord → coord → Q)
        (TychoBVfromGaia : Q → Q → Q * Q) (exclude_radius : Q → Q → Q)
        (kowalski_instance : string → Q → list (Z * coord)
                             → result (gmap string (list GaiaRec)))
        (catalog : string) (query_radius_arcsec xmatch_radius_arcsec : Q)
        (limit : Z).

Local Abbreviation qphase :=
  (query_phase kowalski_instance catalog query_radius_arcsec limit).
Local Abbreviation drop :=
  (drop_close_bright_stars separation TychoBVfromGaia exclude_radius
     kowalski_instance catalog query_radius_arcsec xmatch_radius_arcsec limit).
Local Abbreviation kept :=
  (survivors separation TychoBVfromGaia exclude_radius xmatch_radius_arcsec).
Local Abbreviation rejected :=
  (contaminated separation TychoBVfromGaia exclude_radius xmatch_radius_arcsec).

Implicit Types (id_dct keep : pydict Z Source) (res : gmap string (list GaiaRec)).

(** the catalog answers every position on its own *)
Variable cone : coord → list GaiaRec.
Hypothesis kowalski_cone : ∀ radec,
  kowalski_instance catalog query_radius_arcsec radec = Ok (cone_response cone radec).

(** what the filter keeps when the catalog is [cone] *)
Local Abbreviation clean :=
  (filter (λ kv : Z * Source, rejected kv.2 (cone (source_coord kv.2)) = false)).

Lemma kept_clean id_dct res :
  (∀ kv, kv ∈ id_dct → res !! pretty kv.1 = Some (cone (source_coord kv.2))) →
  kept res id_dct = clean id_dct.
Proof.
  intros Hres. unfold survivors. apply filter_ext_in. intros kv Hin.
  unfold dropped_by. rewrite (Hres _ Hin). split.
  - intros Hn. destruct (rejected kv.2 (cone (source_coord kv.2))) eqn:E; [|done].
    exfalso. apply Hn. eauto.
  - intros Hf (sr & [= <-] & Ht). congruence.
Qed.

Lemma drop_clean id_dct tr :
  (0 < limit)%Z → pydict_wf id_dct →
  ∃ tr', drop id_dct tr = (tr', Ok (clean id_dct)).
Proof.
  intros Hlim Hwf.
  destruct (query_phase_spec kowalski_instance catalog query_radius_arcsec limit
              cone kowalski_cone id_dct tr Hlim Hwf) as (res & tr' & Hq & Hres).
  exists tr'. rewrite <- (kept_clean id_dct res Hres).
  apply drop_close_bright_stars_spec; [done | done |].
  intros id [[k v] [-> Hin]]%list_elem_of_fmap. rewrite (Hres _ Hin). eauto.
Qed.

Lemma drop_nonpositive_limit id_dct tr tr' keep :
  (limit <= 0)%Z → pydict_wf id_dct →
  drop id_dct tr = (tr', Ok keep) → id_dct = [] ∧ keep = [] ∧ tr' = tr.
Proof.
  intros Hlim Hwf Hdrop.
  destruct (drop_close_bright_stars_Ok _ _ _ _ _ _ _ _ _ _ _ _ Hwf Hdrop)
    as (res & Hq & Hres & ->).
  unfold query_phase, pbind, lift in Hq.
  destruct (n_iterations_of limit (Z.of_nat (length id_dct))) as [n|] eqn:Hn;
    [|done].
  assert (n <= 0)%Z as Hn0.
  { unfold n_iterations_of in Hn. case_decide; [done|].
    pose proof (Z.mod_neg_bound (Z.of_nat (length id_dct)) limit ltac:(lia)).
    pose proof (Z.div_mod (Z.of_nat (length id_dct)) limit ltac:(lia)).
    case_decide; simplify_eq; nia. }
  assert (seqZ 0 n = []) as Hseq.
  { unfold seqZ. replace (Z.to_nat n) with 0%nat by lia. done. }
  rewrite Hseq in Hq. cbn [query_batches] in Hq. unfold pret in Hq.
  simplify_eq.
  destruct id_dct as [|[k v] d]; [done|].
  destruct (Hres k) as [? Hk]; [by left|].
  by apply lookup_empty_Some in Hk.
Qed.

Lemma drop_nil tr :
  limit ≠ 0%Z → drop [] tr = (tr, Ok []).
Proof.
  intros Hlim. rewrite drop_unfold. unfold query_phase, pbind, lift.
  unfold n_iterations_of. rewrite decide_False by done.
  cbn [length Z.of_nat]. rewrite Z.mod_0_l by done.
  rewrite decide_False by (intros Hne; by apply Hne).
  rewrite Z.div_0_l by done. done.
Qed.

(** C10.  With a catalog that answers each position on its own, and the
    same way on both runs, [drop_close_bright_stars] applied to its own
    output returns that output unchanged: the same ids with the same
    sources in the same order.  For a positive [limit] the first run does
    return. *)
Theorem drop_close_bright_stars_idempotent id_dct tr :
  pydict_wf id_dct →
  ((0 < limit)%Z → ∃ tr1 keep, drop id_dct tr = (tr1, Ok keep)) ∧
  (∀ tr1 keep, drop id_dct tr = (tr1, Ok keep) →
     ∃ tr2, drop keep tr1 = (tr2, Ok keep)).
Proof.
  intros Hwf. split.
  { intros Hlim. destruct (drop_clean id_dct tr Hlim Hwf) as [tr1 H1]. eauto. }
  intros tr1 keep Hdrop.
  destruct (decide (0 < limit)%Z) as [Hlim|Hlim].
  - destruct (drop_clean id_dct tr Hlim Hwf) as [tr1' H1].
    rewrite H1 in Hdrop. simplify_eq.
    destruct (drop_clean (clean id_dct) tr1 Hlim) as [tr2 H2].
    { by apply filter_wf. }
    exists tr2. rewrite H2. do 2 f_equal.
    apply list_filter_filter_l. done.
  - destruct (drop_nonpositive_limit id_dct tr tr1 keep) as (-> & -> & ->);
      [lia | done | done |].
    exists tr. apply drop_nil. intros ->.
    rewrite drop_unfold in Hdrop. unfold query_phase, pbind, lift in Hdrop.
    unfold n_iterations_of in Hdrop. by rewrite decide_True in Hdrop.
Qed.
End idempotence.

(** ** The claims on the small sky *)

Lemma closest_compute (l : list Q) :
  l ≠ [] → closest l (argmin l) (nth (argmin l) l 0%Q).
Proof.
  intros Hl. destruct (argmin_closest l Hl) as [s Hs].
  destruct Hs as [Hlook Hmin]. rewrite (nth_lookup_Some _ _ _ _ Hlook).
  by split.
Qed.

Lemma demo_id_dct_wf : pydict_wf Demo.id_dct.
Proof. unfold pydict_wf. apply (bool_decide_unpack _). vm_compute. exact I. Defined.

(** C9 on a sky without bright stars: every source comes back. *)
Lemma zero_candidates_kept_witness :
  ∃ keep, Demo.drop Demo.empty_sky 2 Demo.id_dct []
          = ([EvConeSearch "gaia" 2; EvConeSearch "gaia" 1], Ok keep) ∧
          (1%Z, Demo.src) ∈ keep.
Proof.
  edestruct (zero_candidates_kept Demo.separation Demo.TychoBVfromGaia
               Demo.exclude_radius Demo.empty_sky "gaia" 300%Q 2%Q 2%Z
               Demo.id_dct [] [EvConeSearch "gaia" 2; EvConeSearch "gaia" 1]
               Demo.empty_answers 1%Z Demo.src) as (_ & _ & Hkept).
  - exact demo_id_dct_wf.
  - vm_compute. reflexivity.
  - left.
  - vm_compute. reflexivity.
  - apply Hkept. intros id' Hid'.
    apply list_elem_of_In in Hid'. simpl in Hid'.
    destruct Hid' as [<- | [<- | [<- | []]]]; vm_compute; eauto.
Defined.

(** C5 fails as stated: when the service returns no entry for the ids it
    was asked about, the source is not kept; the run ends in [KeyError]. *)
Lemma missing_answer_counterexample :
  query_phase Demo.forgetful "gaia" 300%Q 2%Z Demo.id_dct []
    = ([EvConeSearch "gaia" 2; EvConeSearch "gaia" 1], Ok ∅) ∧
  (∅ : gmap string (list GaiaRec)) !! pretty 1%Z = None ∧
  ¬ ∃ tr keep, Demo.drop Demo.forgetful 2 Demo.id_dct [] = (tr, Ok keep).
Proof.
  split_and!; [vm_compute; reflexivity | done |].
  intros (tr & keep & Hdrop). vm_compute in Hdrop. discriminate Hdrop.
Qed.

(** C5 as amended, on the service that returns no entry: the three
    sources are queried in two batches and the lookup of the first id
    raises. *)
Lemma missing_answer_raises_witness :
  Demo.drop Demo.forgetful 2 Demo.id_dct []
  = ([EvConeSearch "gaia" 2; EvConeSearch "gaia" 1], Raise KeyError).
Proof.
  apply (missing_answer_raises Demo.separation Demo.TychoBVfromGaia
           Demo.exclude_radius Demo.forgetful "gaia" 300%Q 2%Q 2%Z
           Demo.id_dct [] [EvConeSearch "gaia" 2; EvConeSearch "gaia" 1] ∅ 1%Z).
  - vm_compute. reflexivity.
  - left.
  - done.
Defined.

(** C1 fails as stated: two catalog entries on the position of the source.
    The first is popped as the self-match and gives the reference position;
    the second, of magnitude 8, is at separation 0 from it, and the source
    is dropped: the dictionary returned is empty. *)
Lemma coincident_candidate_counterexample :
  pop_self_match Demo.separation 2%Q (source_coord Demo.src)
      [Demo.star_on_source; Demo.bright_star_on_source]
    = Ok (Some Demo.star_on_source, [Demo.bright_star_on_source],
          [candidate_coord Demo.bright_star_on_source]) ∧
  (Demo.separation (candidate_coord Demo.star_on_source)
                   (candidate_coord Demo.bright_star_on_source) == 0)%Q ∧
  Demo.check [Demo.star_on_source; Demo.bright_star_on_source]
    = Ok ([Demo.bright_star_on_source], true) ∧
  Demo.drop DemoEdge.crowded 2 [(1%Z, Demo.src)] []
    = ([EvConeSearch "gaia" 1], Ok []).
Proof. split_and!; vm_compute; reflexivity. Qed.

(** C1 as amended, on the small sky: source 2 has a neighbour of magnitude
    8 twenty arcseconds away and is not in the dictionary returned. *)
Lemma dropped_iff_too_close_witness :
  Demo.drop Demo.gloria 2 Demo.id_dct []
    = ([EvConeSearch "gaia" 2; EvConeSearch "gaia" 1],
       Ok [(1%Z, Demo.src); (3%Z, mkSource (11, 20)%Q ∅)]) ∧
  (2%Z ∉ keys [(1%Z, Demo.src); (3%Z, mkSource (11, 20)%Q ∅)]) ∧
  ∃ source, source ∈ Demo.cone (source_coord (mkSource (10, 40)%Q ∅)) ∧
    (Demo.separation (source_coord (mkSource (10, 40)%Q ∅)) (candidate_coord source)
     < excl_radius_of Demo.TychoBVfromGaia Demo.exclude_radius source)%Q.
Proof.
  pose (keep := [(1%Z, Demo.src); (3%Z, mkSource (11, 20)%Q ∅)]).
  pose (tr' := [EvConeSearch "gaia" 2; EvConeSearch "gaia" 1]).
  pose (res := cone_response Demo.cone
                 [(1%Z, source_coord Demo.src);
                  (2%Z, source_coord (mkSource (10, 40)%Q ∅));
                  (3%Z, source_coord (mkSource (11, 20)%Q ∅))]).
  assert (Demo.drop Demo.gloria 2 Demo.id_dct [] = (tr', Ok keep)) as Hdrop
    by (vm_compute; reflexivity).
  destruct (dropped_iff_too_close Demo.separation Demo.TychoBVfromGaia
              Demo.exclude_radius Demo.gloria "gaia" 300%Q 2%Q 2%Z Demo.id_dct []
              tr' res 2%Z (mkSource (10, 40)%Q ∅)
              (Demo.cone (source_coord (mkSource (10, 40)%Q ∅))) tr' keep)
    as (xs & remaining & dropped & Hcheck & Hpop & Hflag & Hiff).
  - exact demo_id_dct_wf.
  - vm_compute. reflexivity.
  - right. by left.
  - vm_compute. reflexivity.
  - exact Hdrop.
  - vm_compute in Hcheck. injection Hcheck as <- <-.
    assert (2%Z ∉ keys keep) as Hout by (by apply Hflag).
    split_and!; [exact Hdrop | exact Hout |].
    destruct (proj1 Hiff Hout) as (source & Hin & _ & Hnear).
    destruct Hpop as [(Hnil & _) | Hpop]; [discriminate Hnil|].
    vm_compute in Hpop. injection Hpop as <-.
    exists source. by split.
Defined.

(** C6 on a source whose only candidate is its own detection, half an
    arcsecond away. *)
Lemma self_match_policy_witness :
  Demo.check [Demo.self_detection] = Ok ([], false).
Proof.
  pose (seps := separations Demo.separation Demo.src [Demo.self_detection]).
  destruct (self_match_policy Demo.separation Demo.TychoBVfromGaia
              Demo.exclude_radius Demo.gloria "gaia" 300%Q 2%Q 2%Z Demo.src
              [Demo.self_detection] (argmin seps) (nth (argmin seps) seps 0%Q))
    as (_ & _ & Hkept).
  - apply closest_compute. done.
  - apply Hkept; [vm_compute; reflexivity | reflexivity].
Defined.

(** C10 on the small sky: source 2 has a bright neighbour and goes, and a
    second run changes nothing. *)
Lemma drop_close_bright_stars_idempotent_witness :
  ∃ tr2, Demo.drop Demo.gloria 2
           [(1%Z, Demo.src); (3%Z, mkSource (11, 20)%Q ∅)]
           [EvConeSearch "gaia" 2; EvConeSearch "gaia" 1]
         = (tr2, Ok [(1%Z, Demo.src); (3%Z, mkSource (11, 20)%Q ∅)]).
Proof.
  destruct (drop_close_bright_stars_idempotent Demo.separation
              Demo.TychoBVfromGaia Demo.exclude_radius Demo.gloria "gaia"
              300%Q 2%Q 2%Z Demo.cone (λ radec, eq_refl) Demo.id_dct []
              demo_id_dct_wf) as [_ Hsecond].
  apply Hsecond. vm_compute. reflexivity.
Defined.

(** ** The light-curve loop *)

Lemma unpack_columns_raise (tme : list (Q * Q * Q)) :
  unpack_columns tme = Raise ValueError ↔ tme = [].
Proof. destruct tme; simpl; split; congruence. Qed.

Lemma tme_of_nil (lc : LightCurve) : lc_unflagged_of lc = [] → tme_of lc = [].
Proof. unfold tme_of. by intros ->. Qed.

Lemma malformed_raises lc :
  malformed lc → unpack_columns (tme_of lc) = Raise ValueError.
Proof.
  intros [Hdata | [Hun | Hraise]]; [| | done].
  - apply unpack_columns_raise, tme_of_nil. unfold lc_unflagged_of.
    by rewrite Hdata.
  - by apply unpack_columns_raise, tme_of_nil.
Qed.

Lemma remove_wf (d : pydict Z Source) (k : Z) : pydict_wf d → pydict_wf (remove d k).
Proof. intros Hwf. rewrite remove_filter by done. by apply filter_wf. Qed.

Lemma not_elem_of_keys_remove (d : pydict Z Source) (k : Z) :
  pydict_wf d → k ∉ keys (remove d k).
Proof. intros Hwf. apply dget_None. by apply dget_remove_wf. Qed.

(** *** Writes into rows keep the rows *)

Lemma set_column_keeps_rows _id name v : keeps_rows (λ d, set_column d _id name v).
Proof.
  intros d d'. unfold set_column. destruct (dget d _id); [|done].
  intros [= <-]. apply keys_adjust.
Qed.

Lemma set_columns_keeps_rows _id kvs : keeps_rows (λ d, set_columns d _id kvs).
Proof.
  induction kvs as [|[name v] kvs IH]; intros d d'; simpl.
  { by intros [= <-]. }
  destruct (set_column d _id name v) as [d1|] eqn:Hd1; [|done]. simpl.
  intros Hd'. rewrite (IH _ _ Hd'). by apply (set_column_keeps_rows _id name v).
Qed.

Lemma update_columns_keeps_rows _id feats : keeps_rows (λ d, update_columns d _id feats).
Proof.
  intros d d'. unfold update_columns. destruct (dget d _id); [|done].
  intros [= <-]. apply keys_adjust.
Qed.

Lemma keeps_rows_wf f d d' :
  keeps_rows f → f d = Ok d' → pydict_wf d → pydict_wf d'.
Proof. unfold pydict_wf. intros Hf Hd. by rewrite (Hf _ _ Hd). Qed.

Lemma for_enumerate_keeps_rows {A} (body : pydict Z Source → nat → A → result (pydict Z Source))
    (idx : nat) (l : list A) :
  (∀ i x, keeps_rows (λ d, body d i x)) →
  keeps_rows (for_enumerate body idx l).
Proof.
  intros Hbody. revert idx. induction l as [|x l IH]; intros idx d d'; simpl.
  { by intros [= <-]. }
  destruct (body d idx x) as [d1|] eqn:Hd1; [|done]. simpl.
  intros Hd'. rewrite (IH _ _ _ Hd'). by apply (Hbody idx x).
Qed.

(** *** The frame of the loop body *)

Lemma touches_only_refl _id st : touches_only _id st st.
Proof. split_and!; [done | done | auto]. Qed.

Lemma touches_only_trans _id st1 st2 st3 :
  touches_only _id st1 st2 → touches_only _id st2 st3 → touches_only _id st1 st3.
Proof.
  intros (Hk1 & Hw1 & Hl1) (Hk2 & Hw2 & Hl2). split_and!.
  - by etrans.
  - auto.
  - intros x Hx. destruct (Hl2 x Hx) as [?|?]; auto.
Qed.

Lemma frames_pret {A} _id (x : A) : frames _id (pret x).
Proof. intros st st' r [= <- _]. apply touches_only_refl. Qed.

Lemma frames_lift {A} _id (r : result A) : frames _id (lift r).
Proof. intros st st' r' [= <- _]. apply touches_only_refl. Qed.

Lemma frames_bind {A B} _id (c : prog LoopState A) (k : A → prog LoopState B) :
  frames _id c → (∀ x, frames _id (k x)) → frames _id (pbind c k).
Proof.
  intros Hc Hk st st' r. unfold pbind.
  destruct (c st) as [st1 [x|e]] eqn:Hst1.
  - intros Hk'. eapply touches_only_trans; [by eapply Hc | by eapply Hk].
  - intros [= <- _]. by eapply Hc.
Qed.

Lemma frames_try_except _id (body handler : prog LoopState unit) ex :
  frames _id body → frames _id handler → frames _id (try_except body ex handler).
Proof.
  intros Hb Hh st st' r. unfold try_except.
  destruct (body st) as [st1 [x|e]] eqn:Hst1.
  - intros [= <- _]. by eapply Hb.
  - case_decide.
    + intros Hh'. eapply touches_only_trans; [by eapply Hb | by eapply Hh].
    + intros [= <- _]. by eapply Hb.
Qed.

Lemma frames_on_feature_dict _id f :
  (∀ d d', f d = Ok d' → keys d' ⊆ keys d ∧ (pydict_wf d → pydict_wf d')) →
  frames _id (on_feature_dict f).
Proof.
  intros Hf st st' r. unfold on_feature_dict.
  destruct (f (feature_dict st)) as [d|e] eqn:Hd.
  - intros [= <- _]. destruct (Hf _ _ Hd) as [Hk Hw].
    split_and!; [done | done | auto].
  - intros [= <- _]. apply touches_only_refl.
Qed.

Lemma frames_keeps_rows _id f : keeps_rows f → frames _id (on_feature_dict f).
Proof.
  intros Hf. apply frames_on_feature_dict. intros d d' Hd. split.
  - by rewrite (Hf _ _ Hd).
  - by eapply keeps_rows_wf.
Qed.

Lemma frames_pop_row _id : frames _id (pop_row _id).
Proof.
  apply frames_on_feature_dict. intros d d' [-> _]%pop_Ok. split.
  - apply keys_remove_subseteq.
  - apply remove_wf.
Qed.

Section lc_facts.
Context (w : World) (a : Args) (fgsl : pydict Z Source) (field' ccd' quad' : Z).

Local Abbreviation accept := (accept_source w a fgsl field' ccd' quad').
Local Abbreviation body := (try_body w a fgsl field' ccd' quad').
Local Abbreviation step := (process_lc w a fgsl field' ccd' quad').
Local Abbreviation loop := (lc_loop w a fgsl field' ccd' quad').

Lemma frames_accept_source _id flt tt' mm ee : frames _id (accept _id flt tt' mm ee).
Proof.
  unfold accept_source.
  apply frames_bind.
  { intros st st' r [= <- _]. split_and!; [done | done |]. simpl.
    intros x [?|Hx]%elem_of_app; [auto|].
    apply list_elem_of_singleton in Hx. auto. }
  intros _. apply frames_bind; [apply frames_lift|]. intros cesium_TS.
  apply frames_bind; [apply frames_lift|]. intros hi.
  apply frames_bind; [apply frames_lift|]. intros lo.
  apply frames_bind.
  { intros st st' r [= <- _]. split_and!; [done | done | auto]. }
  intros _. apply frames_bind; [apply frames_lift|]. intros src.
  apply frames_bind; [apply frames_keeps_rows, set_column_keeps_rows|]. intros _.
  apply frames_bind; [apply frames_lift|]. intros src'.
  apply frames_bind; [apply frames_keeps_rows, set_columns_keeps_rows|]. intros _.
  apply frames_bind; [apply frames_lift|]. intros stats.
  apply frames_bind; [apply frames_keeps_rows, set_columns_keeps_rows|]. intros _.
  destruct cesium_TS as [ts|]; [|apply frames_pret].
  apply frames_bind; [apply frames_lift|]. intros feats.
  apply frames_keeps_rows, update_columns_keeps_rows.
Qed.

Lemma frames_process_lc lc : frames (lc_id lc) (step lc).
Proof.
  unfold process_lc. apply frames_try_except; [|apply frames_pop_row].
  unfold try_body. apply frames_bind; [apply frames_lift|]. intros [[t m] e].
  apply frames_bind; [apply frames_lift|]. intros [[tt' mm] ee].
  case_decide; [apply frames_pop_row | apply frames_accept_source].
Qed.

(** Rejection: the row is popped and the loop goes on. *)
Lemma process_lc_malformed lc st :
  malformed lc → lc_id lc ∈ keys (feature_dict st) →
  step lc st = (reject lc st, Ok tt).
Proof.
  intros Hraise%malformed_raises Hin.
  unfold process_lc, try_except, try_body, pbind, lift. rewrite Hraise.
  rewrite decide_True by done.
  unfold pop_row, on_feature_dict. by rewrite pop_elem.
Qed.

Lemma process_lc_too_short_run lc st :
  too_short w a lc →
  step lc st =
    match pop (feature_dict st) (lc_id lc) with
    | Ok d => (with_feature_dict d st, Ok tt)
    | Raise e => (st, Raise e)
    end.
Proof.
  intros (t & m & e & tt' & mm & ee & Hun & Hrhc & Hlen).
  unfold process_lc, try_except, try_body, pbind, lift. rewrite Hun, Hrhc.
  rewrite decide_True by done.
  unfold pop_row, on_feature_dict, pop.
  destruct (dget (feature_dict st) (lc_id lc)); [done|].
  by rewrite decide_False.
Qed.

Lemma process_lc_too_short lc st :
  too_short w a lc → lc_id lc ∈ keys (feature_dict st) →
  step lc st = (reject lc st, Ok tt).
Proof.
  intros Hshort Hin. rewrite process_lc_too_short_run by done.
  by rewrite pop_elem.
Qed.

Lemma lc_loop_cons lc lcs st :
  loop (lc :: lcs) st =
    match step lc st with
    | (st', Ok _) => loop lcs st'
    | (st', Raise e) => (st', Raise e)
    end.
Proof. unfold lc_loop. cbn [for_each]. unfold pbind. done. Qed.

Lemma lc_loop_app lcs1 lcs2 st :
  loop (lcs1 ++ lcs2) st =
    match loop lcs1 st with
    | (st', Ok _) => loop lcs2 st'
    | (st', Raise e) => (st', Raise e)
    end.
Proof.
  revert st. induction lcs1 as [|lc lcs1 IH]; intros st; [done|].
  rewrite <- app_comm_cons, !lc_loop_cons.
  destruct (step lc st) as [st1 [[]|e]]; [apply IH | done].
Qed.

(** Whatever the loop does, rows are only removed and only the ids of the
    light curves it saw are in [keep_id_list]. *)
Lemma lc_loop_frame lcs st st' r :
  loop lcs st = (st', r) →
  keys (feature_dict st') ⊆ keys (feature_dict st) ∧
  (pydict_wf (feature_dict st) → pydict_wf (feature_dict st')) ∧
  (∀ x, x ∈ keep_id_list st' → x ∈ keep_id_list st ∨ x ∈ lc_id <$> lcs).
Proof.
  revert st. induction lcs as [|lc lcs IH]; intros st.
  { intros [= <- _]. split_and!; [done | done | auto]. }
  rewrite lc_loop_cons. destruct (step lc st) as [st1 [[]|e]] eqn:Hstep.
  - intros Hrest. destruct (frames_process_lc lc _ _ _ Hstep) as (Hk1 & Hw1 & Hl1).
    destruct (IH _ Hrest) as (Hk2 & Hw2 & Hl2). split_and!.
    + by etrans.
    + auto.
    + intros x Hx. rewrite fmap_cons, elem_of_cons.
      destruct (Hl2 x Hx) as [Hx1|?]; [|auto].
      destruct (Hl1 x Hx1) as [?|?]; auto.
  - intros [= <- _]. destruct (frames_process_lc lc _ _ _ Hstep) as (Hk1 & Hw1 & Hl1).
    split_and!; [done | done |].
    intros x Hx. rewrite fmap_cons, elem_of_cons.
    destruct (Hl1 x Hx) as [?|?]; auto.
Qed.
End lc_facts.

(** ** The stages after the loop *)

Section stage_facts.
Context (w : World) (a : Args).

Lemma fourier_row_keeps_rows algorithm pd tmes idx _id :
  keeps_rows (λ d, fourier_row w algorithm pd tmes d idx _id).
Proof.
  intros d d'. unfold fourier_row.
  destruct (lookup_key (period_dict pd) algorithm) as [periods|]; [|done].
  cbn [rbind]. destruct (index periods idx) as [period|]; [|done].
  cbn [rbind]. destruct (lookup_key (significance_dict pd) algorithm)
    as [significances|]; [|done].
  cbn [rbind]. destruct (index significances idx) as [significance|]; [|done].
  cbn [rbind]. destruct (lookup_key (pdot_dict pd) algorithm) as [pdots|]; [|done].
  cbn [rbind]. destruct (index pdots idx) as [pdot|]; [|done].
  cbn [rbind]. destruct (index tmes idx) as [[[tt' mm] ee]|]; [|done].
  cbn [rbind]. destruct (calc_fourier_stats w tt' mm ee period) as [r|]; [|done].
  cbn [rbind]. destruct (unpack 14 r) as [stats|]; [|done].
  cbn [rbind].
  destruct (set_columns d _id _) as [d1|] eqn:Hd1; [|done]. cbn [rbind].
  intros Hd'. rewrite (set_columns_keeps_rows _ _ _ _ Hd').
  by apply (set_columns_keeps_rows _ _ _ _ Hd1).
Qed.

Lemma fourier_stage_keeps_rows algorithms pd ids tmes :
  keeps_rows (fourier_stage w algorithms pd ids tmes).
Proof.
  induction algorithms as [|algorithm rest IH]; intros d d'; simpl.
  { by intros [= <-]. }
  destruct (for_enumerate _ 0 ids d) as [d1|] eqn:Hd1; [|done]. simpl.
  intros Hd'. rewrite (IH _ _ Hd').
  eapply (for_enumerate_keeps_rows _ 0 ids); [|exact Hd1].
  intros i x. apply fourier_row_keeps_rows.
Qed.

Lemma dmdt_row_keeps_rows tmes idx _id :
  keeps_rows (λ d, dmdt_row w tmes d idx _id).
Proof.
  intros d d'. unfold dmdt_row.
  destruct (index tmes idx) as [[[tt' mm] ee]|]; [|done]. cbn [rbind].
  destruct (compute_dmdt w tt' mm) as [dmdt|]; [|done]. cbn [rbind].
  apply set_column_keeps_rows.
Qed.

Lemma alert_stage_keeps_rows alert_stats_dct ids :
  keeps_rows (alert_stage alert_stats_dct ids).
Proof.
  induction ids as [|_id rest IH]; intros d d'; simpl.
  { by intros [= <-]. }
  destruct (getitem alert_stats_dct _id) as [row|]; [|done]. cbn [rbind].
  destruct (lookup_key row "n_ztf_alerts") as [n|]; [|done]. cbn [rbind].
  destruct (set_column d _id "n_ztf_alerts" n) as [d1|] eqn:Hd1; [|done].
  cbn [rbind].
  destruct (lookup_key row "mean_ztf_alert_braai") as [braai|]; [|done].
  cbn [rbind].
  destruct (set_column d1 _id "mean_ztf_alert_braai" braai) as [d2|] eqn:Hd2;
    [|done].
  cbn [rbind]. intros Hd'. rewrite (IH _ _ Hd').
  rewrite (set_column_keeps_rows _ _ _ _ _ Hd2).
  by apply (set_column_keeps_rows _ _ _ _ _ Hd1).
Qed.

(** The rows of the table are what [xmatch] returns for a dictionary with
    the rows the loop left. *)
Lemma features_stage_rows st tr tr' rows :
  features_stage w a st tr = (tr', Ok rows) →
  ∃ d, keys d = keys (feature_dict st) ∧
       xmatch w d (xmatch_radius_arcsec a) (limit a) = Ok rows.
Proof.
  unfold features_stage, pbind, lift, call.
  destruct (frequency_grid _ _ _) as [grid|]; [|done].
  destruct (period_stage w a _ _ _ tr) as [tr1 [[algorithms pd]|]]; [|done].
  destruct (fourier_stage w algorithms pd _ _ _) as [d1|] eqn:Hd1; [|done].
  destruct (for_enumerate _ 0 _ d1) as [d2|] eqn:Hd2; [|done].
  destruct (get_ztf_alert_stats w d2 _ _) as [alerts|]; [|done].
  destruct (alert_stage alerts (keys d2) d2) as [d3|] eqn:Hd3; [|done].
  intros [= <- Hx]. exists d3. split; [|done].
  rewrite (alert_stage_keeps_rows _ _ _ _ Hd3).
  rewrite (for_enumerate_keeps_rows _ 0 _ (dmdt_row_keeps_rows _) _ _ Hd2).
  by apply (fourier_stage_keeps_rows _ _ _ _ _ _ Hd1).
Qed.

(** Both period-search flags: the stage raises once the grid is built,
    before any period search; if the grid itself cannot be computed, its
    exception comes first. *)
Lemma features_stage_both_flags st tr :
  doCPU a = true → doGPU a = true →
  features_stage w a st tr =
    (tr, match frequency_grid (f64_of_Q (baseline st)) (samples_per_peak a)
                              (doLongPeriod a) with
         | Ok _ => Raise KeyError
         | Raise e => Raise e
         end).
Proof.
  intros Hcpu Hgpu. unfold features_stage, pbind, lift.
  destruct (frequency_grid _ _ _) as [g|e]; [|done].
  unfold period_stage. by rewrite Hcpu, Hgpu.
Qed.

Lemma generate_features_unfold tr region tr1 fgsl lcs st :
  region_of w a = Ok region →
  fetch_stage w a region tr = (tr1, Ok (fgsl, lcs)) →
  lc_loop w a fgsl region.1.1 region.1.2 region.2 lcs (initial_state fgsl)
    = (st, Ok tt) →
  generate_features w a tr = finish w a region st tr1.
Proof.
  intros Hregion Hfetch Hloop. unfold generate_features, pbind, lift, run_local.
  by rewrite Hregion, Hfetch, Hloop.
Qed.

Lemma finish_empty region st tr :
  Qltb 0 (baseline st) = false →
  finish w a region st tr =
    match save w a region (mkDF [] (metadata w a)) tr with
    | (tr', Ok _) => (tr', Ok (mkDF [] (metadata w a)))
    | (tr', Raise e) => (tr', Raise e)
    end.
Proof.
  intros Hb. unfold finish, pbind, pret. rewrite Hb.
  by destruct (save w a region _ tr) as [tr' [[]|e]].
Qed.
End stage_facts.

(** ** Examples of whole runs *)

Example demo_run_both_flags :
  generate_features (DemoRun.world [DemoRun.lc_good; DemoRun.lc_short])
                    (DemoRun.args true true) []
  = (DemoRun.fetched, Raise KeyError).
Proof. vm_compute. reflexivity. Qed.

Example demo_run_keys :
  match generate_features (DemoRun.world [DemoRun.lc_good; DemoRun.lc_short])
                          (DemoRun.args true false) [] with
  | (tr, Ok df) => (tr, keys (rows df))
  | (tr, Raise _) => (tr, [])
  end
  = (DemoRun.fetched ++ [EvFindPeriods "LS"; EvAlertStats; EvExternalXmatch;
                         EvWriteMeta; EvWriteParquet 1],
     [1%Z]).
Proof. vm_compute. reflexivity. Qed.

(** ** Claims about the light-curve loop and the run *)

Section run_claims.
Context (w : World) (a : Args).

Implicit Types (fgsl : pydict Z Source) (lcs : list LightCurve) (st : LoopState).

(** A batch of rejected light curves leaves [baseline] and [keep_id_list]
    as they were and does not raise. *)
Lemma lc_loop_all_rejected fgsl f c q lcs st :
  NoDup (lc_id <$> lcs) →
  (∀ lc, lc ∈ lcs → lc_id lc ∈ keys (feature_dict st)) →
  Forall (λ lc, malformed lc ∨ too_short w a lc) lcs →
  ∃ d, lc_loop w a fgsl f c q lcs st = (with_feature_dict d st, Ok tt).
Proof.
  revert st. induction lcs as [|lc lcs IH]; intros st Hnd Hin Hrej.
  { exists (feature_dict st). by destruct st. }
  rewrite fmap_cons in Hnd. apply NoDup_cons in Hnd as [Hfresh Hnd].
  apply Forall_cons in Hrej as [Hlc Hrej].
  assert (process_lc w a fgsl f c q lc st = (reject lc st, Ok tt)) as Hstep.
  { destruct Hlc; [apply process_lc_malformed | apply process_lc_too_short];
      try done; apply Hin; by left. }
  destruct (IH (reject lc st)) as [d Hd]; [done | | done |].
  - intros lc' Hlc'. apply dget_is_Some. simpl. rewrite dget_remove_ne.
    + apply dget_is_Some, Hin. by right.
    + intros Heq. apply Hfresh. rewrite <- Heq.
      apply list_elem_of_fmap. by exists lc'.
  - exists d. rewrite lc_loop_cons, Hstep. by rewrite Hd.
Qed.

(** The row of a short series is gone when the loop ends, and its id is
    not in [keep_id_list]. *)
Lemma lc_loop_too_short fgsl f c q lcs st lc :
  pydict_wf fgsl →
  NoDup (lc_id <$> lcs) →
  lc ∈ lcs → too_short w a lc →
  lc_loop w a fgsl f c q lcs (initial_state fgsl) = (st, Ok tt) →
  (lc_id lc ∉ keys (feature_dict st)) ∧ (lc_id lc ∉ keep_id_list st).
Proof.
  intros Hwf Hnd (pre & post & ->)%list_elem_of_split Hshort Hloop.
  rewrite fmap_app, fmap_cons in Hnd.
  apply NoDup_app in Hnd as (_ & Hpre & Hnd).
  apply NoDup_cons in Hnd as [Hpost _].
  rewrite lc_loop_app in Hloop.
  destruct (lc_loop w a fgsl f c q pre (initial_state fgsl)) as [st1 [[]|e]] eqn:H1;
    [|done].
  rewrite lc_loop_cons in Hloop.
  destruct (process_lc w a fgsl f c q lc st1) as [st2 [[]|e]] eqn:H2; [|done].
  destruct (lc_loop_frame _ _ _ _ _ _ _ _ _ _ H1) as (_ & Hwf1 & Hl1).
  destruct (lc_loop_frame _ _ _ _ _ _ _ _ _ _ Hloop) as (Hk3 & _ & Hl3).
  rewrite process_lc_too_short_run in H2 by done.
  destruct (pop (feature_dict st1) (lc_id lc)) as [d|] eqn:Hpop; [|done].
  apply pop_Ok in Hpop as [-> _]. simplify_eq.
  assert (lc_id lc ∉ keep_id_list st1) as Hnot1.
  { intros Hx. destruct (Hl1 _ Hx) as [Hx'|Hx']; [by apply elem_of_nil in Hx'|].
    apply (Hpre _ Hx'). by left. }
  split.
  - intros Hx. apply Hk3 in Hx. revert Hx. simpl.
    apply not_elem_of_keys_remove. by apply Hwf1.
  - intros Hx. destruct (Hl3 _ Hx) as [Hx'|Hx']; done.
Qed.

(** C7.  A light curve that has fewer than [min_n_lc_points] points after
    cadence collapsing has its row popped on the spot; when the loop ends its
    id is neither a key of [feature_dict] nor in [keep_id_list], the only
    two collections the later stages iterate over, and the table returned
    has no row for it (the cross-match collaborator adding no row of its
    own). *)
Theorem short_series_removed tr region tr1 fgsl lcs st tr2 df lc :
  region_of w a = Ok region →
  fetch_stage w a region tr = (tr1, Ok (fgsl, lcs)) →
  lc_loop w a fgsl region.1.1 region.1.2 region.2 lcs (initial_state fgsl)
    = (st, Ok tt) →
  finish w a region st tr1 = (tr2, Ok df) →
  pydict_wf fgsl →
  NoDup (lc_id <$> lcs) →
  (∀ d d', xmatch w d (xmatch_radius_arcsec a) (limit a) = Ok d' → keys d' ⊆ keys d) →
  lc ∈ lcs →
  too_short w a lc →
  (∀ st0, lc_id lc ∈ keys (feature_dict st0) →
     process_lc w a fgsl region.1.1 region.1.2 region.2 lc st0
       = (reject lc st0, Ok tt)) ∧
  generate_features w a tr = (tr2, Ok df) ∧
  (lc_id lc ∉ keys (feature_dict st)) ∧
  (lc_id lc ∉ keep_id_list st) ∧
  (lc_id lc ∉ keys (rows df)).
Proof.
  intros Hregion Hfetch Hloop Hfinish Hwf Hnd Hxmatch Hin Hshort.
  destruct (lc_loop_too_short _ _ _ _ _ _ _ Hwf Hnd Hin Hshort Hloop)
    as [Hrow Hkeep].
  split_and!; [| | done | done |].
  - intros st0 Hst0. by apply process_lc_too_short.
  - by rewrite (generate_features_unfold w a tr region tr1 fgsl lcs st).
  - unfold finish, pbind, pret in Hfinish.
    destruct (Qltb 0 (baseline st)).
    + destruct (features_stage w a st tr1) as [tr3 [rows'|]] eqn:Hstage; [|done].
      destruct (save w a region _ tr3) as [tr4 [[]|]]; [|done].
      simplify_eq. simpl.
      destruct (features_stage_rows _ _ _ _ _ _ Hstage) as (d & Hd & Hx).
      intros Hrows. apply (Hxmatch _ _ Hx) in Hrows. by rewrite Hd in Hrows.
    + destruct (save w a region _ tr1) as [tr4 [[]|]]; [|done].
      simplify_eq. simpl. apply not_elem_of_nil.
Qed.

(** C8.  When no light curve meets the selection criteria the run does not
    raise: it returns the table without rows, with its metadata, once the
    table is saved. *)
Theorem no_survivors_empty_table tr region tr1 fgsl lcs tr2 :
  region_of w a = Ok region →
  fetch_stage w a region tr = (tr1, Ok (fgsl, lcs)) →
  NoDup (lc_id <$> lcs) →
  (∀ lc, lc ∈ lcs → lc_id lc ∈ keys fgsl) →
  Forall (λ lc, malformed lc ∨ too_short w a lc) lcs →
  save w a region (mkDF [] (metadata w a)) tr1 = (tr2, Ok tt) →
  generate_features w a tr = (tr2, Ok (mkDF [] (metadata w a))).
Proof.
  intros Hregion Hfetch Hnd Hin Hrej Hsave.
  destruct (lc_loop_all_rejected fgsl region.1.1 region.1.2 region.2 lcs
              (initial_state fgsl) Hnd Hin Hrej) as [d Hloop].
  rewrite (generate_features_unfold w a tr region tr1 fgsl lcs _ Hregion Hfetch Hloop).
  rewrite finish_empty by done. by rewrite Hsave.
Qed.

(** C2, as the code has it.  With both period-search flags set the run
    raises [KeyError] when it reaches the period search: the id query, the
    cone searches and the light-curve retrieval are already in the trace,
    nothing is queried afterwards, and this happens only when some light
    curve gave a positive baseline.  The frequency grid is built just before
    the flags are looked at; should that raise, the run ends there with the
    same trace and that exception.  With no positive baseline the flags are
    never looked at and the run goes on to save the empty table. *)
Theorem both_flags_raise_at_period_search tr region tr1 fgsl lcs st :
  doCPU a = true → doGPU a = true →
  region_of w a = Ok region →
  fetch_stage w a region tr = (tr1, Ok (fgsl, lcs)) →
  lc_loop w a fgsl region.1.1 region.1.2 region.2 lcs (initial_state fgsl)
    = (st, Ok tt) →
  (∃ cone_searches,
     Forall (λ ev, ∃ n, ev = EvConeSearch (gaia_catalog a) n) cone_searches ∧
     tr1 = tr ++ [EvGetIds region.1.1 region.1.2 region.2] ++ cone_searches
              ++ [EvGetLightcurves (length fgsl)]) ∧
  ((0 < baseline st)%Q →
     generate_features w a tr =
       (tr1, match frequency_grid (f64_of_Q (baseline st)) (samples_per_peak a)
                                  (doLongPeriod a) with
             | Ok _ => Raise KeyError
             | Raise e => Raise e
             end)) ∧
  ((baseline st <= 0)%Q →
     generate_features w a tr =
       match save w a region (mkDF [] (metadata w a)) tr1 with
       | (tr', Ok _) => (tr', Ok (mkDF [] (metadata w a)))
       | (tr', Raise e) => (tr', Raise e)
       end).
Proof.
  intros Hcpu Hgpu Hregion Hfetch Hloop.
  rewrite (generate_features_unfold w a tr region tr1 fgsl lcs st Hregion Hfetch Hloop).
  split_and!.
  - destruct region as [[f c] q]. revert Hfetch.
    unfold fetch_stage, pbind, call, lift, pret.
    destruct (get_ids_loop w _ _ f c q _) as [lst|]; [|done].
    destruct (index lst 0) as [lst0|]; [|done].
    destruct (drop_close_bright_stars _ _ _ _ _ _ _ _ lst0 _)
      as [tr3 [kept|]] eqn:Hdrop; [|done].
    destruct (get_lightcurves_via_ids w _ _ _) as [lcs'|]; [|done].
    intros [= <- <- <-].
    destruct (drop_close_bright_stars_trace _ _ _ _ _ _ _ _ _ _ _ _ Hdrop)
      as (evs & -> & Hevs).
    exists evs. split; [done|]. simpl. by rewrite <- !app_assoc.
  - intros Hpos. apply Qltb_lt in Hpos. unfold finish, pbind. rewrite Hpos.
    rewrite features_stage_both_flags by done.
    by destruct (frequency_grid _ _ _).
  - intros Hzero. apply Qltb_ge in Hzero. by apply finish_empty.
Qed.
End run_claims.

(** ** Records with missing fields *)

Lemma lookup_key_Ok {V} (m : gmap string V) k v : lookup_key m k = Ok v ↔ m !! k = Some v.
Proof. unfold lookup_key. destruct (m !! k); simpl; split; congruence. Qed.

Lemma lookup_key_Raise {V} (m : gmap string V) k e :
  lookup_key m k = Raise e ↔ m !! k = None ∧ e = KeyError.
Proof.
  unfold lookup_key. destruct (m !! k); simpl; split; try done.
  - by intros [? _].
  - by intros [= <-].
  - by intros [_ ->].
Qed.

Lemma raw_unflagged_Raise data e : raw_unflagged data = Raise e → e = KeyError.
Proof.
  induction data as [|x rest IH]; [done|]. cbn [raw_unflagged].
  destruct (lookup_key x "catflags") as [flags|e'] eqn:Hx; cbn [rbind].
  - destruct (raw_unflagged rest) as [rest'|e'']; cbn [rbind]; [done|].
    intros [= <-]. by apply IH.
  - intros [= <-]. by apply lookup_key_Raise in Hx as [_ ->].
Qed.

Lemma raw_unflagged_missing data x :
  x ∈ data → x !! "catflags"%string = None → raw_unflagged data = Raise KeyError.
Proof.
  intros Hin Hx. induction data as [|y rest IH]; [by apply elem_of_nil in Hin|].
  cbn [raw_unflagged]. apply elem_of_cons in Hin as [<- | Hin].
  - unfold lookup_key. by rewrite Hx.
  - destruct (lookup_key y "catflags") as [flags|e'] eqn:Hy; cbn [rbind].
    + by rewrite IH.
    + by apply lookup_key_Raise in Hy as [_ ->].
Qed.

Lemma raw_unflagged_Ok data u :
  raw_unflagged data = Ok u →
  ∀ x, x ∈ u ↔ x ∈ data ∧ ∃ flags, x !! "catflags"%string = Some flags ∧
                                    Qeq_bool flags 0 = true.
Proof.
  revert u. induction data as [|y rest IH]; intros u; cbn [raw_unflagged].
  { intros [= <-] x. split.
    - by intros ?%elem_of_nil.
    - intros [Hx _]. by apply elem_of_nil in Hx. }
  destruct (lookup_key y "catflags") as [flags|] eqn:Hy; [|done]. cbn [rbind].
  apply lookup_key_Ok in Hy.
  destruct (raw_unflagged rest) as [rest'|]; [|done]. cbn [rbind].
  intros [= <-] x. specialize (IH _ eq_refl x).
  destruct (Qeq_bool flags 0) eqn:Hflags.
  - rewrite !elem_of_cons, IH. split.
    + intros [-> | [? ?]]; [|by auto]. split; [by left | eauto].
    + intros [[-> | ?] ?]; [by left | by right].
  - rewrite elem_of_cons, IH. split.
    + intros [? ?]. by auto.
    + intros [[-> | ?] (flags' & Hf & Hz)]; [congruence | split; eauto].
Qed.

Lemma raw_tme_Raise u e : raw_tme u = Raise e → e = KeyError.
Proof.
  unfold raw_tme. induction u as [|x rest IH]; [done|]. cbn [map_result].
  destruct (lookup_key x "hjd") as [t|e1] eqn:Ht; cbn [rbind].
  2:{ intros [= <-]. by apply lookup_key_Raise in Ht as [_ ->]. }
  destruct (lookup_key x "mag") as [m|e2] eqn:Hm; cbn [rbind].
  2:{ intros [= <-]. by apply lookup_key_Raise in Hm as [_ ->]. }
  destruct (lookup_key x "magerr") as [e3|e3] eqn:He; cbn [rbind].
  2:{ intros [= <-]. by apply lookup_key_Raise in He as [_ ->]. }
  destruct (map_result _ rest) as [rest'|e4]; cbn [rbind]; [done|].
  intros [= <-]. by apply IH.
Qed.

Lemma raw_tme_missing u x :
  x ∈ u →
  x !! "hjd"%string = None ∨ x !! "mag"%string = None ∨ x !! "magerr"%string = None →
  raw_tme u = Raise KeyError.
Proof.
  intros Hin Hx. destruct (raw_tme u) as [tme|e] eqn:Hu.
  2:{ by apply raw_tme_Raise in Hu as ->. }
  exfalso. revert tme Hu. unfold raw_tme.
  induction u as [|y rest IH]; [by apply elem_of_nil in Hin|].
  intros tme. cbn [map_result].
  destruct (lookup_key y "hjd") as [t|] eqn:Ht; [|done]. cbn [rbind].
  destruct (lookup_key y "mag") as [m|] eqn:Hm; [|done]. cbn [rbind].
  destruct (lookup_key y "magerr") as [e|] eqn:He; [|done]. cbn [rbind].
  destruct (map_result _ rest) as [rest'|] eqn:Hrest; [|done]. cbn [rbind].
  intros _. apply elem_of_cons in Hin as [-> | Hin]; [|by eapply IH].
  apply lookup_key_Ok in Ht, Hm, He. destruct Hx as [? | [? | ?]]; congruence.
Qed.

Lemma Qeq_bool_inject_Z (z : Z) : Qeq_bool (inject_Z z) 0 = bool_decide (z = 0%Z).
Proof.
  unfold Qeq_bool, inject_Z. simpl. rewrite Z.mul_1_r.
  destruct z; by rewrite ?bool_decide_eq_true_2 by done.
Qed.

Lemma raw_unflagged_epochs (data : list Epoch) :
  raw_unflagged (epoch_dict <$> data)
  = Ok (epoch_dict <$> filter (λ x, catflags x = 0%Z) data).
Proof.
  induction data as [|x rest IH]; [done|].
  rewrite fmap_cons. cbn [raw_unflagged]. rewrite IH.
  assert (lookup_key (epoch_dict x) "catflags" = Ok (inject_Z (catflags x))) as ->.
  { apply lookup_key_Ok. unfold epoch_dict.
    rewrite !lookup_insert_ne by done. apply lookup_singleton_eq. }
  cbn [rbind]. rewrite Qeq_bool_inject_Z, filter_cons.
  case_bool_decide; case_decide; done.
Qed.

Lemma raw_tme_epochs (l : list Epoch) :
  raw_tme (epoch_dict <$> l) = Ok ((λ x, (hjd x, mag x, magerr x)) <$> l).
Proof.
  unfold raw_tme. induction l as [|x rest IH]; [done|].
  rewrite !fmap_cons. cbn [map_result]. rewrite IH.
  assert (lookup_key (epoch_dict x) "hjd" = Ok (hjd x)) as ->.
  { apply lookup_key_Ok. unfold epoch_dict. apply lookup_insert_eq. }
  assert (lookup_key (epoch_dict x) "mag" = Ok (mag x)) as ->.
  { apply lookup_key_Ok. unfold epoch_dict.
    rewrite lookup_insert_ne by done. apply lookup_insert_eq. }
  assert (lookup_key (epoch_dict x) "magerr" = Ok (magerr x)) as ->.
  { apply lookup_key_Ok. unfold epoch_dict.
    rewrite !lookup_insert_ne by done. apply lookup_insert_eq. }
  done.
Qed.

Section record_facts.
Context (w : World) (a : Args) (fgsl : pydict Z Source) (field' ccd' quad' : Z).

Local Abbreviation step := (process_record w a fgsl field' ccd' quad').
Local Abbreviation loop := (record_loop w a fgsl field' ccd' quad').

Lemma record_loop_cons lc lcs st :
  loop (lc :: lcs) st =
    match step lc st with
    | (st', Ok _) => loop lcs st'
    | (st', Raise e) => (st', Raise e)
    end.
Proof. unfold record_loop. cbn [for_each]. unfold pbind. done. Qed.

(** on a record whose epochs carry their fields the iteration is the one
    of [process_lc] *)
Lemma process_record_of (lc : LightCurve) st :
  step (record_of lc) st = process_lc w a fgsl field' ccd' quad' lc st.
Proof.
  unfold process_record, process_lc, pbind, lift. cbn [raw_data raw_id raw_filter record_of].
  rewrite raw_unflagged_epochs, raw_tme_epochs. done.
Qed.

Lemma record_loop_of (lcs : list LightCurve) st :
  loop (record_of <$> lcs) st = lc_loop w a fgsl field' ccd' quad' lcs st.
Proof.
  revert st. induction lcs as [|lc lcs IH]; intros st; [done|].
  rewrite fmap_cons, record_loop_cons, lc_loop_cons, process_record_of.
  destruct (process_lc _ _ _ _ _ _ lc st) as [st' [[]|e]]; [apply IH | done].
Qed.

Lemma process_record_empty lc st :
  empty_series lc → raw_id lc ∈ keys (feature_dict st) →
  step lc st = (with_feature_dict (remove (feature_dict st) (raw_id lc)) st, Ok tt).
Proof.
  intros Hempty Hin. unfold process_record, pbind, lift. rewrite Hempty.
  cbn [raw_tme map_result]. unfold try_except, try_body, pbind, lift.
  cbn [unpack_columns]. rewrite decide_True by done.
  unfold pop_row, on_feature_dict. by rewrite pop_elem.
Qed.

Lemma process_record_unparsable lc st :
  unparsable lc → step lc st = (st, Raise KeyError).
Proof.
  intros Hbad. unfold process_record, pbind, lift.
  destruct (raw_unflagged (raw_data lc)) as [u|e] eqn:Hu.
  2:{ by apply raw_unflagged_Raise in Hu as ->. }
  destruct Hbad as [(x & Hin & Hx) | (x & flags & Hin & Hflags & Hzero & Hx)].
  { by rewrite (raw_unflagged_missing _ _ Hin Hx) in Hu. }
  rewrite (raw_tme_missing u x); [done | | done].
  apply (raw_unflagged_Ok _ _ Hu). eauto.
Qed.

(** C3, as the code has it.  A record whose series is empty once the
    flagged epochs are taken out does not unpack into three columns: its row
    is popped from [feature_dict], nothing else changes and the loop goes on
    with the remaining records.  A record that does not parse, because an
    epoch lacks [catflags] or an unflagged epoch lacks [hjd], [mag] or
    [magerr], raises [KeyError] at line 318 or 321, before the [try]: the
    loop stops there with the locals as they were.  On records whose epochs
    carry the four fields the loop is [lc_loop]. *)
Theorem malformed_series_rejected (lc : RawLightCurve) rest st :
  (empty_series lc →
   raw_id lc ∈ keys (feature_dict st) →
   pydict_wf (feature_dict st) →
   process_record w a fgsl field' ccd' quad' lc st
     = (with_feature_dict (remove (feature_dict st) (raw_id lc)) st, Ok tt) ∧
   (raw_id lc ∉ keys (remove (feature_dict st) (raw_id lc))) ∧
   record_loop w a fgsl field' ccd' quad' (lc :: rest) st
     = record_loop w a fgsl field' ccd' quad' rest
         (with_feature_dict (remove (feature_dict st) (raw_id lc)) st)) ∧
  (unparsable lc →
   process_record w a fgsl field' ccd' quad' lc st = (st, Raise KeyError) ∧
   record_loop w a fgsl field' ccd' quad' (lc :: rest) st = (st, Raise KeyError)) ∧
  (∀ lcs : list LightCurve,
     record_loop w a fgsl field' ccd' quad' (record_of <$> lcs) st
     = lc_loop w a fgsl field' ccd' quad' lcs st).
Proof.
  split_and!.
  - intros Hempty Hin Hwf.
    pose proof (process_record_empty lc st Hempty Hin) as Hstep.
    split_and!; [done | by apply not_elem_of_keys_remove |].
    by rewrite record_loop_cons, Hstep.
  - intros Hbad. pose proof (process_record_unparsable lc st Hbad) as Hstep.
    split; [done|]. by rewrite record_loop_cons, Hstep.
  - intros lcs. apply record_loop_of.
Qed.
End record_facts.

(** ** The frequency grid *)




(** The rounding of a rational: it agrees with the binary64 division on
    small operands, breaks ties to even (2^53 + 1 goes down, 2^53 + 3 goes
    up), reaches the subnormal numbers and overflows to an infinity. *)
Example f64_of_Q_rounds :
  f64_of_Q (1 # 10) = PrimFloat.div (f64_of_int 1) (f64_of_int 10) ∧
  f64_of_Q (-7 # 3) = PrimFloat.div (f64_of_int (-7)) (f64_of_int 3) ∧
  FloatOps.Prim2SF (f64_of_Q (2 ^ 53 + 1))
    = SpecFloat.S754_finite false 4503599627370496 1 ∧
  FloatOps.Prim2SF (f64_of_Q (2 ^ 53 + 3))
    = SpecFloat.S754_finite false 4503599627370498 1 ∧
  FloatOps.Prim2SF (f64_of_Q (1 # 2 ^ 1074)) = SpecFloat.S754_finite false 1 (-1074) ∧
  FloatOps.Prim2SF (f64_of_Q (1 # 2 ^ 1075)) = SpecFloat.S754_zero false ∧
  FloatOps.Prim2SF (f64_of_Q (3 # 2 ^ 1075)) = SpecFloat.S754_finite false 2 (-1074) ∧
  FloatOps.Prim2SF (f64_of_Q (2 ^ 1024)) = SpecFloat.S754_infinity false.
Proof. split_and!; vm_compute; reflexivity. Qed.

(** The grid can fail to be computed: for the smallest positive baseline
    [2 / baseline] and [df] overflow and [int(np.ceil(nan))] raises. *)
Example frequency_grid_overflow :
  PrimFloat.ltb (f64_of_int 0) (f64_of_Q (1 # 2 ^ 1074)) = true ∧
  frequency_grid (f64_of_Q (1 # 2 ^ 1074)) 10 false = Raise ValueError.
Proof. split; vm_compute; reflexivity. Qed.

(** *** Binary64 facts behind the first point *)










(** ** The claims on the small run *)





(** C3 on the record of a light curve whose only epoch is flagged. *)
Lemma malformed_series_rejected_witness :
  process_record (DemoRun.world []) (DemoRun.args false false) DemoRun.fgsl 296 1 1
                 (record_of DemoRun.lc_flagged) (initial_state DemoRun.fgsl)
  = (mkLoop [(1%Z, Demo.src)] 0%Q [] [], Ok tt).
Proof.
  destruct (malformed_series_rejected (DemoRun.world []) (DemoRun.args false false)
              DemoRun.fgsl 296 1 1 (record_of DemoRun.lc_flagged) []
              (initial_state DemoRun.fgsl)) as (Hempty & _ & _).
  destruct Hempty as (Hstep & _ & _).
  - vm_compute. reflexivity.
  - apply (bool_decide_unpack _). vm_compute. exact I.
  - apply (bool_decide_unpack _). vm_compute. exact I.
  - exact Hstep.
Defined.

(** C3 fails as stated on a record that does not parse: the only epoch of
    the first record has no [mag].  The loop raises [KeyError] on it; the
    row of its source is still there and the record after it, which would
    have been accepted, is never looked at. *)
Lemma unparsable_record_counterexample :
  unparsable DemoEdge.record_no_mag ∧
  record_loop (DemoRun.world []) (DemoRun.args false false) DemoRun.fgsl 296 1 1
              [DemoEdge.record_no_mag; record_of DemoRun.lc_good]
              (initial_state DemoRun.fgsl)
  = (initial_state DemoRun.fgsl, Raise KeyError) ∧
  keep_id_list
    (record_loop (DemoRun.world []) (DemoRun.args false false) DemoRun.fgsl 296 1 1
                 [record_of DemoRun.lc_good] (initial_state DemoRun.fgsl)).1
  = [1%Z].
Proof.
  split_and!.
  - right. exists {[ "hjd"%string := 0%Q; "magerr"%string := (1 # 10)%Q;
                     "catflags"%string := 0%Q ]}, 0%Q.
    split_and!; [by left | vm_compute; reflexivity | reflexivity |].
    right. left. vm_compute. reflexivity.
  - vm_compute. reflexivity.
  - vm_compute. reflexivity.
Qed.

(** C7 on the run with a good light curve for source 1 and a single epoch
    for source 3: the table has no row 3. *)
Lemma short_series_removed_witness :
  3%Z ∉ keys (rows (DemoRun.table [DemoRun.lc_good; DemoRun.lc_short]
                                  (DemoRun.args true false))).
Proof.
  pose (lcs := [DemoRun.lc_good; DemoRun.lc_short]).
  pose (a := DemoRun.args true false).
  destruct (short_series_removed (DemoRun.world lcs) a [] DemoRun.region
              DemoRun.fetched DemoRun.fgsl lcs (DemoRun.loop_end lcs a)
              (DemoRun.finished lcs a) (DemoRun.table lcs a) DemoRun.lc_short)
    as (_ & _ & _ & _ & Hrow).
  - reflexivity.
  - vm_compute. reflexivity.
  - vm_compute. reflexivity.
  - vm_compute. reflexivity.
  - apply (bool_decide_unpack _). vm_compute. exact I.
  - apply (bool_decide_unpack _). vm_compute. exact I.
  - intros d d' [= <-]. done.
  - right. left.
  - exists [0%Q], [15%Q], [(1 # 10)%Q], [0%Q], [15%Q], [(1 # 10)%Q].
    split_and!; reflexivity.
  - exact Hrow.
Defined.

(** C8 on the run whose only light curve has nothing but a flagged epoch. *)
Lemma no_survivors_empty_table_witness :
  generate_features (DemoRun.world [DemoRun.lc_flagged]) (DemoRun.args false false) []
  = (DemoRun.fetched ++ [EvWriteMeta; EvWriteParquet 0],
     Ok (mkDF [] (metadata (DemoRun.world [DemoRun.lc_flagged])
                           (DemoRun.args false false)))).
Proof.
  apply (no_survivors_empty_table (DemoRun.world [DemoRun.lc_flagged])
           (DemoRun.args false false) [] DemoRun.region DemoRun.fetched
           DemoRun.fgsl [DemoRun.lc_flagged]).
  - reflexivity.
  - vm_compute. reflexivity.
  - apply (bool_decide_unpack _). vm_compute. exact I.
  - intros lc ->%list_elem_of_singleton.
    apply (bool_decide_unpack _). vm_compute. exact I.
  - constructor; [|constructor]. left. right. left. reflexivity.
  - vm_compute. reflexivity.
Defined.

(** C2 fails as stated: with both flags set, the first run raises only
    after the id query, two cone searches and the light-curve retrieval; the
    second, where no light curve survives, does not raise at all. *)
Lemma both_flags_counterexample :
  doCPU (DemoRun.args true true) = true ∧ doGPU (DemoRun.args true true) = true ∧
  generate_features (DemoRun.world [DemoRun.lc_good; DemoRun.lc_short])
                    (DemoRun.args true true) []
  = ([EvGetIds 296 1 1; EvConeSearch "gaia" 2; EvConeSearch "gaia" 1;
      EvGetLightcurves 2],
     Raise KeyError) ∧
  generate_features (DemoRun.world [DemoRun.lc_flagged]) (DemoRun.args true true) []
  = (DemoRun.fetched ++ [EvWriteMeta; EvWriteParquet 0],
     Ok (mkDF [] (metadata (DemoRun.world [DemoRun.lc_flagged])
                           (DemoRun.args true true)))).
Proof. split_and!; vm_compute; reflexivity. Qed.

(** C2 as amended, on the run with a good light curve: the error comes
    after the four queries of the fetch. *)
Lemma both_flags_raise_at_period_search_witness :
  generate_features (DemoRun.world [DemoRun.lc_good; DemoRun.lc_short])
                    (DemoRun.args true true) []
  = (DemoRun.fetched, Raise KeyError).
Proof.
  pose (lcs := [DemoRun.lc_good; DemoRun.lc_short]).
  pose (a := DemoRun.args true true).
  destruct (both_flags_raise_at_period_search (DemoRun.world lcs) a []
              DemoRun.region DemoRun.fetched DemoRun.fgsl lcs
              (DemoRun.loop_end lcs a)) as (_ & Hraise & _).
  - reflexivity.
  - reflexivity.
  - reflexivity.
  - vm_compute. reflexivity.
  - vm_compute. reflexivity.
  - apply Hraise. vm_compute. reflexivity.
Defined.

(** * Further properties *)

(** ** Batches of the bright-star query *)

Lemma slices_concat {A} (l : list A) (limit : Z) (k : nat) :
  (0 < limit)%Z →
  concat ((λ i, slice l (i * limit) (Z.min (Z.of_nat (length l)) ((i + 1) * limit)))
            <$> seqZ 0 (Z.of_nat k))
  = take (k * Z.to_nat limit) l.
Proof.
  intros Hlim. induction k as [|k IH]; [done|].
  replace (Z.of_nat (S k)) with (Z.of_nat k + 1)%Z by lia.
  rewrite seqZ_app by lia. rewrite fmap_app, concat_app, IH.
  change (seqZ (0 + Z.of_nat k) 1) with [(0 + Z.of_nat k)%Z].
  cbn [fmap list_fmap concat]. rewrite app_nil_r. unfold slice.
  replace (Z.to_nat ((0 + Z.of_nat k) * limit)) with (k * Z.to_nat limit)%nat by nia.
  rewrite take_take_drop.
  destruct (decide ((Z.of_nat k + 1) * limit <= Z.of_nat (length l))%Z) as [Hle|Hgt].
  - f_equal. rewrite Z.min_r by lia. nia.
  - rewrite Z.min_l by lia. rewrite !take_ge; [done | nia | nia].
Qed.

Section batch_facts.
Context (kowalski_instance : string → Q → list (Z * coord)
                             → result (gmap string (list GaiaRec)))
        (catalog : string) (query_radius_arcsec : Q) (limit : Z).

Local Abbreviation id_slice := (id_slice_of limit).
Local Abbreviation batches :=
  (query_batches kowalski_instance catalog query_radius_arcsec limit).
Local Abbreviation qphase :=
  (query_phase kowalski_instance catalog query_radius_arcsec limit).

Implicit Types (id_dct : pydict Z Source) (res : gmap string (list GaiaRec)).

Lemma n_iterations_ceil (n_sources n : Z) :
  (0 < limit)%Z → (0 <= n_sources)%Z →
  n_iterations_of limit n_sources = Ok n →
  ((n - 1) * limit < n_sources <= n * limit)%Z.
Proof.
  intros Hlim Hn. unfold n_iterations_of. rewrite decide_False by lia.
  pose proof (Z.div_mod n_sources limit ltac:(lia)) as Hdm.
  pose proof (Z.mod_pos_bound n_sources limit Hlim) as Hmod.
  case_decide as Hrem; intros [= <-]; [nia|].
  assert (n_sources `mod` limit = 0)%Z as Hz.
  { destruct (decide (n_sources `mod` limit = 0)%Z); [done | by exfalso; auto]. }
  nia.
Qed.

(** X1.  For a positive [limit] the batches are [ceil(n / limit)]
    consecutive slices of the key list: put end to end they give back the
    keys in order, none is empty and none has more than [limit] ids. *)
Theorem batches_partition_keys id_dct n :
  (0 < limit)%Z →
  n_iterations_of limit (Z.of_nat (length id_dct)) = Ok n →
  ((n - 1) * limit < Z.of_nat (length id_dct) <= n * limit)%Z ∧
  concat (id_slice id_dct <$> seqZ 0 n) = keys id_dct ∧
  Forall (λ i, (0 < Z.of_nat (length (id_slice id_dct i)) <= limit)%Z) (seqZ 0 n).
Proof.
  intros Hlim Hn.
  pose proof (n_iterations_ceil (Z.of_nat (length id_dct)) n Hlim
                ltac:(lia) Hn) as Hceil.
  assert (length (keys id_dct) = length id_dct) as Hlen.
  { unfold keys. by rewrite length_fmap. }
  split; [exact Hceil|]. split.
  - assert (0 <= n)%Z as Hn0 by nia.
    pose proof (slices_concat (keys id_dct) limit (Z.to_nat n) Hlim) as Hc.
    rewrite Z2Nat.id, Hlen in Hc by done.
    unfold id_slice_of. change (λ i, slice (keys id_dct) (i * limit)
      (Z.min (Z.of_nat (length id_dct)) ((i + 1) * limit))) with
      (λ i, slice (keys id_dct) (i * limit)
         (Z.min (Z.of_nat (length id_dct)) ((i + 1) * limit))) in Hc.
    rewrite Hc. apply take_ge. rewrite Hlen. nia.
  - apply Forall_forall. intros i [Hi0 Hin]%elem_of_seqZ.
    unfold id_slice_of, slice. rewrite length_take, length_drop, Hlen. nia.
Qed.

(** X2.  When the service answers every request, the query phase issues
    exactly one cone search per batch, in batch order, each for the ids of
    its slice, and nothing else. *)
Theorem one_cone_search_per_batch id_dct tr n :
  n_iterations_of limit (Z.of_nat (length id_dct)) = Ok n →
  (∀ radec, ∃ answer,
     kowalski_instance catalog query_radius_arcsec radec = Ok answer) →
  ∃ res,
    qphase id_dct tr
    = (tr ++ ((λ i, EvConeSearch catalog (length (id_slice id_dct i))) <$> seqZ 0 n),
       Ok res).
Proof.
  intros Hn Hsvc. unfold query_phase, pbind, lift. rewrite Hn.
  generalize (seqZ 0 n) as its. generalize (∅ : gmap string (list GaiaRec)) as res.
  intros res its. revert res tr. induction its as [|i its IH]; intros res tr.
  { exists res. by rewrite app_nil_r. }
  destruct (radec_of_spec id_dct (id_slice id_dct i)) as (radec & Hradec & _).
  { apply id_slice_subseteq. }
  destruct (Hsvc radec) as [answer Hanswer].
  destruct (IH (answer ∪ res)
              (tr ++ [EvConeSearch catalog (length (id_slice id_dct i))]))
    as [res' Hrun].
  exists res'. cbn [query_batches]. unfold pbind at 1. unfold lift at 1.
  rewrite Hradec. unfold pbind at 1. unfold call at 1. rewrite Hanswer.
  rewrite Hrun. by rewrite fmap_cons, <- app_assoc.
Qed.

(** X3.  The first request the service fails on ends the query phase with
    the service's exception: the batches before it and the failing one are
    in the trace, no later batch is asked for. *)
Theorem failed_query_stops_batches id_dct tr res before i after e :
  (∀ j, j ∈ before → ∀ radec, radec_of id_dct (id_slice id_dct j) = Ok radec →
     ∃ answer, kowalski_instance catalog query_radius_arcsec radec = Ok answer) →
  (∀ radec, radec_of id_dct (id_slice id_dct i) = Ok radec →
     kowalski_instance catalog query_radius_arcsec radec = Raise e) →
  batches id_dct (before ++ i :: after) res tr
  = (tr ++ ((λ j, EvConeSearch catalog (length (id_slice id_dct j)))
              <$> before ++ [i]),
     Raise e).
Proof.
  revert res tr. induction before as [|j before IH]; intros res tr Hbefore Hfail.
  - destruct (radec_of_spec id_dct (id_slice id_dct i)) as (radec & Hradec & _).
    { apply id_slice_subseteq. }
    cbn [app query_batches]. unfold pbind at 1. unfold lift at 1.
    rewrite Hradec. unfold pbind at 1. unfold call at 1.
    by rewrite (Hfail _ Hradec).
  - destruct (radec_of_spec id_dct (id_slice id_dct j)) as (radec & Hradec & _).
    { apply id_slice_subseteq. }
    destruct (Hbefore j ltac:(by left) _ Hradec) as [answer Hanswer].
    rewrite <- app_comm_cons. cbn [query_batches].
    unfold pbind at 1. unfold lift at 1. rewrite Hradec.
    unfold pbind at 1. unfold call at 1. rewrite Hanswer.
    rewrite IH; [| |done].
    + by rewrite <- app_comm_cons, fmap_cons, <- app_assoc.
    + intros j' Hj'. apply Hbefore. by right.
Qed.
End batch_facts.

(** ** More on the filter *)

Section filter_extras.
Context (separation : coord → coord → Q)
        (TychoBVfromGaia : Q → Q → Q * Q) (exclude_radius : Q → Q → Q)
        (kowalski_instance : string → Q → list (Z * coord)
                             → result (gmap string (list GaiaRec)))
        (catalog : string) (query_radius_arcsec xmatch_radius_arcsec : Q)
        (limit : Z).

Local Abbreviation qphase :=
  (query_phase kowalski_instance catalog query_radius_arcsec limit).
Local Abbreviation check :=
  (check_source separation TychoBVfromGaia exclude_radius xmatch_radius_arcsec).
Local Abbreviation pop_match := (pop_self_match separation xmatch_radius_arcsec).
Local Abbreviation radius_of := (excl_radius_of TychoBVfromGaia exclude_radius).
Local Abbreviation drop :=
  (drop_close_bright_stars separation TychoBVfromGaia exclude_radius
     kowalski_instance catalog query_radius_arcsec xmatch_radius_arcsec limit).
Local Abbreviation rejected :=
  (contaminated separation TychoBVfromGaia exclude_radius xmatch_radius_arcsec).

Implicit Types (id_dct keep : pydict Z Source) (res : gmap string (list GaiaRec))
               (val : Source) (single_result : list GaiaRec).

(** The drop decision of one pass, in terms of the candidates that are
    left. *)
Lemma dropped_iff_too_close_aux val single_result remaining dropped :
  check val single_result = Ok (remaining, dropped) →
  ∃ xmatch_source,
    (dropped = true ↔
     ∃ source, source ∈ remaining ∧
       (0 < radius_of source)%Q ∧
       (separation (reference_coord (source_coord val) xmatch_source)
                   (candidate_coord source) < radius_of source)%Q).
Proof.
  intros Hcheck.
  pose proof (check_source_spec separation TychoBVfromGaia exclude_radius
                xmatch_radius_arcsec val single_result) as Hspec.
  destruct single_result as [|c0 rest].
  - rewrite Hspec in Hcheck. simplify_eq. exists None.
    split; [done|]. intros (? & ?%elem_of_nil & _). done.
  - destruct Hspec as (xs & rem & Hpop & Hc). rewrite Hc in Hcheck.
    simplify_eq. exists xs.
    rewrite bool_decide_eq_true, Exists_exists. done.
Qed.

(** What is left of the candidates after one pass. *)
Lemma check_source_remaining val single_result remaining dropped :
  check val single_result = Ok (remaining, dropped) →
  remaining `sublist_of` single_result ∧
  (length single_result <= S (length remaining))%nat.
Proof.
  intros Hrun.
  pose proof (check_source_spec separation TychoBVfromGaia exclude_radius
                xmatch_radius_arcsec val single_result) as Hspec.
  destruct single_result as [|c0 rest].
  { rewrite Hspec in Hrun. simplify_eq. split; [done | simpl; lia]. }
  destruct Hspec as (xs & remaining' & Hpop & Hcheck).
  rewrite Hcheck in Hrun. simplify_eq.
  destruct (argmin_closest
              ((λ x, separation (candidate_coord x) (source_coord val)) <$> c0 :: rest))
    as [s Hs]; [done|].
  destruct (pop_self_match_spec separation xmatch_radius_arcsec _ _ _ _ Hs)
    as (c & Hc & Hpop').
  rewrite Hpop' in Hpop. pose proof (lookup_lt_Some _ _ _ Hc) as Hlt.
  destruct (Qltb s xmatch_radius_arcsec); simplify_eq.
  - split; [apply sublist_delete|]. rewrite length_delete by eauto. lia.
  - split; [done | lia].
Qed.

(** X4.  The per-id test never raises: [Coords] stays aligned with
    [single_result] when the self-match is popped, so [Coords[idx]] is always
    in range.  The pop removes at most one candidate and keeps the others in
    catalog order. *)
Theorem check_source_never_raises val single_result :
  ∃ remaining dropped,
    check val single_result = Ok (remaining, dropped) ∧
    remaining `sublist_of` single_result ∧
    (length single_result <= S (length remaining))%nat.
Proof.
  destruct (check_source_total separation TychoBVfromGaia exclude_radius
              xmatch_radius_arcsec val single_result) as [remaining Hrun].
  eexists remaining, _. split; [exact Hrun|].
  by eapply check_source_remaining.
Qed.

(** X5.  A candidate without a magnitude or without a colour, and more
    generally one whose exclusion radius is not positive, never causes a
    drop: a source all of whose candidates are of that kind is kept. *)
Theorem harmless_candidates_keep val single_result :
  Forall (λ source, phot_g_mean_mag source = None ∨ bp_rp source = None ∨
                    (radius_of source <= 0)%Q) single_result →
  rejected val single_result = false ∧
  ∀ id_dct tr tr' res id keep tr'',
    pydict_wf id_dct → qphase id_dct tr = (tr', Ok res) →
    (id, val) ∈ id_dct → res !! pretty id = Some single_result →
    drop id_dct tr = (tr'', Ok keep) → (id, val) ∈ keep.
Proof.
  intros Hall.
  assert (Forall (λ source, (radius_of source <= 0)%Q) single_result) as Hall'.
  { eapply Forall_impl; [exact Hall|]. intros source [Hm | [Hc | Hle]]; [| |done].
    - unfold excl_radius_of. rewrite Hm. apply Qle_refl.
    - unfold excl_radius_of. rewrite Hc. destruct (phot_g_mean_mag source);
        apply Qle_refl. }
  assert (rejected val single_result = false) as Hkept.
  { destruct (check_source_total separation TychoBVfromGaia exclude_radius
                xmatch_radius_arcsec val single_result) as [remaining Hcheck].
    destruct (check_source_remaining _ _ _ _ Hcheck) as [Hsub _].
    destruct (dropped_iff_too_close_aux _ _ _ _ Hcheck) as (xs & Hiff).
    destruct (rejected val single_result); [|done]. destruct Hiff as [Hiff _].
    destruct (Hiff eq_refl) as (source & Hin & Hpos & _).
    rewrite Forall_forall in Hall'.
    specialize (Hall' _ (elem_of_sublist _ _ _ Hin Hsub)).
    exfalso. by eapply Qlt_not_le. }
  split; [done|].
  intros id_dct tr tr' res id keep tr'' Hwf Hq Hin Hres Hdrop.
  by eapply not_rejected_kept.
Qed.
End filter_extras.

Section filter_results.
Context (separation : coord → coord → Q)
        (TychoBVfromGaia : Q → Q → Q * Q) (exclude_radius : Q → Q → Q)
        (kowalski_instance : string → Q → list (Z * coord)
                             → result (gmap string (list GaiaRec)))
        (catalog : string) (query_radius_arcsec xmatch_radius_arcsec : Q).

Local Abbreviation drop :=
  (drop_close_bright_stars separation TychoBVfromGaia exclude_radius
     kowalski_instance catalog query_radius_arcsec xmatch_radius_arcsec).

Implicit Types (id_dct keep : pydict Z Source) (limit : Z).

(** X6.  The dictionary returned is the input with some items left out:
    no source is added or changed, and the survivors keep their order. *)
Theorem survivors_are_a_sublist limit id_dct tr tr' keep :
  pydict_wf id_dct →
  drop limit id_dct tr = (tr', Ok keep) →
  keep `sublist_of` id_dct ∧ pydict_wf keep ∧
  (length keep <= length id_dct)%nat.
Proof.
  intros Hwf Hdrop.
  destruct (drop_close_bright_stars_Ok _ _ _ _ _ _ _ _ _ _ _ _ Hwf Hdrop)
    as (res & _ & _ & ->).
  unfold survivors. split_and!.
  - apply sublist_filter.
  - by apply filter_wf.
  - apply length_filter.
Qed.

(** X7.  A [limit] of 0 raises [ZeroDivisionError] before anything is
    queried.  A negative [limit] gives no iteration: nothing is queried, an
    empty dictionary comes back unchanged and any other input ends in
    [KeyError] at the first lookup. *)
Theorem nonpositive_limit limit id_dct tr :
  (limit = 0%Z → drop limit id_dct tr = (tr, Raise ZeroDivisionError)) ∧
  ((limit < 0)%Z →
     drop limit id_dct tr = (tr, if decide (id_dct = []) then Ok [] else Raise KeyError)).
Proof.
  split.
  - intros ->. rewrite drop_unfold. unfold query_phase, pbind, lift.
    unfold n_iterations_of. by rewrite decide_True.
  - intros Hneg. rewrite drop_unfold. unfold query_phase, pbind, lift.
    destruct (n_iterations_of limit (Z.of_nat (length id_dct))) as [n|] eqn:Hn.
    2:{ unfold n_iterations_of in Hn. rewrite decide_False in Hn by lia.
        by case_decide. }
    assert (n <= 0)%Z as Hn0.
    { unfold n_iterations_of in Hn. rewrite decide_False in Hn by lia.
      pose proof (Z.mod_neg_bound (Z.of_nat (length id_dct)) limit ltac:(lia)).
      pose proof (Z.div_mod (Z.of_nat (length id_dct)) limit ltac:(lia)).
      case_decide; simplify_eq; nia. }
    rewrite seqZ_nil by done. cbn [query_batches]. unfold pret. f_equal.
    destruct id_dct as [|[k v] d]; [done|].
    rewrite decide_False by done.
    eapply filter_loop_missing; [by left | apply lookup_empty].
Qed.

Section deterministic_catalog.
Variable cone : coord → list GaiaRec.
Hypothesis kowalski_cone : ∀ radec,
  kowalski_instance catalog query_radius_arcsec radec = Ok (cone_response cone radec).

(** X8.  With a catalog that answers each position on its own, the batch
    size does not change the outcome: any two positive limits give the same
    dictionary. *)
Theorem batch_size_is_immaterial limit1 limit2 id_dct tr1 tr2 :
  (0 < limit1)%Z → (0 < limit2)%Z → pydict_wf id_dct →
  ∃ keep tr1' tr2',
    drop limit1 id_dct tr1 = (tr1', Ok keep) ∧
    drop limit2 id_dct tr2 = (tr2', Ok keep).
Proof.
  intros H1 H2 Hwf.
  destruct (drop_clean separation TychoBVfromGaia exclude_radius kowalski_instance
              catalog query_radius_arcsec xmatch_radius_arcsec limit1 cone
              kowalski_cone id_dct tr1 H1 Hwf) as [tr1' Hd1].
  destruct (drop_clean separation TychoBVfromGaia exclude_radius kowalski_instance
              catalog query_radius_arcsec xmatch_radius_arcsec limit2 cone
              kowalski_cone id_dct tr2 H2 Hwf) as [tr2' Hd2].
  eauto.
Qed.

(** X9.  With such a catalog every source is judged on its own: filtering
    two dictionaries one after the other and filtering them joined into one
    keep the same sources. *)
Theorem sources_are_judged_independently limit (d1 d2 : pydict Z Source) tr :
  (0 < limit)%Z → pydict_wf (d1 ++ d2) →
  ∃ keep1 keep2 tr1 tr2 tr',
    drop limit d1 tr = (tr1, Ok keep1) ∧
    drop limit d2 tr = (tr2, Ok keep2) ∧
    drop limit (d1 ++ d2) tr = (tr', Ok (keep1 ++ keep2)).
Proof.
  intros Hlim Hwf.
  assert (pydict_wf d1 ∧ pydict_wf d2) as [Hwf1 Hwf2].
  { unfold pydict_wf, keys in *. rewrite fmap_app in Hwf.
    apply NoDup_app in Hwf as (? & _ & ?). done. }
  destruct (drop_clean separation TychoBVfromGaia exclude_radius kowalski_instance
              catalog query_radius_arcsec xmatch_radius_arcsec limit cone
              kowalski_cone d1 tr Hlim Hwf1) as [tr1 Hd1].
  destruct (drop_clean separation TychoBVfromGaia exclude_radius kowalski_instance
              catalog query_radius_arcsec xmatch_radius_arcsec limit cone
              kowalski_cone d2 tr Hlim Hwf2) as [tr2 Hd2].
  destruct (drop_clean separation TychoBVfromGaia exclude_radius kowalski_instance
              catalog query_radius_arcsec xmatch_radius_arcsec limit cone
              kowalski_cone (d1 ++ d2) tr Hlim Hwf) as [tr' Hd].
  do 5 eexists. split_and!; [exact Hd1 | exact Hd2 |].
  rewrite Hd. by rewrite filter_app.
Qed.
End deterministic_catalog.
End filter_results.

(** ** The locals of the light-curve loop *)

Section pydict_rows.
Context {K V : Type} `{EqDecision K}.
Implicit Types (d : pydict K V) (k : K).

Lemma dget_adjust (f : V → V) d k k' :
  dget (adjust f d k) k' = if decide (k = k') then f <$> dget d k else dget d k'.
Proof.
  induction d as [|[k2 v2] d IH]; simpl.
  { by case_decide. }
  destruct (decide (k2 = k)) as [Heq|Hne]; simpl.
  - subst k2. by destruct (decide (k = k')).
  - rewrite IH. destruct (decide (k2 = k')) as [Heq2|Hne2].
    + subst k2. by rewrite decide_False.
    + by destruct (decide (k = k')).
Qed.


Lemma adjust_ext (f g : V → V) d k :
  (∀ v, f v = g v) → adjust f d k = adjust g d k.
Proof.
  intros Hfg. induction d as [|[k2 v2] d IH]; simpl; [done|].
  case_decide; [by rewrite Hfg | by rewrite IH].
Qed.
End pydict_rows.


Lemma set_columns_missing (d : pydict Z Source) (_id : Z) kvs :
  _id ∉ keys d → kvs ≠ [] → set_columns d _id kvs = Raise KeyError.
Proof.
  intros Hin%dget_None Hne. destruct kvs as [|[name v] kvs]; [done|].
  cbn [set_columns]. unfold set_column. by rewrite Hin.
Qed.

(** *** Pieces of the body and what they leave alone *)

Section respects_facts.
Context (R : LoopState → LoopState → Prop)
        (R_refl : ∀ st, R st st)
        (R_trans : ∀ st1 st2 st3, R st1 st2 → R st2 st3 → R st1 st3).

Lemma respects_pret {A} (x : A) : respects R (pret x).
Proof. intros st st' r [= <- _]. apply R_refl. Qed.

Lemma respects_lift {A} (r : result A) : respects R (lift r).
Proof. intros st st' r' [= <- _]. apply R_refl. Qed.

Lemma respects_bind {A B} (c : prog LoopState A) (k : A → prog LoopState B) :
  respects R c → (∀ x, respects R (k x)) → respects R (pbind c k).
Proof.
  intros Hc Hk st st' r. unfold pbind.
  destruct (c st) as [st1 [x|e]] eqn:Hst1.
  - intros Hk'. eapply R_trans; [by eapply Hc | by eapply Hk].
  - intros [= <- _]. by eapply Hc.
Qed.

Lemma respects_try_except (body handler : prog LoopState unit) ex :
  respects R body → respects R handler → respects R (try_except body ex handler).
Proof.
  intros Hb Hh st st' r. unfold try_except.
  destruct (body st) as [st1 [x|e]] eqn:Hst1.
  - intros [= <- _]. by eapply Hb.
  - case_decide.
    + intros Hh'. eapply R_trans; [by eapply Hb | by eapply Hh].
    + intros [= <- _]. by eapply Hb.
Qed.
End respects_facts.

Lemma same_lists_refl st : same_lists st st.
Proof. by split_and!. Qed.

Lemma same_lists_trans st1 st2 st3 :
  same_lists st1 st2 → same_lists st2 st3 → same_lists st1 st3.
Proof. intros (? & ? & ?) (? & ? & ?). split_and!; congruence. Qed.

Lemma on_feature_dict_same_lists f : respects same_lists (on_feature_dict f).
Proof.
  intros st st' r. unfold on_feature_dict.
  destruct (f (feature_dict st)); intros [= <- _]; by split_and!.
Qed.

Lemma record_columns_same_lists w a fgsl f c q _id flt tt' mm ee cesium_TS :
  respects same_lists (record_columns w a fgsl f c q _id flt tt' mm ee cesium_TS).
Proof.
  pose proof same_lists_refl as Hr. pose proof same_lists_trans as Ht.
  unfold record_columns.
  apply respects_bind; [done | done | by apply respects_lift |]. intros src.
  apply respects_bind; [done | done | apply on_feature_dict_same_lists |].
  intros _.
  apply respects_bind; [done | done | by apply respects_lift |]. intros src'.
  apply respects_bind; [done | done | apply on_feature_dict_same_lists |].
  intros _.
  apply respects_bind; [done | done | by apply respects_lift |]. intros stats.
  apply respects_bind; [done | done | apply on_feature_dict_same_lists |].
  intros _.
  destruct cesium_TS as [ts|]; [|by apply respects_pret].
  apply respects_bind; [done | done | by apply respects_lift |].
  intros ?. apply on_feature_dict_same_lists.
Qed.

Lemma accept_source_unfold w a fgsl f c q _id flt tt' mm ee :
  accept_source w a fgsl f c q _id flt tt' mm ee =
    (modify (λ st, mkLoop (feature_dict st) (baseline st)
                          (keep_id_list st ++ [_id]) (tme_collection st)) ;;
     let* cesium_TS :=
       lift (if doCesium a
             then let? ts := cesium_TimeSeries w tt' mm ee in Ok (Some ts)
             else Ok None) in
     let* hi := lift (Qmax_list tt') in
     let* lo := lift (Qmin_list tt') in
     modify (λ st, mkLoop (feature_dict st)
                          (if Qltb (baseline st) (hi - lo) then (hi - lo)%Q
                           else baseline st)
                          (keep_id_list st) (tme_collection st ++ [(tt', mm, ee)])) ;;
     record_columns w a fgsl f c q _id flt tt' mm ee cesium_TS).
Proof. reflexivity. Qed.

Lemma iteration_locals_same_lists _id st1 st2 st3 :
  iteration_locals _id st1 st2 → same_lists st2 st3 → iteration_locals _id st1 st3.
Proof.
  intros [H12 | [(Hk & Ht & Hb) | (series & span & Hk & Ht & Hb)]] (Hb' & Hk' & Ht').
  - left. by eapply same_lists_trans.
  - right. left. split_and!; congruence.
  - right. right. exists series, span. split_and!; congruence.
Qed.

Section loop_locals_facts.
Context (w : World) (a : Args) (fgsl : pydict Z Source) (field' ccd' quad' : Z).

Local Abbreviation accept := (accept_source w a fgsl field' ccd' quad').
Local Abbreviation record := (record_columns w a fgsl field' ccd' quad').
Local Abbreviation body := (try_body w a fgsl field' ccd' quad').
Local Abbreviation step := (process_lc w a fgsl field' ccd' quad').
Local Abbreviation loop := (lc_loop w a fgsl field' ccd' quad').

(** the state after line 333, and after line 343 *)
Lemma accept_source_run _id flt tt' mm ee st :
  accept _id flt tt' mm ee st =
    let st1 := mkLoop (feature_dict st) (baseline st) (keep_id_list st ++ [_id])
                      (tme_collection st) in
    match (if doCesium a
           then let? ts := cesium_TimeSeries w tt' mm ee in Ok (Some ts)
           else Ok None) with
    | Raise e => (st1, Raise e)
    | Ok cesium_TS =>
        match Qmax_list tt' with
        | Raise e => (st1, Raise e)
        | Ok hi =>
            match Qmin_list tt' with
            | Raise e => (st1, Raise e)
            | Ok lo =>
                record _id flt tt' mm ee cesium_TS
                  (mkLoop (feature_dict st)
                          (if Qltb (baseline st) (hi - lo) then (hi - lo)%Q
                           else baseline st)
                          (keep_id_list st ++ [_id])
                          (tme_collection st ++ [(tt', mm, ee)]))
            end
        end
    end.
Proof.
  rewrite accept_source_unfold. unfold pbind at 1 2 3 4 5. unfold modify, lift.
  cbv zeta.
  destruct (if doCesium a then _ else _) as [cesium_TS|]; [|done].
  destruct (Qmax_list tt') as [hi|]; [|done].
  by destruct (Qmin_list tt') as [lo|].
Qed.

Lemma accept_source_locals _id flt tt' mm ee :
  respects (iteration_locals _id) (accept _id flt tt' mm ee).
Proof.
  intros st st' r. rewrite accept_source_run. cbv zeta.
  destruct (if doCesium a then _ else _) as [cesium_TS|].
  2:{ intros [= <- _]. right. left. done. }
  destruct (Qmax_list tt') as [hi|].
  2:{ intros [= <- _]. right. left. done. }
  destruct (Qmin_list tt') as [lo|].
  2:{ intros [= <- _]. right. left. done. }
  intros Hrec. apply record_columns_same_lists in Hrec.
  eapply iteration_locals_same_lists; [|exact Hrec].
  right. right. by exists (tt', mm, ee), (hi - lo)%Q.
Qed.

Lemma pop_row_same_lists _id : respects same_lists (pop_row _id).
Proof. apply on_feature_dict_same_lists. Qed.

Lemma try_body_locals _id flt tme : respects (iteration_locals _id) (body _id flt tme).
Proof.
  intros st st' r. unfold try_body, pbind, lift.
  destruct (unpack_columns tme) as [[[t m] e]|].
  2:{ intros [= <- _]. left. apply same_lists_refl. }
  destruct (removeHighCadence w t m e _) as [[[tt' mm] ee]|].
  2:{ intros [= <- _]. left. apply same_lists_refl. }
  case_decide.
  - intros Hpop. left. by eapply pop_row_same_lists.
  - apply accept_source_locals.
Qed.

Lemma process_lc_locals lc : respects (iteration_locals (lc_id lc)) (step lc).
Proof.
  intros st st' r. unfold process_lc, try_except.
  destruct (body _ _ _ st) as [st1 [[]|e]] eqn:Hbody.
  - intros [= <- _]. by eapply try_body_locals.
  - case_decide.
    + intros Hpop. eapply iteration_locals_same_lists.
      * by eapply try_body_locals.
      * by eapply pop_row_same_lists.
    + intros [= <- _]. by eapply try_body_locals.
Qed.

Lemma iteration_loop_locals _id st st' :
  iteration_locals _id st st' → loop_locals [_id] st st'.
Proof.
  intros [(Hb & Hk & Ht) | [(Hk & Ht & Hb) | (series & span & Hk & Ht & Hb)]].
  - exists [], []. rewrite !app_nil_r, Hb. split_and!; try done.
    + apply sublist_nil_l.
    + apply Qle_refl.
    + by intros ?%Qlt_irrefl.
  - exists [_id], []. rewrite app_nil_r, Hb. split_and!; try done.
    + simpl. lia.
    + apply Qle_refl.
    + by intros ?%Qlt_irrefl.
  - exists [_id], [series]. rewrite Hb. split_and!; try done.
    destruct (Qltb (baseline st) span) eqn:Hlt.
    + apply Qltb_lt in Hlt. by apply Qlt_le_weak.
    + apply Qle_refl.
Qed.

Lemma loop_locals_trans ids1 ids2 st1 st2 st3 :
  loop_locals ids1 st1 st2 → loop_locals ids2 st2 st3 →
  loop_locals (ids1 ++ ids2) st1 st3.
Proof.
  intros (k1 & s1 & Hk1 & Ht1 & Hs1 & Hl1 & Hb1 & Hn1)
         (k2 & s2 & Hk2 & Ht2 & Hs2 & Hl2 & Hb2 & Hn2).
  exists (k1 ++ k2), (s1 ++ s2). split_and!.
  - by rewrite Hk2, Hk1, app_assoc.
  - by rewrite Ht2, Ht1, app_assoc.
  - by apply sublist_app.
  - rewrite !length_app. lia.
  - by eapply Qle_trans.
  - intros Hlt Happ. apply app_eq_nil in Happ as [-> ->].
    destruct (Qlt_le_dec (baseline st1) (baseline st2)) as [H12|H21].
    + by apply Hn1.
    + apply Hn2; [|done]. by eapply Qle_lt_trans.
Qed.

Lemma lc_loop_locals lcs st st' r :
  loop lcs st = (st', r) → loop_locals (lc_id <$> lcs) st st'.
Proof.
  revert st. induction lcs as [|lc lcs IH]; intros st.
  { intros [= <- _]. exists [], []. rewrite !app_nil_r. split_and!; try done.
    - apply Qle_refl.
    - by intros ?%Qlt_irrefl. }
  rewrite lc_loop_cons.
  destruct (step lc st) as [st1 [[]|e]] eqn:Hstep.
  - intros Hrest. apply process_lc_locals, iteration_loop_locals in Hstep.
    apply (loop_locals_trans [lc_id lc] _ _ _ _ Hstep (IH _ Hrest)).
  - intros [= <- _]. apply process_lc_locals, iteration_loop_locals in Hstep.
    destruct Hstep as (k1 & s1 & Hk1 & Ht1 & Hs1 & Hl1 & Hb1 & Hn1).
    exists k1, s1. split_and!; try done.
    etrans; [exact Hs1|]. rewrite fmap_cons. apply sublist_skip, sublist_nil_l.
Qed.
End loop_locals_facts.

Lemma write_columns_app kvs1 kvs2 row :
  write_columns (kvs1 ++ kvs2) row = write_columns kvs2 (write_columns kvs1 row).
Proof. unfold write_columns. by rewrite foldl_app. Qed.



Section loop_extras.
Context (w : World) (a : Args) (fgsl : pydict Z Source) (field' ccd' quad' : Z).

Local Abbreviation accept := (accept_source w a fgsl field' ccd' quad').
Local Abbreviation record := (record_columns w a fgsl field' ccd' quad').
Local Abbreviation body := (try_body w a fgsl field' ccd' quad').
Local Abbreviation step := (process_lc w a fgsl field' ccd' quad').
Local Abbreviation loop := (lc_loop w a fgsl field' ccd' quad').

Lemma process_lc_no_ValueError lc st st' e :
  step lc st = (st', Raise e) → e ≠ ValueError.
Proof.
  unfold process_lc, try_except.
  destruct (body _ _ _ st) as [st1 [[]|e1]]; [done|].
  case_decide as He1.
  - unfold pop_row, on_feature_dict, pop.
    destruct (dget (feature_dict st1) (lc_id lc)); [done|].
    by intros [= _ <-].
  - by intros [= _ <-].
Qed.

Lemma process_lc_rejected_missing lc st :
  malformed lc ∨ too_short w a lc →
  lc_id lc ∉ keys (feature_dict st) →
  step lc st = (st, Raise KeyError).
Proof.
  intros Hrej Hmiss%dget_None. destruct Hrej as [Hbad%malformed_raises | Hshort].
  - unfold process_lc, try_except, try_body, pbind, lift. rewrite Hbad.
    rewrite decide_True by done.
    unfold pop_row, on_feature_dict, pop. by rewrite Hmiss.
  - rewrite process_lc_too_short_run by done. unfold pop. by rewrite Hmiss.
Qed.

(** X10.  The loop stops at the first light curve whose iteration raises,
    and what it raises is never [ValueError]: the [except ValueError] clause
    absorbs those, so an exception that leaves the loop is one a collaborator
    raised under another name, or the [KeyError] of a subscript or a [pop]
    on a row that is not there. *)
Theorem loop_stops_at_first_error lcs st st' e :
  lc_loop w a fgsl field' ccd' quad' lcs st = (st', Raise e) →
  e ≠ ValueError ∧
  ∃ pre lc post st1,
    lcs = pre ++ lc :: post ∧
    lc_loop w a fgsl field' ccd' quad' pre st = (st1, Ok tt) ∧
    process_lc w a fgsl field' ccd' quad' lc st1 = (st', Raise e).
Proof.
  revert st. induction lcs as [|lc lcs IH]; intros st; [done|].
  rewrite lc_loop_cons.
  destruct (step lc st) as [st1 [[]|e1]] eqn:Hstep.
  - intros Hrest. destruct (IH _ Hrest) as (He & pre & lc' & post & st2 & -> & Hpre & Hlc').
    split; [done|]. exists (lc :: pre), lc', post, st2. split_and!; [done | | done].
    by rewrite lc_loop_cons, Hstep.
  - intros [= <- <-]. split; [by eapply process_lc_no_ValueError|].
    by exists [], lc, lcs, st.
Qed.

(** X11.  A rejected light curve, malformed or too short, whose id has no
    row in [feature_dict] ends the loop with the [KeyError] of
    [feature_dict.pop(_id)] and leaves the locals as they were.  So does the
    second of two rejected light curves with the same id: the first has
    popped the row. *)
Theorem rejected_without_row_raises lc lc' rest st :
  malformed lc ∨ too_short w a lc →
  (lc_id lc ∉ keys (feature_dict st) →
   loop (lc :: rest) st = (st, Raise KeyError)) ∧
  (pydict_wf (feature_dict st) →
   lc_id lc ∈ keys (feature_dict st) →
   malformed lc' ∨ too_short w a lc' →
   lc_id lc' = lc_id lc →
   loop (lc :: lc' :: rest) st = (reject lc st, Raise KeyError)).
Proof.
  intros Hrej. split.
  - intros Hmiss. by rewrite lc_loop_cons, process_lc_rejected_missing.
  - intros Hwf Hin Hrej' Hid. rewrite lc_loop_cons.
    assert (step lc st = (reject lc st, Ok tt)) as ->.
    { destruct Hrej; [by apply process_lc_malformed | by apply process_lc_too_short]. }
    rewrite lc_loop_cons, process_lc_rejected_missing; [done | done |].
    rewrite Hid. simpl. by apply not_elem_of_keys_remove.
Qed.


(** X13.  However the loop ends, [keep_id_list] holds ids of the light
    curves in their order, [tme_collection] is no longer than
    [keep_id_list], and [baseline] is not negative; it is positive only if a
    series was collected, so the feature branch is never entered with an
    empty [tme_collection]. *)
Theorem loop_keeps_lists_aligned lcs st r :
  loop lcs (initial_state fgsl) = (st, r) →
  keep_id_list st `sublist_of` lc_id <$> lcs ∧
  (length (tme_collection st) ≤ length (keep_id_list st))%nat ∧
  (0 <= baseline st)%Q ∧
  ((0 < baseline st)%Q → tme_collection st ≠ [] ∧ keep_id_list st ≠ []).
Proof.
  intros (kept & series & Hk & Ht & Hs & Hl & Hb & Hn)%lc_loop_locals.
  simpl in Hk, Ht, Hb, Hn. rewrite Hk, Ht. split_and!; try done.
  intros Hpos. specialize (Hn Hpos). split; [done|].
  destruct kept; [|done]. destruct series; [done | simpl in Hl; lia].
Qed.
End loop_extras.

Section features_need_rows.
Context (w : World) (a : Args).

Lemma dmdt_loop_Ok tmes idx ids d d' :
  for_enumerate (dmdt_row w tmes) idx ids d = Ok d' →
  Forall (λ _id, _id ∈ keys d) ids ∧
  (ids = [] ∨ idx + length ids ≤ length tmes)%nat.
Proof.
  revert idx d. induction ids as [|_id ids IH]; intros idx d.
  { intros _. split; [apply Forall_nil_2 | by left]. }
  cbn [for_enumerate].
  destruct (dmdt_row w tmes d idx _id) as [d1|] eqn:Hrow; [|done]. cbn [rbind].
  intros Hrest. destruct (IH _ _ Hrest) as [Hids Hlen].
  pose proof (dmdt_row_keeps_rows w tmes idx _id d d1 Hrow) as Hkeys.
  rewrite Hkeys in Hids.
  unfold dmdt_row, index in Hrow.
  destruct (tmes !! idx) as [[[tt' mm] ee]|] eqn:Hidx; [|done]. cbn [rbind] in Hrow.
  destruct (compute_dmdt w tt' mm) as [dmdt|]; [|done]. cbn [rbind] in Hrow.
  unfold set_column in Hrow.
  destruct (dget d _id) as [row|] eqn:Hget; [|done].
  apply lookup_lt_Some in Hidx. split.
  - apply Forall_cons_2; [|done]. apply dget_is_Some. eauto.
  - right. destruct Hlen as [-> | Hlen]; simpl; lia.
Qed.

Lemma features_stage_Ok_kept st tr tr' rows :
  features_stage w a st tr = (tr', Ok rows) →
  Forall (λ _id, _id ∈ keys (feature_dict st)) (keep_id_list st) ∧
  (length (keep_id_list st) ≤ length (tme_collection st))%nat.
Proof.
  unfold features_stage, pbind, lift, call.
  destruct (frequency_grid _ _ _) as [grid|]; [|done].
  destruct (period_stage w a _ _ _ tr) as [tr1 [[algorithms pd]|]]; [|done].
  destruct (fourier_stage w algorithms pd _ _ _) as [d1|] eqn:Hd1; [|done].
  destruct (for_enumerate _ 0 _ d1) as [d2|] eqn:Hd2; [|done].
  intros _. apply dmdt_loop_Ok in Hd2 as [Hids Hlen].
  rewrite (fourier_stage_keeps_rows _ _ _ _ _ _ _ Hd1) in Hids. split; [done|].
  destruct Hlen as [-> | Hlen]; simpl; lia.
Qed.
End features_need_rows.

Lemma Qmax_list_raises l e : Qmax_list l = Raise e → e = ValueError.
Proof. destruct l; simpl; congruence. Qed.

Lemma Qmin_list_raises l e : Qmin_list l = Raise e → e = ValueError.
Proof. destruct l; simpl; congruence. Qed.

Section failed_stats.
Context (w : World) (a : Args) (fgsl : pydict Z Source) (field' ccd' quad' : Z).

Local Abbreviation accept := (accept_source w a fgsl field' ccd' quad').
Local Abbreviation record := (record_columns w a fgsl field' ccd' quad').
Local Abbreviation step := (process_lc w a fgsl field' ccd' quad').
Local Abbreviation loop := (lc_loop w a fgsl field' ccd' quad').

Lemma accept_source_keeps_id _id flt tt' mm ee st st' r :
  accept _id flt tt' mm ee st = (st', r) →
  keep_id_list st' = keep_id_list st ++ [_id].
Proof.
  rewrite accept_source_run. cbv zeta.
  destruct (if doCesium a then _ else _) as [cesium_TS|]; [|by intros [= <- _]].
  destruct (Qmax_list tt') as [hi|]; [|by intros [= <- _]].
  destruct (Qmin_list tt') as [lo|]; [|by intros [= <- _]].
  by intros (_ & -> & _)%record_columns_same_lists.
Qed.

Lemma record_columns_failed_stats _id flt tt' mm ee cesium_TS ex st st' r :
  (let? r := calc_basic_stats w tt' mm ee in unpack 22 r) = Raise ex →
  record _id flt tt' mm ee cesium_TS st = (st', r) →
  ∃ e, r = Raise e.
Proof.
  intros Hfail. unfold record_columns, pbind, lift. rewrite Hfail.
  destruct (getitem fgsl _id) as [src|]; [|intros [= _ <-]; eauto].
  destruct (on_feature_dict _ st) as [s1 [[]|]]; [|intros [= _ <-]; eauto].
  destruct (on_feature_dict _ s1) as [s2 [[]|]]; intros [= _ <-]; eauto.
Qed.

Lemma accept_source_failed_stats _id flt tt' mm ee ex st st' r :
  doCesium a = false →
  (let? r := calc_basic_stats w tt' mm ee in unpack 22 r) = Raise ex →
  accept _id flt tt' mm ee st = (st', r) →
  ∃ e, r = Raise e.
Proof.
  intros Hces Hfail. rewrite accept_source_run. cbv zeta. rewrite Hces.
  destruct (Qmax_list tt') as [hi|]; [|intros [= _ <-]; eauto].
  destruct (Qmin_list tt') as [lo|]; [|intros [= _ <-]; eauto].
  by apply record_columns_failed_stats with (ex := ex).
Qed.

(** an accepted source whose statistics fail: the id stays in
    [keep_id_list] and the row is popped *)
Lemma process_lc_failed_stats lc series ex st st' :
  passes w a lc series →
  doCesium a = false →
  (let? r := calc_basic_stats w series.1.1 series.1.2 series.2 in unpack 22 r)
    = Raise ex →
  pydict_wf (feature_dict st) →
  step lc st = (st', Ok tt) →
  lc_id lc ∈ keep_id_list st' ∧ (lc_id lc ∉ keys (feature_dict st')).
Proof.
  intros (t & m & e & Hun & Hrhc & Hlen) Hces Hfail Hwf.
  destruct series as [[tt' mm] ee]. simpl in Hfail, Hlen.
  unfold process_lc, try_except, try_body.
  unfold pbind at 1 2. unfold lift at 1 2. rewrite Hun, Hrhc.
  rewrite decide_False by lia.
  destruct (accept _ _ tt' mm ee st) as [s1 r1] eqn:Hacc.
  destruct (accept_source_failed_stats _ _ _ _ _ _ _ _ _ Hces Hfail Hacc) as [e1 ->].
  pose proof (accept_source_keeps_id _ _ _ _ _ _ _ _ Hacc) as Hkeep.
  destruct (frames_accept_source _ _ _ _ _ _ _ _ _ _ _ _ _ _ Hacc) as (_ & Hwf1 & _).
  case_decide; [|done].
  unfold pop_row, on_feature_dict.
  destruct (pop (feature_dict s1) (lc_id lc)) as [d|] eqn:Hpop; [|done].
  intros [= <-]. apply pop_Ok in Hpop as [-> _]. simpl. split.
  - rewrite Hkeep. apply elem_of_app. right. by apply list_elem_of_singleton.
  - apply not_elem_of_keys_remove. by apply Hwf1.
Qed.

(** X14.  In a run whose feature stage returns, every id of
    [keep_id_list] has a row in [feature_dict] and [tme_collection] has
    exactly one series per kept id. *)
Theorem successful_run_has_rows_for_kept_ids lcs st tr tr' rows :
  loop lcs (initial_state fgsl) = (st, Ok tt) →
  features_stage w a st tr = (tr', Ok rows) →
  Forall (λ _id, _id ∈ keys (feature_dict st)) (keep_id_list st) ∧
  length (tme_collection st) = length (keep_id_list st).
Proof.
  intros Hloop [Hids Hlen]%features_stage_Ok_kept. split; [done|].
  apply lc_loop_locals in Hloop as (kept & series & Hk & Ht & _ & Hl & _).
  simpl in Hk, Ht. rewrite Hk, Ht in *. lia.
Qed.

(** X15.  When the basic statistics of an accepted light curve raise
    [ValueError], or do not unpack into 22 values, the handler pops the row
    but the id, appended at line 333, stays in [keep_id_list].  If the loop
    completes, the feature stage that follows cannot return a table: it
    raises. *)
Theorem failed_stats_fail_the_run lcs lc series st tr :
  pydict_wf fgsl →
  lc ∈ lcs →
  passes w a lc series →
  doCesium a = false →
  (let? r := calc_basic_stats w series.1.1 series.1.2 series.2 in unpack 22 r)
    = Raise ValueError →
  loop lcs (initial_state fgsl) = (st, Ok tt) →
  lc_id lc ∈ keep_id_list st ∧
  (lc_id lc ∉ keys (feature_dict st)) ∧
  ∃ tr' e, features_stage w a st tr = (tr', Raise e).
Proof.
  intros Hwf (pre & post & ->)%list_elem_of_split Hpass Hces Hfail Hloop.
  rewrite lc_loop_app in Hloop.
  destruct (loop pre (initial_state fgsl)) as [st1 [[]|e]] eqn:H1; [|done].
  rewrite lc_loop_cons in Hloop.
  destruct (step lc st1) as [st2 [[]|e]] eqn:H2; [|done].
  destruct (lc_loop_frame _ _ _ _ _ _ _ _ _ _ H1) as (_ & Hwf1 & _).
  destruct (lc_loop_frame _ _ _ _ _ _ _ _ _ _ Hloop) as (Hk3 & _ & _).
  apply lc_loop_locals in Hloop as (kept & _ & Hk & _).
  destruct (process_lc_failed_stats lc series ValueError st1 st2) as [Hin Hout];
    try done.
  { by apply Hwf1. }
  assert (lc_id lc ∈ keep_id_list st) as Hkept.
  { rewrite Hk. apply elem_of_app. by left. }
  assert (lc_id lc ∉ keys (feature_dict st)) as Hrow.
  { intros Hx. by apply Hout, Hk3. }
  split_and!; [done | done |].
  destruct (features_stage w a st tr) as [tr' [rows|e]] eqn:Hstage; [|eauto].
  apply features_stage_Ok_kept in Hstage as [Hids _].
  rewrite Forall_forall in Hids. by apply Hids in Hkept.
Qed.
End failed_stats.

(** ** Traces *)

Lemma emits_pret {A} (P : event → Prop) (x : A) : emits P (pret x).
Proof. intros tr tr' r [= <- _]. exists []. by rewrite app_nil_r. Qed.

Lemma emits_lift {A} (P : event → Prop) (r : result A) : emits P (lift r).
Proof. intros tr tr' r' [= <- _]. exists []. by rewrite app_nil_r. Qed.

Lemma emits_call {A} (P : event → Prop) ev (r : result A) : P ev → emits P (call ev r).
Proof. intros Hev tr tr' r' [= <- _]. exists [ev]. split; [done|]. by apply Forall_singleton. Qed.

Lemma emits_bind {A B} (P : event → Prop) (c : prog trace A) (k : A → prog trace B) :
  emits P c → (∀ x, emits P (k x)) → emits P (pbind c k).
Proof.
  intros Hc Hk tr tr' r. unfold pbind.
  destruct (c tr) as [tr1 [x|e]] eqn:Hc1.
  - intros Hk1. destruct (Hc _ _ _ Hc1) as (evs1 & -> & H1).
    destruct (Hk _ _ _ _ Hk1) as (evs2 & -> & H2).
    exists (evs1 ++ evs2). split; [by rewrite app_assoc | by apply Forall_app].
  - intros [= <- _]. by eapply Hc.
Qed.

Lemma emits_mono {A} (P P' : event → Prop) (c : prog trace A) :
  (∀ ev, P ev → P' ev) → emits P c → emits P' c.
Proof.
  intros HP Hc tr tr' r Hrun. destruct (Hc _ _ _ Hrun) as (evs & -> & Hevs).
  exists evs. split; [done|]. by eapply Forall_impl.
Qed.

Section trace_facts.
Context (w : World) (a : Args).

Lemma run_period_algorithms_events algs tmes freqs ftr pd tr tr' r :
  run_period_algorithms w a algs tmes freqs ftr pd tr = (tr', r) →
  ∃ n, tr' = tr ++ (EvFindPeriods <$> take n algs) ∧
       match r with Ok _ => n = length algs | Raise _ => True end.
Proof.
  revert pd tr. induction algs as [|alg algs IH]; intros pd tr.
  { intros [= <- <-]. exists 0%nat. by rewrite app_nil_r. }
  cbn [run_period_algorithms]. unfold pbind at 1. unfold call at 1.
  destruct (find_periods w alg tmes freqs a ftr) as [[[periods sigs] pdots]|e].
  - intros Hrest. destruct (IH _ _ Hrest) as (n & -> & Hn).
    exists (S n). split.
    + by rewrite <- app_assoc.
    + destruct r; [by rewrite Hn | done].
  - intros [= <- <-]. by exists 1%nat.
Qed.

Lemma period_stage_events tmes freqs ftr tr tr' r :
  period_stage w a tmes freqs ftr tr = (tr', r) →
  ∃ n, tr' = tr ++ (if doCPU a || doGPU a
                    then EvFindPeriods <$> take n (period_algorithms a) else []) ∧
       match r with
       | Ok (algs, _) =>
           n = length (period_algorithms a) ∧ doCPU a && doGPU a = false ∧
           algs = if doCPU a || doGPU a then period_algorithms a else ["Ones"%string]
       | Raise _ => True
       end.
Proof.
  unfold period_stage. destruct (doCPU a || doGPU a) eqn:Hany.
  - destruct (doCPU a && doGPU a) eqn:Hboth.
    + intros [= <- <-]. exists 0%nat. by rewrite app_nil_r.
    + unfold pbind.
      destruct (run_period_algorithms _ _ _ _ _ _ _ tr) as [tr1 [pd|e]] eqn:Hrun.
      * intros [= <- <-]. apply run_period_algorithms_events in Hrun as (n & -> & ->).
        by exists (length (period_algorithms a)).
      * intros [= <- <-]. apply run_period_algorithms_events in Hrun as (n & -> & _).
        by exists n.
  - intros [= <- <-]. exists (length (period_algorithms a)).
    rewrite app_nil_r. split; [done|]. split; [done|]. split; [|done].
    by destruct (doCPU a).
Qed.

Lemma period_stage_emits tmes freqs ftr :
  emits (λ ev, ¬ is_write ev) (period_stage w a tmes freqs ftr).
Proof.
  intros tr tr' r (n & -> & _)%period_stage_events. eexists. split; [done|].
  destruct (doCPU a || doGPU a); [|done].
  apply Forall_fmap, Forall_forall. intros alg _ [? | [k ?]]; done.
Qed.

Lemma features_stage_emits st : emits (λ ev, ¬ is_write ev) (features_stage w a st).
Proof.
  unfold features_stage.
  apply emits_bind; [apply emits_lift|]. intros grid.
  apply emits_bind; [apply period_stage_emits|]. intros [algs pd].
  apply emits_bind; [apply emits_lift|]. intros d1.
  apply emits_bind; [apply emits_lift|]. intros d2.
  apply emits_bind. { apply emits_call. intros [? | [k ?]]; done. } intros alerts.
  apply emits_bind; [apply emits_lift|]. intros d3.
  apply emits_call. intros [? | [k ?]]; done.
Qed.

Lemma fetch_stage_emits region : emits (λ ev, ¬ is_write ev) (fetch_stage w a region).
Proof.
  destruct region as [[f c] q]. unfold fetch_stage.
  apply emits_bind. { apply emits_call. intros [? | [k ?]]; done. } intros lst.
  apply emits_bind; [apply emits_lift|]. intros lst0.
  apply emits_bind.
  { eapply emits_mono; [|intros tr tr' r; apply drop_close_bright_stars_trace].
    intros ev [n ->] [? | [k ?]]; done. }
  intros kept.
  apply emits_bind; [|intros ?; apply emits_pret].
  apply emits_call. intros [? | [k ?]]; done.
Qed.

(** X18.  A feature stage that returns has asked one period search per
    algorithm of [period_algorithms], in order, when one of [doCPU] and
    [doGPU] is set and none when neither is, then the alert statistics, then
    the cross-match; the two flags are not both set. *)
Theorem features_stage_queries st tr tr' rows :
  features_stage w a st tr = (tr', Ok rows) →
  doCPU a && doGPU a = false ∧
  tr' = tr ++ (if doCPU a || doGPU a then EvFindPeriods <$> period_algorithms a else [])
           ++ [EvAlertStats; EvExternalXmatch].
Proof.
  unfold features_stage, pbind, lift, call.
  destruct (frequency_grid _ _ _) as [grid|]; [|done].
  destruct (period_stage w a _ _ _ tr) as [tr1 [[algorithms pd]|]] eqn:Hperiod; [|done].
  destruct (fourier_stage w algorithms pd _ _ _) as [d1|]; [|done].
  destruct (for_enumerate _ 0 _ d1) as [d2|]; [|done].
  destruct (get_ztf_alert_stats w d2 _ _) as [alerts|]; [|done].
  destruct (alert_stage alerts (keys d2) d2) as [d3|]; [|done].
  intros [= <- _].
  apply period_stage_events in Hperiod as (n & -> & -> & Hboth & _).
  split; [done|]. rewrite firstn_all. by rewrite <- !app_assoc.
Qed.

(** X17.  A run that returns a table has written it last: the trace ends
    with the metadata write and the parquet write of as many sources as the
    table has rows, nothing is written before, and nothing at all with
    [doNotSave].  The table carries the six metadata attributes. *)
Theorem writes_come_last tr tr' df :
  generate_features w a tr = (tr', Ok df) →
  attrs df = metadata w a ∧
  ∃ evs, Forall (λ ev, ¬ is_write ev) evs ∧
    tr' = tr ++ evs ++ (if doNotSave a then []
                        else [EvWriteMeta; EvWriteParquet (length (rows df))]).
Proof.
  unfold generate_features, pbind at 1 2 3. unfold lift at 1. unfold run_local.
  destruct (region_of w a) as [region|]; [|done].
  destruct (fetch_stage w a region tr) as [tr1 [[fgsl lcs]|]] eqn:Hfetch; [|done].
  destruct (lc_loop _ _ _ _ _ _ _ _) as [st [[]|]]; [|done].
  apply fetch_stage_emits in Hfetch as (evs1 & -> & Hevs1).
  unfold finish, pbind.
  assert (∃ evs2 rows', (if Qltb 0 (baseline st) then features_stage w a st else pret [])
            (tr ++ evs1) = ((tr ++ evs1) ++ evs2, rows') ∧
            Forall (λ ev, ¬ is_write ev) evs2) as (evs2 & rows' & -> & Hevs2).
  { destruct (Qltb 0 (baseline st)).
    - destruct (features_stage w a st (tr ++ evs1)) as [tr2 r2] eqn:Hstage.
      apply features_stage_emits in Hstage as (evs2 & -> & Hevs2). eauto.
    - exists [], (Ok []). by rewrite app_nil_r. }
  destruct rows' as [feature_df_rows|]; [|done].
  unfold save. destruct (doNotSave a).
  - intros [= <- <-]. split; [done|]. exists (evs1 ++ evs2).
    split; [by apply Forall_app|]. by rewrite app_nil_r, app_assoc.
  - destruct region as [[f c] q]. unfold pbind, call, pret.
    destruct (write_meta w _ _ _) as [[]|]; [|done].
    destruct (write_parquet w _ _) as [[]|]; [|done].
    intros [= <- <-]. split; [done|]. exists (evs1 ++ evs2).
    split; [by apply Forall_app|]. simpl. by rewrite <- !app_assoc.
Qed.
End trace_facts.

(** ** Columns that later writes leave alone *)

Lemma set_column_writes d d' _id name v :
  set_column d _id name v = Ok d' → has_column d' _id name v.
Proof.
  unfold set_column. destruct (dget d _id) as [row|] eqn:Hrow; [|done].
  intros [= <-]. eexists. rewrite dget_adjust, decide_True, Hrow by done.
  split; [done|]. simpl. apply lookup_insert_eq.
Qed.

Lemma set_column_keeps_column d d' _id' name' v' _id name v :
  set_column d _id' name' v' = Ok d' →
  name' ≠ name ∨ v' = v →
  has_column d _id name v → has_column d' _id name v.
Proof.
  unfold set_column. destruct (dget d _id') as [row'|] eqn:Hrow'; [|done].
  intros [= <-] Hharmless (row & Hrow & Hcol). unfold has_column.
  rewrite dget_adjust. case_decide as Hid.
  - subst _id'. rewrite Hrow. eexists. split; [done|]. simpl.
    rewrite lookup_insert. case_decide as Hname; [|done].
    destruct Hharmless as [? | ->]; [done|]. by subst.
  - by exists row.
Qed.

Lemma set_columns_keeps_column d d' _id' kvs _id name v :
  set_columns d _id' kvs = Ok d' →
  Forall (λ kv, kv.1 ≠ name ∨ kv.2 = v) kvs →
  has_column d _id name v → has_column d' _id name v.
Proof.
  revert d. induction kvs as [|[name' v'] kvs IH]; intros d; cbn [set_columns].
  { by intros [= <-]. }
  destruct (set_column d _id' name' v') as [d1|] eqn:Hd1; [|done]. cbn [rbind].
  intros Hrest [Hkv Hkvs]%Forall_cons Hcol.
  apply (IH _ Hrest Hkvs). by eapply set_column_keeps_column.
Qed.

Lemma set_columns_writes d d' _id kvs name v :
  set_columns d _id kvs = Ok d' →
  (name, v) ∈ kvs →
  Forall (λ kv, kv.1 ≠ name ∨ kv.2 = v) kvs →
  has_column d' _id name v.
Proof.
  revert d. induction kvs as [|[name' v'] kvs IH]; intros d; cbn [set_columns].
  { by intros _ ?%elem_of_nil. }
  destruct (set_column d _id name' v') as [d1|] eqn:Hd1; [|done]. cbn [rbind].
  intros Hrest Hin [Hkv Hkvs]%Forall_cons.
  apply elem_of_cons in Hin as [[= <- <-] | Hin].
  - eapply set_columns_keeps_column; [exact Hrest | exact Hkvs |].
    by eapply set_column_writes.
  - by eapply IH.
Qed.

Lemma for_enumerate_keeps_column {A}
    (body : pydict Z Source → nat → A → result (pydict Z Source))
    (idx : nat) (l : list A) d d' _id name v :
  (∀ d1 d2 i x, body d1 i x = Ok d2 → has_column d1 _id name v → has_column d2 _id name v) →
  for_enumerate body idx l d = Ok d' →
  has_column d _id name v → has_column d' _id name v.
Proof.
  intros Hbody. revert idx d. induction l as [|x l IH]; intros idx d; simpl.
  { by intros [= <-]. }
  destruct (body d idx x) as [d1|] eqn:Hd1; [|done]. simpl.
  intros Hrest Hcol. eapply IH; [exact Hrest|]. by eapply Hbody.
Qed.

Section ones.
Context (w : World) (a : Args).

(** the names lines 534-536 write for the algorithm [Ones] *)
Local Abbreviation ones_names :=
  ["period_Ones"; "significance_Ones"; "pdot_Ones"]%string.

Local Abbreviation ones_dicts n :=
  (mkPeriods {["Ones"%string := replicate n 1%Q]} {["Ones"%string := replicate n 1%Q]}
             {["Ones"%string := replicate n 1%Q]}).

Lemma index_replicate_one n idx (x : Q) : index (replicate n 1%Q) idx = Ok x → x = 1%Q.
Proof.
  unfold index. destruct (replicate n 1%Q !! idx) as [y|] eqn:Hy; [|done].
  apply lookup_replicate in Hy as [-> _]. by intros [= <-].
Qed.

Lemma fourier_names_not_ones name stats :
  name ∈ ones_names →
  Forall (λ kv : string * fval, kv.1 ≠ name ∨ kv.2 = FNum 1)
         (zip ((λ name, name +:+ "_" +:+ "Ones") <$> fourier_stat_names) stats).
Proof.
  intros Hname. apply Forall_forall. intros [k v] Hin%elem_of_zip_l. left. simpl.
  intros ->. revert Hin.
  repeat (apply elem_of_cons in Hname as [-> | Hname]);
    [ | | | by apply elem_of_nil in Hname];
    apply (bool_decide_unpack _); vm_compute; exact I.
Qed.

Lemma fourier_row_ones n tmes d d' idx _id name :
  name ∈ ones_names →
  fourier_row w "Ones" (ones_dicts n) tmes d idx _id = Ok d' →
  has_column d' _id name (FNum 1) ∧
  ∀ _id0, has_column d _id0 name (FNum 1) → has_column d' _id0 name (FNum 1).
Proof.
  intros Hname. unfold fourier_row, lookup_key. cbn [period_dict significance_dict pdot_dict].
  rewrite !lookup_singleton_eq. cbn [from_option rbind].
  destruct (index (replicate n 1%Q) idx) as [one|] eqn:Hone; [|done].
  apply index_replicate_one in Hone as ->. cbn [rbind].
  destruct (index tmes idx) as [[[tt' mm] ee]|]; [|done]. cbn [rbind].
  destruct (let? r := calc_fourier_stats w tt' mm ee 1 in unpack 14 r) as [stats|];
    [|done].
  cbn [rbind].
  destruct (set_columns d _id _ ) as [d1|] eqn:Hd1; [|done]. cbn [rbind].
  intros Hd'.
  assert (Forall (λ kv : string * fval, kv.1 ≠ name ∨ kv.2 = FNum 1)
            [("period_" +:+ "Ones", FNum 1); ("significance_" +:+ "Ones", FNum 1);
             ("pdot_" +:+ "Ones", FNum 1)]) as Hlast.
  { repeat apply Forall_cons_2; try apply Forall_nil_2; by right. }
  split.
  - eapply set_columns_writes; [exact Hd' | | exact Hlast].
    repeat (apply elem_of_cons in Hname as [-> | Hname]);
      [ | | | by apply elem_of_nil in Hname];
      first [by left | right; by left | right; right; by left].
  - intros _id0 Hcol. eapply set_columns_keeps_column; [exact Hd' | exact Hlast |].
    eapply set_columns_keeps_column; [exact Hd1 | | exact Hcol].
    by apply fourier_names_not_ones.
Qed.

Lemma fourier_loop_ones n tmes idx ids d d' name :
  name ∈ ones_names →
  for_enumerate (fourier_row w "Ones" (ones_dicts n) tmes) idx ids d = Ok d' →
  (∀ _id, _id ∈ ids → has_column d' _id name (FNum 1)) ∧
  (∀ _id, has_column d _id name (FNum 1) → has_column d' _id name (FNum 1)).
Proof.
  intros Hname. revert idx d. induction ids as [|_id ids IH]; intros idx d; simpl.
  { intros [= <-]. split; [by intros ? ?%elem_of_nil | done]. }
  destruct (fourier_row _ _ _ _ d idx _id) as [d1|] eqn:Hd1; [|done]. simpl.
  intros Hrest. destruct (IH _ _ Hrest) as [Hnew Hold].
  destruct (fourier_row_ones _ _ _ _ _ _ _ Hname Hd1) as [Hid Hd].
  split.
  - intros _id0 [-> | Hin]%elem_of_cons; [by apply Hold | by apply Hnew].
  - intros _id0 Hcol. by apply Hold, Hd.
Qed.

Lemma dmdt_row_keeps_column tmes d d' idx _id' _id name v :
  name ≠ "dmdt"%string →
  dmdt_row w tmes d idx _id' = Ok d' →
  has_column d _id name v → has_column d' _id name v.
Proof.
  intros Hname. unfold dmdt_row.
  destruct (index tmes idx) as [[[tt' mm] ee]|]; [|done]. cbn [rbind].
  destruct (compute_dmdt w tt' mm) as [dmdt|]; [|done]. cbn [rbind].
  intros Hset. eapply set_column_keeps_column; [exact Hset|]. by left.
Qed.

Lemma alert_stage_keeps_column alert_stats_dct ids d d' _id name v :
  name ≠ "n_ztf_alerts"%string → name ≠ "mean_ztf_alert_braai"%string →
  alert_stage alert_stats_dct ids d = Ok d' →
  has_column d _id name v → has_column d' _id name v.
Proof.
  intros Hn1 Hn2. revert d. induction ids as [|_id' rest IH]; intros d; simpl.
  { by intros [= <-]. }
  destruct (getitem alert_stats_dct _id') as [row|]; [|done]. cbn [rbind].
  destruct (lookup_key row "n_ztf_alerts") as [n|]; [|done]. cbn [rbind].
  destruct (set_column d _id' "n_ztf_alerts" n) as [d1|] eqn:Hd1; [|done].
  cbn [rbind].
  destruct (lookup_key row "mean_ztf_alert_braai") as [braai|]; [|done].
  cbn [rbind].
  destruct (set_column d1 _id' "mean_ztf_alert_braai" braai) as [d2|] eqn:Hd2;
    [|done].
  cbn [rbind]. intros Hrest Hcol. apply (IH _ Hrest).
  eapply set_column_keeps_column; [exact Hd2 | by left |].
  eapply set_column_keeps_column; [exact Hd1 | by left | done].
Qed.

(** X16.  With neither [doCPU] nor [doGPU] the period search is skipped,
    and in the dictionary handed to the cross-match every kept source has
    [period_Ones], [significance_Ones] and [pdot_Ones] equal to 1; the
    dictionary has the rows the loop left. *)
Theorem skipped_period_search_sets_ones st tr tr' rows :
  doCPU a = false → doGPU a = false →
  features_stage w a st tr = (tr', Ok rows) →
  ∃ d, xmatch w d (xmatch_radius_arcsec a) (limit a) = Ok rows ∧
       keys d = keys (feature_dict st) ∧
       ∀ _id, _id ∈ keep_id_list st →
         has_column d _id "period_Ones" (FNum 1) ∧
         has_column d _id "significance_Ones" (FNum 1) ∧
         has_column d _id "pdot_Ones" (FNum 1).
Proof.
  intros Hcpu Hgpu. unfold features_stage, pbind, lift, call, period_stage.
  rewrite Hcpu, Hgpu. cbn [orb]. unfold pret.
  destruct (frequency_grid _ _ _) as [grid|]; [|done].
  destruct (fourier_stage w _ _ _ _ _) as [d1|] eqn:Hd1; [|done].
  destruct (for_enumerate _ 0 _ d1) as [d2|] eqn:Hd2; [|done].
  destruct (get_ztf_alert_stats w d2 _ _) as [alerts|]; [|done].
  destruct (alert_stage alerts (keys d2) d2) as [d3|] eqn:Hd3; [|done].
  intros [= _ Hx]. exists d3. split; [done|]. split.
  { rewrite (alert_stage_keeps_rows _ _ _ _ Hd3).
    rewrite (for_enumerate_keeps_rows _ 0 _ (dmdt_row_keeps_rows w _) _ _ Hd2).
    by apply (fourier_stage_keeps_rows _ _ _ _ _ _ _ Hd1). }
  assert (∀ name _id, name ∈ ones_names → _id ∈ keep_id_list st →
            has_column d3 _id name (FNum 1)) as Hcols.
  { intros name _id Hname Hin.
    assert (name ≠ "dmdt"%string ∧ name ≠ "n_ztf_alerts"%string ∧
            name ≠ "mean_ztf_alert_braai"%string) as (Hn0 & Hn1 & Hn2).
    { repeat (apply elem_of_cons in Hname as [-> | Hname]);
        [ | | | by apply elem_of_nil in Hname]; done. }
    eapply alert_stage_keeps_column; [done | done | exact Hd3 |].
    apply (for_enumerate_keeps_column (dmdt_row w (tme_collection st)) 0
             (keep_id_list st) d1 d2); [|exact Hd2|].
    { intros ? ? ? ?. by apply dmdt_row_keeps_column. }
    cbn [fourier_stage] in Hd1.
    destruct (for_enumerate _ 0 (keep_id_list st) (feature_dict st)) as [d0|] eqn:Hd0;
      [|done].
    cbn [rbind] in Hd1. injection Hd1 as <-.
    destruct (fourier_loop_ones _ _ _ _ _ _ _ Hname Hd0) as [Hnew _].
    by apply Hnew. }
  intros _id Hin. split_and!; apply Hcols; try done.
  - by left.
  - right. by left.
  - right. right. by left.
Qed.
End ones.

Lemma drop_close_bright_stars_empty separation TychoBVfromGaia exclude_radius
    kowalski_instance catalog query_radius_arcsec xmatch_radius_arcsec limit tr :
  limit ≠ 0%Z →
  drop_close_bright_stars separation TychoBVfromGaia exclude_radius
    kowalski_instance catalog query_radius_arcsec xmatch_radius_arcsec limit [] tr
  = (tr, Ok []).
Proof.
  intros Hlim. rewrite drop_unfold. unfold query_phase, pbind, lift.
  unfold n_iterations_of. rewrite decide_False by done.
  cbn [length Z.of_nat]. rewrite Z.mod_0_l by done.
  rewrite decide_False by (intros Hne; by apply Hne).
  rewrite Z.div_0_l by done. done.
Qed.

Section empty_quadrant.
Context (w : World) (a : Args).

(** X20.  A quadrant without sources: when the id query returns an empty
    dictionary first and the light-curve service returns nothing, no cone
    search is made and the run goes straight to saving the table without
    rows. *)
Theorem empty_quadrant_gives_empty_table tr region others :
  region_of w a = Ok region →
  limit a ≠ 0%Z →
  get_ids_loop w (source_catalog a) (limit a) region.1.1 region.1.2 region.2
               (stop_early a) = Ok ([] :: others) →
  get_lightcurves_via_ids w [] (source_catalog a) (limit a) = Ok [] →
  generate_features w a tr =
    match save w a region (mkDF [] (metadata w a))
               (tr ++ [EvGetIds region.1.1 region.1.2 region.2; EvGetLightcurves 0]) with
    | (tr', Ok _) => (tr', Ok (mkDF [] (metadata w a)))
    | (tr', Raise e) => (tr', Raise e)
    end.
Proof.
  intros Hregion Hlim Hids Hlcs.
  assert (fetch_stage w a region tr
          = (tr ++ [EvGetIds region.1.1 region.1.2 region.2; EvGetLightcurves 0],
             Ok ([], []))) as Hfetch.
  { destruct region as [[f c] q]. simpl in Hids.
    unfold fetch_stage, pbind, call, lift, pret. rewrite Hids. cbn [index lookup list_lookup].
    rewrite drop_close_bright_stars_empty by done. cbn [keys fmap list_fmap length]. rewrite Hlcs.
    by rewrite <- app_assoc. }
  rewrite (generate_features_unfold w a tr region _ [] [] (initial_state []) Hregion Hfetch)
    by done.
  by apply finish_empty.
Qed.
End empty_quadrant.

(** ** Rows of other sources *)

Lemma other_rows_refl _id st : other_rows _id st st.
Proof. by intros ? ?. Qed.

Lemma other_rows_trans _id st1 st2 st3 :
  other_rows _id st1 st2 → other_rows _id st2 st3 → other_rows _id st1 st3.
Proof. intros H12 H23 _id' Hne. by rewrite H23, H12. Qed.

Lemma other_rows_on_feature_dict _id f :
  (∀ d d' _id', f d = Ok d' → _id' ≠ _id → dget d' _id' = dget d _id') →
  respects (other_rows _id) (on_feature_dict f).
Proof.
  intros Hf st st' r. unfold on_feature_dict.
  destruct (f (feature_dict st)) as [d|] eqn:Hd; intros [= <- _].
  - intros _id' Hne. simpl. by eapply Hf.
  - apply other_rows_refl.
Qed.

Lemma set_column_other_row d d' _id name v _id' :
  set_column d _id name v = Ok d' → _id' ≠ _id → dget d' _id' = dget d _id'.
Proof.
  unfold set_column. destruct (dget d _id); [|done]. intros [= <-] Hne.
  rewrite dget_adjust. by rewrite decide_False.
Qed.

Lemma set_columns_other_row d d' _id kvs _id' :
  set_columns d _id kvs = Ok d' → _id' ≠ _id → dget d' _id' = dget d _id'.
Proof.
  revert d. induction kvs as [|[name v] kvs IH]; intros d; cbn [set_columns].
  { by intros [= <-]. }
  destruct (set_column d _id name v) as [d1|] eqn:Hd1; [|done]. cbn [rbind].
  intros Hrest Hne. rewrite (IH _ Hrest Hne). by eapply set_column_other_row.
Qed.

Lemma update_columns_other_row d d' _id feats _id' :
  update_columns d _id feats = Ok d' → _id' ≠ _id → dget d' _id' = dget d _id'.
Proof.
  unfold update_columns. destruct (dget d _id); [|done]. intros [= <-] Hne.
  rewrite dget_adjust. by rewrite decide_False.
Qed.

Lemma pop_other_row (d d' : pydict Z Source) _id _id' :
  pop d _id = Ok d' → _id' ≠ _id → dget d' _id' = dget d _id'.
Proof. intros [-> _]%pop_Ok Hne. by apply dget_remove_ne. Qed.

Section other_rows_facts.
Context (w : World) (a : Args) (fgsl : pydict Z Source) (field' ccd' quad' : Z).

Local Abbreviation accept := (accept_source w a fgsl field' ccd' quad').
Local Abbreviation record := (record_columns w a fgsl field' ccd' quad').
Local Abbreviation body := (try_body w a fgsl field' ccd' quad').
Local Abbreviation step := (process_lc w a fgsl field' ccd' quad').
Local Abbreviation loop := (lc_loop w a fgsl field' ccd' quad').

Lemma record_columns_other_rows _id flt tt' mm ee cesium_TS :
  respects (other_rows _id) (record _id flt tt' mm ee cesium_TS).
Proof.
  pose proof (other_rows_refl _id) as Hr. pose proof (other_rows_trans _id) as Ht.
  unfold record_columns.
  apply respects_bind; [done | done | by apply respects_lift |]. intros src.
  apply respects_bind; [done | done | |].
  { apply other_rows_on_feature_dict. intros ? ? ?. apply set_column_other_row. }
  intros _.
  apply respects_bind; [done | done | by apply respects_lift |]. intros src'.
  apply respects_bind; [done | done | |].
  { apply other_rows_on_feature_dict. intros ? ? ?. apply set_columns_other_row. }
  intros _.
  apply respects_bind; [done | done | by apply respects_lift |]. intros stats.
  apply respects_bind; [done | done | |].
  { apply other_rows_on_feature_dict. intros ? ? ?. apply set_columns_other_row. }
  intros _.
  destruct cesium_TS as [ts|]; [|by apply respects_pret].
  apply respects_bind; [done | done | by apply respects_lift |].
  intros ?. apply other_rows_on_feature_dict. intros ? ? ?.
  apply update_columns_other_row.
Qed.

Lemma pop_row_other_rows _id : respects (other_rows _id) (pop_row _id).
Proof. apply other_rows_on_feature_dict. intros ? ? ?. apply pop_other_row. Qed.

Lemma process_lc_other_rows lc : respects (other_rows (lc_id lc)) (step lc).
Proof.
  pose proof (other_rows_refl (lc_id lc)) as Hr.
  pose proof (other_rows_trans (lc_id lc)) as Ht.
  unfold process_lc.
  apply respects_try_except; [done | done | | apply pop_row_other_rows].
  unfold try_body.
  apply respects_bind; [done | done | by apply respects_lift |]. intros [[t m] e].
  apply respects_bind; [done | done | by apply respects_lift |]. intros [[tt' mm] ee].
  case_decide; [apply pop_row_other_rows|].
  intros st st' r. rewrite accept_source_run. cbv zeta.
  destruct (if doCesium a then _ else _) as [cesium_TS|]; [|by intros [= <- _]].
  destruct (Qmax_list tt') as [hi|]; [|by intros [= <- _]].
  destruct (Qmin_list tt') as [lo|]; [|by intros [= <- _]].
  intros Hrec. by apply record_columns_other_rows in Hrec.
Qed.

(** X21.  A source for which no light curve came back keeps its row
    exactly as it was when the loop ends, and does not enter
    [keep_id_list]: the loop only touches the rows of the ids it is shown. *)
Theorem rows_without_light_curve_untouched lcs st st' r _id :
  loop lcs st = (st', r) →
  _id ∉ lc_id <$> lcs →
  dget (feature_dict st') _id = dget (feature_dict st) _id ∧
  (_id ∈ keep_id_list st' → _id ∈ keep_id_list st).
Proof.
  intros Hloop Hid. split.
  - revert st Hloop. induction lcs as [|lc lcs IH]; intros st.
    { by intros [= <- _]. }
    rewrite fmap_cons, not_elem_of_cons in Hid. destruct Hid as [Hne Hid].
    rewrite lc_loop_cons. destruct (step lc st) as [st1 [[]|e]] eqn:Hstep.
    + intros Hrest. rewrite (IH Hid _ Hrest).
      by apply (process_lc_other_rows lc _ _ _ Hstep).
    + intros [= <- _]. by apply (process_lc_other_rows lc _ _ _ Hstep).
  - intros Hin. destruct (lc_loop_frame _ _ _ _ _ _ _ _ _ _ Hloop) as (_ & _ & Hkeep).
    by destruct (Hkeep _ Hin).
Qed.
End other_rows_facts.

(** ** Alert statistics *)

Lemma alert_stage_other_row (alerts : pydict Z (gmap string fval)) ids d d' _id :
  alert_stage alerts ids d = Ok d' → _id ∉ ids → dget d' _id = dget d _id.
Proof.
  revert d. induction ids as [|_id0 ids IH]; intros d; simpl.
  { by intros [= <-]. }
  destruct (getitem alerts _id0) as [row|]; [|done]. cbn [rbind].
  destruct (lookup_key row "n_ztf_alerts") as [n|]; [|done]. cbn [rbind].
  destruct (set_column d _id0 "n_ztf_alerts" n) as [d1|] eqn:Hd1; [|done].
  cbn [rbind].
  destruct (lookup_key row "mean_ztf_alert_braai") as [braai|]; [|done].
  cbn [rbind].
  destruct (set_column d1 _id0 "mean_ztf_alert_braai" braai) as [d2|] eqn:Hd2;
    [|done].
  cbn [rbind]. intros Hrest [Hne Hid]%not_elem_of_cons.
  rewrite (IH _ Hrest Hid).
  rewrite (set_column_other_row _ _ _ _ _ _ Hd2 Hne).
  by rewrite (set_column_other_row _ _ _ _ _ _ Hd1 Hne).
Qed.

(** X22.  When the alert stage returns, the alert statistics had an entry
    with both counts for every row, each row carries [n_ztf_alerts] and
    [mean_ztf_alert_braai] from the entry of its own id, and no row is added
    or removed. *)
Theorem alert_columns_for_every_row (alerts : pydict Z (gmap string fval)) d d' :
  pydict_wf d →
  alert_stage alerts (keys d) d = Ok d' →
  keys d' = keys d ∧
  ∀ _id, _id ∈ keys d →
    ∃ row n braai,
      dget alerts _id = Some row ∧
      row !! "n_ztf_alerts"%string = Some n ∧
      row !! "mean_ztf_alert_braai"%string = Some braai ∧
      has_column d' _id "n_ztf_alerts" n ∧
      has_column d' _id "mean_ztf_alert_braai" braai.
Proof.
  intros Hwf Hstage. split; [by apply (alert_stage_keeps_rows alerts (keys d))|].
  unfold pydict_wf in Hwf. revert Hwf Hstage. generalize (keys d) as ids.
  intros ids. revert d. induction ids as [|_id0 ids IH]; intros d Hnd; simpl.
  { by intros _ ? ?%elem_of_nil. }
  apply NoDup_cons in Hnd as [Hfresh Hnd].
  unfold getitem, lookup_key.
  destruct (dget alerts _id0) as [row|] eqn:Hrow; [|done]. cbn [rbind].
  destruct (row !! "n_ztf_alerts"%string) as [n|] eqn:Hn; [|done].
  cbn [from_option rbind].
  destruct (set_column d _id0 "n_ztf_alerts" n) as [d1|] eqn:Hd1; [|done].
  cbn [rbind].
  destruct (row !! "mean_ztf_alert_braai"%string) as [braai|] eqn:Hb; [|done].
  cbn [from_option rbind].
  destruct (set_column d1 _id0 "mean_ztf_alert_braai" braai) as [d2|] eqn:Hd2;
    [|done].
  cbn [rbind]. intros Hrest _id [-> | Hin]%elem_of_cons.
  - exists row, n, braai. split_and!; try done.
    + unfold has_column. rewrite (alert_stage_other_row _ _ _ _ _ Hrest Hfresh).
      eapply set_column_keeps_column; [exact Hd2 | by left |].
      by eapply set_column_writes.
    + unfold has_column. rewrite (alert_stage_other_row _ _ _ _ _ Hrest Hfresh).
      by eapply set_column_writes.
  - by apply (IH _ Hnd Hrest).
Qed.

(** ** The further properties on the small sky and the small run *)

(** X1 on the three sources in batches of two. *)
Lemma batches_partition_keys_witness :
  concat (id_slice_of 2 Demo.id_dct <$> seqZ 0 2) = keys Demo.id_dct ∧
  Forall (λ i, (0 < Z.of_nat (length (id_slice_of 2 Demo.id_dct i)) <= 2)%Z) (seqZ 0 2).
Proof.
  destruct (batches_partition_keys 2 Demo.id_dct 2) as (_ & Hcat & Hall).
  - lia.
  - reflexivity.
  - by split.
Defined.

(** X2 on the three sources in batches of two: two cone searches, for two
    ids and for one. *)
Lemma one_cone_search_per_batch_witness :
  ∃ res, query_phase Demo.gloria "gaia" 300%Q 2 Demo.id_dct []
         = ([EvConeSearch "gaia" 2; EvConeSearch "gaia" 1], Ok res).
Proof.
  apply (one_cone_search_per_batch Demo.gloria "gaia" 300%Q 2 Demo.id_dct [] 2).
  - reflexivity.
  - intros radec. eexists. reflexivity.
Defined.

(** X3 with the service that fails on the second batch. *)
Lemma failed_query_stops_batches_witness :
  query_batches DemoEdge.flaky "gaia" 300%Q 2 Demo.id_dct [0; 1]%Z ∅ []
  = ([EvConeSearch "gaia" 2; EvConeSearch "gaia" 1], Raise ServiceError).
Proof.
  apply (failed_query_stops_batches DemoEdge.flaky "gaia" 300%Q 2 Demo.id_dct []
           ∅ [0%Z] 1%Z [] ServiceError).
  - intros j ->%list_elem_of_singleton radec Hradec.
    vm_compute in Hradec. injection Hradec as <-. eexists. reflexivity.
  - intros radec Hradec. vm_compute in Hradec. injection Hradec as <-. reflexivity.
Defined.

(** X5 on a candidate without a colour, on top of the source. *)
Lemma harmless_candidates_keep_witness :
  contaminated Demo.separation Demo.TychoBVfromGaia Demo.exclude_radius 2%Q
               Demo.src [Demo.star_on_source] = false.
Proof.
  destruct (harmless_candidates_keep Demo.separation Demo.TychoBVfromGaia
              Demo.exclude_radius Demo.gloria "gaia" 300%Q 2%Q 2%Z Demo.src
              [Demo.star_on_source]) as [Hkept _]; [|exact Hkept].
  apply Forall_cons_2; [|apply Forall_nil_2]. right. left. reflexivity.
Defined.

(** X6 on the small sky: sources 1 and 3 survive, in this order. *)
Lemma survivors_are_a_sublist_witness :
  [(1%Z, Demo.src); (3%Z, mkSource (11, 20)%Q ∅)] `sublist_of` Demo.id_dct ∧
  pydict_wf [(1%Z, Demo.src); (3%Z, mkSource (11, 20)%Q ∅)] ∧
  (2 <= 3)%nat.
Proof.
  apply (survivors_are_a_sublist Demo.separation Demo.TychoBVfromGaia
           Demo.exclude_radius Demo.gloria "gaia" 300%Q 2%Q 2%Z Demo.id_dct []
           [EvConeSearch "gaia" 2; EvConeSearch "gaia" 1]
           [(1%Z, Demo.src); (3%Z, mkSource (11, 20)%Q ∅)]).
  - exact demo_id_dct_wf.
  - vm_compute. reflexivity.
Defined.

(** X7 on the small sky with [limit = 0]. *)
Lemma nonpositive_limit_witness :
  Demo.drop Demo.gloria 0 Demo.id_dct [] = ([], Raise ZeroDivisionError).
Proof.
  apply (nonpositive_limit Demo.separation Demo.TychoBVfromGaia Demo.exclude_radius
           Demo.gloria "gaia" 300%Q 2%Q 0%Z Demo.id_dct []).
  reflexivity.
Defined.

(** X8 on the small sky, one id per batch and two. *)
Lemma batch_size_is_immaterial_witness :
  ∃ keep tr1' tr2',
    Demo.drop Demo.gloria 1 Demo.id_dct [] = (tr1', Ok keep) ∧
    Demo.drop Demo.gloria 2 Demo.id_dct [] = (tr2', Ok keep).
Proof.
  apply (batch_size_is_immaterial Demo.separation Demo.TychoBVfromGaia
           Demo.exclude_radius Demo.gloria "gaia" 300%Q 2%Q Demo.cone
           (λ radec, eq_refl) 1%Z 2%Z Demo.id_dct [] []).
  - lia.
  - lia.
  - exact demo_id_dct_wf.
Defined.

(** X9 on the small sky split after its first source. *)
Lemma sources_are_judged_independently_witness :
  ∃ keep1 keep2 tr1 tr2 tr',
    Demo.drop Demo.gloria 2 [(1%Z, Demo.src)] [] = (tr1, Ok keep1) ∧
    Demo.drop Demo.gloria 2
      [(2%Z, mkSource (10, 40)%Q ∅); (3%Z, mkSource (11, 20)%Q ∅)] []
    = (tr2, Ok keep2) ∧
    Demo.drop Demo.gloria 2 Demo.id_dct [] = (tr', Ok (keep1 ++ keep2)).
Proof.
  apply (sources_are_judged_independently Demo.separation Demo.TychoBVfromGaia
           Demo.exclude_radius Demo.gloria "gaia" 300%Q 2%Q Demo.cone
           (λ radec, eq_refl) 2%Z [(1%Z, Demo.src)]
           [(2%Z, mkSource (10, 40)%Q ∅); (3%Z, mkSource (11, 20)%Q ∅)] []).
  - lia.
  - exact demo_id_dct_wf.
Defined.

(** X10 on two rejected light curves of source 3: the second [pop] raises
    [KeyError]. *)
Lemma loop_stops_at_first_error_witness :
  lc_loop (DemoRun.world []) (DemoRun.args false false) DemoRun.fgsl 296 1 1
          [DemoRun.lc_short; DemoRun.lc_flagged] (initial_state DemoRun.fgsl)
  = (mkLoop [(1%Z, Demo.src)] 0%Q [] [], Raise KeyError) ∧
  KeyError ≠ ValueError.
Proof.
  assert (lc_loop (DemoRun.world []) (DemoRun.args false false) DemoRun.fgsl 296 1 1
            [DemoRun.lc_short; DemoRun.lc_flagged] (initial_state DemoRun.fgsl)
          = (mkLoop [(1%Z, Demo.src)] 0%Q [] [], Raise KeyError)) as Hrun
    by (vm_compute; reflexivity).
  split; [exact Hrun|].
  exact (proj1 (loop_stops_at_first_error _ _ _ _ _ _ _ _ _ _ Hrun)).
Defined.

(** X11 on a flagged and a short light curve of source 3. *)
Lemma rejected_without_row_raises_witness :
  lc_loop (DemoRun.world []) (DemoRun.args false false) DemoRun.fgsl 296 1 1
          [DemoRun.lc_flagged; DemoRun.lc_short] (initial_state DemoRun.fgsl)
  = (reject DemoRun.lc_flagged (initial_state DemoRun.fgsl), Raise KeyError).
Proof.
  destruct (rejected_without_row_raises (DemoRun.world []) (DemoRun.args false false)
              DemoRun.fgsl 296 1 1 DemoRun.lc_flagged DemoRun.lc_short []
              (initial_state DemoRun.fgsl)) as [_ Htwice].
  - left. right. left. reflexivity.
  - apply Htwice.
    + apply (bool_decide_unpack _). vm_compute. exact I.
    + apply (bool_decide_unpack _). vm_compute. exact I.
    + right. exists [0%Q], [15%Q], [(1 # 10)%Q], [0%Q], [15%Q], [(1 # 10)%Q].
      split_and!; reflexivity.
    + reflexivity.
Defined.


(** X13 on the run with a good and a short light curve. *)
Lemma loop_keeps_lists_aligned_witness :
  keep_id_list (DemoEdge.loop_end (DemoRun.world []) (DemoRun.args false false)
                  [DemoRun.lc_good; DemoRun.lc_short])
    `sublist_of` [1%Z; 3%Z] ∧
  (length (tme_collection
             (DemoEdge.loop_end (DemoRun.world []) (DemoRun.args false false)
                [DemoRun.lc_good; DemoRun.lc_short]))
   ≤ length (keep_id_list
               (DemoEdge.loop_end (DemoRun.world []) (DemoRun.args false false)
                  [DemoRun.lc_good; DemoRun.lc_short])))%nat ∧
  (0 <= baseline (DemoEdge.loop_end (DemoRun.world []) (DemoRun.args false false)
                    [DemoRun.lc_good; DemoRun.lc_short]))%Q ∧
  ((0 < baseline (DemoEdge.loop_end (DemoRun.world []) (DemoRun.args false false)
                    [DemoRun.lc_good; DemoRun.lc_short]))%Q →
   tme_collection (DemoEdge.loop_end (DemoRun.world []) (DemoRun.args false false)
                     [DemoRun.lc_good; DemoRun.lc_short]) ≠ [] ∧
   keep_id_list (DemoEdge.loop_end (DemoRun.world []) (DemoRun.args false false)
                   [DemoRun.lc_good; DemoRun.lc_short]) ≠ []).
Proof.
  apply (loop_keeps_lists_aligned (DemoRun.world []) (DemoRun.args false false)
           DemoRun.fgsl 296 1 1 [DemoRun.lc_good; DemoRun.lc_short]
           (DemoEdge.loop_end (DemoRun.world []) (DemoRun.args false false)
              [DemoRun.lc_good; DemoRun.lc_short])
           (Ok tt)).
  vm_compute. reflexivity.
Defined.

(** X14 on the run with a brief and a short light curve and the CPU period
    search. *)
Lemma successful_run_has_rows_for_kept_ids_witness :
  Forall (λ _id, _id ∈ keys (feature_dict
                               (DemoRun.loop_end [DemoEdge.lc_brief; DemoRun.lc_short]
                                                 (DemoRun.args true false))))
         (keep_id_list (DemoRun.loop_end [DemoEdge.lc_brief; DemoRun.lc_short]
                                         (DemoRun.args true false))) ∧
  length (tme_collection (DemoRun.loop_end [DemoEdge.lc_brief; DemoRun.lc_short]
                                           (DemoRun.args true false)))
  = length (keep_id_list (DemoRun.loop_end [DemoEdge.lc_brief; DemoRun.lc_short]
                                           (DemoRun.args true false))).
Proof.
  pose (lcs := [DemoEdge.lc_brief; DemoRun.lc_short]).
  pose (a := DemoRun.args true false).
  apply (successful_run_has_rows_for_kept_ids (DemoRun.world lcs) a DemoRun.fgsl
           296 1 1 lcs (DemoRun.loop_end lcs a) DemoRun.fetched
           (DemoRun.fetched ++ [EvFindPeriods "LS"; EvAlertStats; EvExternalXmatch])
           (DemoEdge.feature_rows (DemoRun.world lcs) a lcs)).
  - vm_compute. reflexivity.
  - vm_compute. reflexivity.
Defined.

(** X15 on the brief light curve in a world whose [calc_basic_stats] raises
    [ValueError]. *)
Lemma failed_stats_fail_the_run_witness :
  1%Z ∈ keep_id_list
          (DemoEdge.loop_end
             (DemoEdge.world [Demo.id_dct] (Raise ValueError) [DemoEdge.lc_brief])
             (DemoRun.args true false) [DemoEdge.lc_brief]) ∧
  (1%Z ∉ keys (feature_dict
                 (DemoEdge.loop_end
                    (DemoEdge.world [Demo.id_dct] (Raise ValueError) [DemoEdge.lc_brief])
                    (DemoRun.args true false) [DemoEdge.lc_brief]))) ∧
  ∃ tr' e,
    features_stage (DemoEdge.world [Demo.id_dct] (Raise ValueError) [DemoEdge.lc_brief])
                   (DemoRun.args true false)
                   (DemoEdge.loop_end
                      (DemoEdge.world [Demo.id_dct] (Raise ValueError) [DemoEdge.lc_brief])
                      (DemoRun.args true false) [DemoEdge.lc_brief])
                   DemoRun.fetched
    = (tr', Raise e).
Proof.
  pose (lcs := [DemoEdge.lc_brief]).
  pose (w := DemoEdge.world [Demo.id_dct] (Raise ValueError) lcs).
  pose (a := DemoRun.args true false).
  apply (failed_stats_fail_the_run w a DemoRun.fgsl 296 1 1 lcs DemoEdge.lc_brief
           ([0; 1 # 200; 1 # 100]%Q, [15; 15; 15]%Q, [1 # 10; 1 # 10; 1 # 10]%Q)
           (DemoEdge.loop_end w a lcs) DemoRun.fetched).
  - apply (bool_decide_unpack _). vm_compute. exact I.
  - by left.
  - exists [0; 1 # 200; 1 # 100]%Q, [15; 15; 15]%Q, [1 # 10; 1 # 10; 1 # 10]%Q.
    split_and!; [reflexivity | reflexivity | simpl; lia].
  - reflexivity.
  - reflexivity.
  - vm_compute. reflexivity.
Defined.

(** X16 on the run with a brief and a short light curve and no period
    search. *)
Lemma skipped_period_search_sets_ones_witness :
  has_column (DemoEdge.feature_rows
                (DemoRun.world [DemoEdge.lc_brief; DemoRun.lc_short])
                (DemoRun.args false false) [DemoEdge.lc_brief; DemoRun.lc_short])
             1 "period_Ones" (FNum 1).
Proof.
  remember (DemoEdge.feature_rows
              (DemoRun.world [DemoEdge.lc_brief; DemoRun.lc_short])
              (DemoRun.args false false) [DemoEdge.lc_brief; DemoRun.lc_short])
    as rows eqn:Hrows.
  pose (lcs := [DemoEdge.lc_brief; DemoRun.lc_short]).
  pose (a := DemoRun.args false false).
  destruct (skipped_period_search_sets_ones (DemoRun.world lcs) a
              (DemoRun.loop_end lcs a) DemoRun.fetched
              (DemoRun.fetched ++ [EvAlertStats; EvExternalXmatch]) rows)
    as (d & Hx & _ & Hcols).
  - reflexivity.
  - reflexivity.
  - rewrite Hrows. vm_compute. reflexivity.
  - change (Ok d = Ok rows) in Hx. injection Hx as Hd. subst d.
    apply Hcols. vm_compute. by left.
Defined.

(** X17 on the run with a brief and a short light curve: one source is
    written, after the five queries. *)
Lemma writes_come_last_witness :
  attrs (DemoRun.table [DemoEdge.lc_brief; DemoRun.lc_short] (DemoRun.args true false))
  = metadata (DemoRun.world [DemoEdge.lc_brief; DemoRun.lc_short])
             (DemoRun.args true false) ∧
  ∃ evs, Forall (λ ev, ¬ is_write ev) evs ∧
    DemoRun.finished [DemoEdge.lc_brief; DemoRun.lc_short] (DemoRun.args true false)
    = [] ++ evs ++ [EvWriteMeta; EvWriteParquet 1].
Proof.
  pose (lcs := [DemoEdge.lc_brief; DemoRun.lc_short]).
  pose (a := DemoRun.args true false).
  apply (writes_come_last (DemoRun.world lcs) a [] (DemoRun.finished lcs a)
           (DemoRun.table lcs a)).
  vm_compute. reflexivity.
Defined.

(** X18 on the same run: one period search, for [LS]. *)
Lemma features_stage_queries_witness :
  (features_stage (DemoRun.world [DemoEdge.lc_brief; DemoRun.lc_short])
                  (DemoRun.args true false)
                  (DemoRun.loop_end [DemoEdge.lc_brief; DemoRun.lc_short]
                                    (DemoRun.args true false))
                  DemoRun.fetched).1
  = DemoRun.fetched ++ [EvFindPeriods "LS"] ++ [EvAlertStats; EvExternalXmatch].
Proof.
  cut (true && false = false ∧
       DemoRun.fetched ++ [EvFindPeriods "LS"; EvAlertStats; EvExternalXmatch]
       = DemoRun.fetched ++ [EvFindPeriods "LS"] ++ [EvAlertStats; EvExternalXmatch]).
  { intros [_ <-]. vm_compute. reflexivity. }
  pose (lcs := [DemoEdge.lc_brief; DemoRun.lc_short]).
  pose (a := DemoRun.args true false).
  apply (features_stage_queries (DemoRun.world lcs) a (DemoRun.loop_end lcs a)
           DemoRun.fetched
           (DemoRun.fetched ++ [EvFindPeriods "LS"; EvAlertStats; EvExternalXmatch])
           (DemoEdge.feature_rows (DemoRun.world lcs) a lcs)).
  vm_compute. reflexivity.
Defined.

(** X20 on a quadrant for which the id query returns an empty
    dictionary. *)
Lemma empty_quadrant_gives_empty_table_witness :
  generate_features (DemoEdge.world [[]] (Ok []) []) (DemoRun.args false false) []
  = ([EvGetIds 296 1 1; EvGetLightcurves 0; EvWriteMeta; EvWriteParquet 0],
     Ok (mkDF [] (metadata (DemoEdge.world [[]] (Ok []) []) (DemoRun.args false false)))).
Proof.
  apply (empty_quadrant_gives_empty_table (DemoEdge.world [[]] (Ok []) [])
           (DemoRun.args false false) [] DemoRun.region []).
  - reflexivity.
  - done.
  - reflexivity.
  - reflexivity.
Defined.

(** X21 on the run that only has a light curve for source 3: the row of
    source 1 is as it was. *)
Lemma rows_without_light_curve_untouched_witness :
  dget (feature_dict (DemoEdge.loop_end (DemoRun.world []) (DemoRun.args false false)
                        [DemoRun.lc_short])) 1%Z
  = Some Demo.src.
Proof.
  destruct (rows_without_light_curve_untouched (DemoRun.world [])
              (DemoRun.args false false) DemoRun.fgsl 296 1 1 [DemoRun.lc_short]
              (initial_state DemoRun.fgsl)
              (DemoEdge.loop_end (DemoRun.world []) (DemoRun.args false false)
                 [DemoRun.lc_short])
              (Ok tt) 1%Z) as [Hrow _].
  - vm_compute. reflexivity.
  - apply (bool_decide_unpack _). vm_compute. exact I.
  - exact Hrow.
Defined.

(** X22 on the two sources of the small run and their alert statistics. *)
Lemma alert_columns_for_every_row_witness :
  keys (DemoEdge.with_alerts DemoRun.fgsl) = keys DemoRun.fgsl ∧
  ∀ _id, _id ∈ keys DemoRun.fgsl →
    ∃ row n braai,
      dget ((λ kv, (kv.1, DemoRun.alert_row)) <$> DemoRun.fgsl) _id = Some row ∧
      row !! "n_ztf_alerts"%string = Some n ∧
      row !! "mean_ztf_alert_braai"%string = Some braai ∧
      has_column (DemoEdge.with_alerts DemoRun.fgsl) _id "n_ztf_alerts" n ∧
      has_column (DemoEdge.with_alerts DemoRun.fgsl) _id "mean_ztf_alert_braai" braai.
Proof.
  apply (alert_columns_for_every_row
           ((λ kv, (kv.1, DemoRun.alert_row)) <$> DemoRun.fgsl)
           DemoRun.fgsl (DemoEdge.with_alerts DemoRun.fgsl)).
  - apply (bool_decide_unpack _). vm_compute. exact I.
  - vm_compute. reflexivity.
Defined.
